(** * eBay auction sniper: the dashboard's snipe loop and the price extractor

    A shallow embedding of [src/App.tsx] (the React component holding the
    tracked auctions, the bid history, [calculateTimeRemaining], [attemptBid],
    [addAuction] and the one-second auto-snipe timer) and of the two revisions
    of [services/ebayService.ts] the dashboard was written against: the
    multi-strategy extractor (module [Chain]) and the later single-scrape one
    (module [Simple]).  An earlier draft of the multi-strategy extractor, whose
    patterns differ, is not embedded.  Of the dashboard the demo data
    generator, the countdown text, the refresh of one auction and the two
    refresh timers are embedded as well; of the service, the URL helpers, the
    listing status and the extractors of the title, the end time and the bid
    count.

    Conventions of the embedding.
    - A JavaScript [number] that holds a price is an extended rational: a
      finite value in [Q], one of the two infinities, or [NaN].  A
      comparison with [NaN] is false and [Math.min] of [NaN] is [NaN]; on the
      other values comparisons and [Math.min] are the exact ones, and binary
      rounding is not modelled.  [parseFloat] returns an [option], [None]
      being [NaN]; a price an outside service hands over is a [number] and
      may be [NaN].
    - A clock reading is the time value of a valid date after 1970, an
      integer count of milliseconds ([Z]); so is the reading stored by
      [new Date ()].  A [Date] that comes from a listing holds a time value
      or is the invalid date; [new Date (v)] is invalid when [v] is more than
      8.64e15 in size.  A count of milliseconds that may be [NaN] is an
      [option Z], [None] being [NaN].
    - [parseInt] gives [NaN], an integer below [2^53] in size, which a double
      holds exactly, or a double of size [2^53] or more, of which only the
      sign is kept.
    - A string is a [string] of 8-bit code units.
    - An id is [Date.now().toString()]; it is kept as the integer it prints.
    - React state is a record; an update [setX(prev => f prev)] applies [f]
      to the field.  Toasts and console output do not touch the state and are
      left out. *)

From Stdlib Require Import List ZArith QArith Bool Lia String Ascii.
From Stdlib Require Import Sorted Permutation.
From Stdlib Require Import Qround DecimalString DecimalZ DecimalPos.
Import ListNotations.
Local Open Scope string_scope.
Local Open Scope Z_scope.

(** ** Numbers *)

Inductive number : Type :=
| NaN
| NegInf
| Fin (q : Q)
| PosInf.

Definition isNaN (a : number) : bool :=
  match a with NaN => true | _ => false end.

(** [a <= b], [a < b], [a > b] on numbers; each is false when a side is
    [NaN]. *)
Definition num_le (a b : number) : bool :=
  match a, b with
  | NaN, _ | _, NaN => false
  | NegInf, _ => true
  | _, PosInf => true
  | Fin x, Fin y => Qle_bool x y
  | _, _ => false
  end.

Definition num_lt (a b : number) : bool :=
  match a, b with
  | NaN, _ | _, NaN => false
  | _, NegInf => false
  | PosInf, _ => false
  | Fin x, Fin y => negb (Qle_bool y x)
  | _, _ => true
  end.

Definition num_gt (a b : number) : bool := num_lt b a.

(** [Math.min(a, b)]: [NaN] when a side is [NaN]. *)
Definition Math_min (a b : number) : number :=
  match a, b with
  | NaN, _ | _, NaN => NaN
  | _, _ => if num_le a b then a else b
  end.

(** [a + 1]. *)
Definition plus_one (a : number) : number :=
  match a with
  | Fin q => Fin (q + 1)
  | other => other
  end.

Definition of_Z (z : Z) : number := Fin (inject_Z z).

(** ** Dates *)

(** A [Date] holds a time value, a whole number of milliseconds, or is the
    invalid date. *)
Inductive Date : Type :=
| Time (value : Z)
| InvalidDate.

(** [new Date(value)] for a whole number [value]: a time value is at most
    8.64e15 in size. *)
Definition new_Date (value : Z) : Date :=
  if Z.abs value <=? 8640000000000000 then Time value else InvalidDate.

(** [date.getTime()]; [None] is [NaN]. *)
Definition getTime (date : Date) : option Z :=
  match date with
  | Time value => Some value
  | InvalidDate => None
  end.

(** [x <= n] and [x > n] for a count of milliseconds [x] that may be [NaN]:
    with [NaN] both are false. *)
Definition ms_le (x : option Z) (n : Z) : bool :=
  match x with Some v => v <=? n | None => false end.

Definition ms_gt (x : option Z) (n : Z) : bool :=
  match x with Some v => n <? v | None => false end.

(** ** Results of code that may throw *)

Inductive Exn : Type :=
| TypeError
| Error (msg : string).

(** [error.message]; for the [TypeError] of a property read on [undefined]
    it is the engine's text. *)
Definition message (e : Exn) : string :=
  match e with
  | TypeError => "Cannot read properties of undefined (reading 'replace')"
  | Error m => m
  end.

Inductive Result (A : Type) : Type :=
| Ok (a : A)
| Throw (e : Exn).
Arguments Ok {A} a.
Arguments Throw {A} e.

(** ** Strings *)

Definition chars (s : string) : list ascii := list_ascii_of_string s.
Definition text (l : list ascii) : string := string_of_list_ascii l.

Definition code (c : ascii) : nat := nat_of_ascii c.

(** White space and line terminators among the 8-bit code units: what
    [trim], [parseFloat] and the class [\s] skip. *)
Definition is_space (c : ascii) : bool :=
  let n := code c in
  ((9 <=? n) && (n <=? 13) || (n =? 32) || (n =? 160))%nat.

Definition is_digit (c : ascii) : bool :=
  let n := code c in ((48 <=? n) && (n <=? 57))%nat.

Definition digit_value (c : ascii) : Z := Z.of_nat (code c - 48).

(** [c.toLowerCase()] on one code unit: the letters A to Z and the
    upper-case letters of Latin-1. *)
Definition lower (c : ascii) : ascii :=
  let n := code c in
  if ((65 <=? n) && (n <=? 90)
      || (192 <=? n) && (n <=? 222) && negb (n =? 215))%nat
  then ascii_of_nat (n + 32) else c.

Definition toLowerCase (s : string) : string := text (map lower (chars s)).

Definition ascii_eqb (a b : ascii) : bool := Ascii.eqb a b.

(** [!s.trim()]: the string is empty once white space is trimmed. *)
Definition is_blank (s : string) : bool := forallb is_space (chars s).

Fixpoint starts_with (p s : list ascii) : bool :=
  match p, s with
  | [], _ => true
  | a :: p', b :: s' => ascii_eqb a b && starts_with p' s'
  | _ :: _, [] => false
  end.

(** [s.includes(p)]. *)
Fixpoint includes_chars (s p : list ascii) : bool :=
  starts_with p s ||
  match s with
  | [] => false
  | _ :: s' => includes_chars s' p
  end.

Definition includes (s p : string) : bool := includes_chars (chars s) (chars p).

(** [s.split('\n')]. *)
Definition newline : ascii := ascii_of_nat 10.

Fixpoint split_lines_from (cur : list ascii) (s : list ascii) : list string :=
  match s with
  | [] => [text (rev cur)]
  | c :: s' =>
      if ascii_eqb c newline then text (rev cur) :: split_lines_from [] s'
      else split_lines_from (c :: cur) s'
  end.

Definition split_lines (s : string) : list string := split_lines_from [] (chars s).

(** [s.replace(/,/g, '')] and [s.replace(/[$,]/g, '')]. *)
Definition remove_commas (s : string) : string :=
  text (filter (fun c => negb (ascii_eqb c ",")) (chars s)).

Definition remove_dollars_commas (s : string) : string :=
  text (filter (fun c => negb (ascii_eqb c "$" || ascii_eqb c ",")) (chars s)).

(** ** [parseFloat] *)

(** The longest run of decimal digits at the head of [s], and the rest. *)
Fixpoint take_digits (s : list ascii) : list ascii * list ascii :=
  match s with
  | c :: s' =>
      if is_digit c then let (d, r) := take_digits s' in (c :: d, r)
      else ([], s)
  | [] => ([], [])
  end.

Definition digits_value (d : list ascii) : Z :=
  fold_left (fun acc c => 10 * acc + digit_value c) d 0.

Fixpoint drop_spaces (s : list ascii) : list ascii :=
  match s with
  | c :: s' => if is_space c then drop_spaces s' else s
  | [] => []
  end.

(** [m * 10 ^ e] as a rational. *)
Definition scale10 (m : Z) (e : Z) : Q :=
  if 0 <=? e then inject_Z (m * 10 ^ e)
  else Qmake m (Z.to_pos (10 ^ (- e))).

(** The exponent part [e[+-]digits] at the head of [s], when there is one. *)
Definition exponent_part (s : list ascii) : Z :=
  match s with
  | c :: s' =>
      if ascii_eqb c "e" || ascii_eqb c "E" then
        let '(neg, s'') :=
          match s' with
          | sg :: t =>
              if ascii_eqb sg "-" then (true, t)
              else if ascii_eqb sg "+" then (false, t)
              else (false, s')
          | [] => (false, s')
          end in
        match fst (take_digits s'') with
        | [] => 0
        | d => if neg then - digits_value d else digits_value d
        end
      else 0
  | [] => 0
  end.

(** [parseFloat(s)]: leading white space is skipped, then the longest prefix
    that is a decimal literal (optional sign, [Infinity] or digits with an
    optional fraction and exponent) is read; [None] is [NaN]. *)
Definition parseFloat (s : string) : option number :=
  let s1 := drop_spaces (chars s) in
  let '(neg, s2) :=
    match s1 with
    | c :: t =>
        if ascii_eqb c "-" then (true, t)
        else if ascii_eqb c "+" then (false, t)
        else (false, s1)
    | [] => (false, s1)
    end in
  if starts_with (chars "Infinity") s2 then Some (if neg then NegInf else PosInf)
  else
    let '(ip, s3) := take_digits s2 in
    let '(fp, s4) :=
      match s3 with
      | c :: t => if ascii_eqb c "." then take_digits t else ([], s3)
      | [] => ([], s3)
      end in
    match ip, fp with
    | [], [] => None
    | _, _ =>
        let m := digits_value (ip ++ fp) in
        let e := exponent_part s4 - Z.of_nat (List.length fp) in
        let q := scale10 m e in
        Some (Fin (if neg then Qopp q else q))
    end.

(** ** Regular expressions

    The fragment of JavaScript regular expressions the extractor uses:
    sequences of single-character atoms under the quantifiers [x], [x?],
    [x*] (greedy, backtracking) and [x*?] (lazy), one capture group, and the
    multiline anchors.  [x+] is written [x x*]. *)

Inductive CharClass : Type :=
| Lit (c : ascii)      (* a literal character *)
| Digit                (* [0-9] *)
| DigitComma           (* [0-9,] *)
| ColonSpace           (* [:\s] *)
| Space                (* \s *)
| Dot                  (* . *)
| NotSlashQuestion.    (* [^/?] *)

Inductive Quant : Type := Once | Opt | Star | LazyStar.

Inductive Item : Type :=
| Atom (k : CharClass) (q : Quant)
| GroupOpen
| GroupClose
| LineStart            (* ^ under the m flag *)
| LineEnd.             (* $ under the m flag *)

Record RegExp : Type := mkRegExp
  { source : list Item; ignoreCase : bool; global : bool }.

Definition is_line_terminator (c : ascii) : bool :=
  ((code c =? 10) || (code c =? 13))%nat.

Definition class_matches (ic : bool) (k : CharClass) (c : ascii) : bool :=
  match k with
  | Lit l => if ic then ascii_eqb (lower l) (lower c) else ascii_eqb l c
  | Digit => is_digit c
  | DigitComma => is_digit c || ascii_eqb c ","
  | ColonSpace => ascii_eqb c ":" || is_space c
  | Space => is_space c
  | Dot => negb (is_line_terminator c)
  | NotSlashQuestion => negb (ascii_eqb c "/" || ascii_eqb c "?")
  end.

(** What a match attempt has consumed so far (both lists reversed). *)
Record Cursor : Type := mkCursor
  { before : option ascii;       (* the character before the attempt *)
    whole : list ascii;
    group1 : list ascii;
    inGroup : bool }.

Definition start_at (prev : option ascii) : Cursor := mkCursor prev [] [] false.

Definition consume (c : ascii) (st : Cursor) : Cursor :=
  mkCursor (before st) (c :: whole st)
           (if inGroup st then c :: group1 st else group1 st) (inGroup st).

Definition open_group (st : Cursor) : Cursor :=
  mkCursor (before st) (whole st) [] true.

Definition close_group (st : Cursor) : Cursor :=
  mkCursor (before st) (whole st) (group1 st) false.

Definition at_line_start (st : Cursor) : bool :=
  match whole st with
  | c :: _ => is_line_terminator c
  | [] => match before st with Some c => is_line_terminator c | None => true end
  end.

Definition at_line_end (s : list ascii) : bool :=
  match s with
  | c :: _ => is_line_terminator c
  | [] => true
  end.

(** One match attempt at the head of [s]. *)
Fixpoint match_here (ic : bool) (re : list Item) (s : list ascii) (st : Cursor)
  {struct re} : option Cursor :=
  match re with
  | [] => Some st
  | GroupOpen :: re' => match_here ic re' s (open_group st)
  | GroupClose :: re' => match_here ic re' s (close_group st)
  | LineStart :: re' => if at_line_start st then match_here ic re' s st else None
  | LineEnd :: re' => if at_line_end s then match_here ic re' s st else None
  | Atom k Once :: re' =>
      match s with
      | c :: s' =>
          if class_matches ic k c then match_here ic re' s' (consume c st) else None
      | [] => None
      end
  | Atom k Opt :: re' =>
      match s with
      | c :: s' =>
          if class_matches ic k c then
            match match_here ic re' s' (consume c st) with
            | Some r => Some r
            | None => match_here ic re' s st
            end
          else match_here ic re' s st
      | [] => match_here ic re' [] st
      end
  | Atom k Star :: re' =>
      (fix star (s : list ascii) (st : Cursor) {struct s} : option Cursor :=
         match s with
         | c :: s' =>
             if class_matches ic k c then
               match star s' (consume c st) with
               | Some r => Some r
               | None => match_here ic re' s st
               end
             else match_here ic re' s st
         | [] => match_here ic re' [] st
         end) s st
  | Atom k LazyStar :: re' =>
      (fix lazy (s : list ascii) (st : Cursor) {struct s} : option Cursor :=
         match match_here ic re' s st with
         | Some r => Some r
         | None =>
             match s with
             | c :: s' =>
                 if class_matches ic k c then lazy s' (consume c st) else None
             | [] => None
             end
         end) s st
  end.

(** The leftmost match. *)
Fixpoint search (ic : bool) (re : list Item) (prev : option ascii)
  (s : list ascii) : option Cursor :=
  match match_here ic re s (start_at prev) with
  | Some st => Some st
  | None =>
      match s with
      | c :: s' => search ic re (Some c) s'
      | [] => None
      end
  end.

(** All matches, left to right, the next search starting where the last match
    ended ([skip] characters are still covered by it). *)
Fixpoint match_all (ic : bool) (re : list Item) (prev : option ascii)
  (s : list ascii) (skip : nat) : list string :=
  match s with
  | c :: s' =>
      match skip with
      | S k => match_all ic re (Some c) s' k
      | O =>
          match match_here ic re s (start_at prev) with
          | Some st =>
              text (rev (whole st))
                :: match_all ic re (Some c) s' (pred (List.length (whole st)))
          | None => match_all ic re (Some c) s' 0
          end
      end
  | [] =>
      match skip with
      | S _ => []
      | O =>
          match match_here ic re [] (start_at prev) with
          | Some st => [text (rev (whole st))]
          | None => []
          end
      end
  end.

Definition has_group (re : list Item) : bool :=
  existsb (fun i => match i with GroupOpen => true | _ => false end) re.

(** [s.match(r)]: [None] is [null].  Without the [g] flag the array holds the
    whole match and then the capture group; with it, the array holds the
    whole text of every match and no capture group. *)
Definition js_match (s : string) (r : RegExp) : option (list string) :=
  if global r then
    match match_all (ignoreCase r) (source r) None (chars s) 0 with
    | [] => None
    | l => Some l
    end
  else
    match search (ignoreCase r) (source r) None (chars s) with
    | Some st =>
        Some (text (rev (whole st))
                :: (if has_group (source r) then [text (rev (group1 st))] else []))
    | None => None
    end.

(** Pattern building. *)
Definition lit (s : string) : list Item := map (fun c => Atom (Lit c) Once) (chars s).
Definition plus (k : CharClass) : list Item := [Atom k Once; Atom k Star].
Definition star (k : CharClass) : list Item := [Atom k Star].
Definition opt (k : CharClass) : list Item := [Atom k Opt].

(** The price with its dollar sign: a dollar, then the capture group of
    one or more of [0-9,], an optional dot and any number of digits. *)
Definition dollar_price : list Item :=
  lit "$" ++ [GroupOpen] ++ plus DigitComma ++ opt (Lit ".") ++ star Digit ++ [GroupClose].

(** Optional white space, a bid count and the word bid or bids. *)
Definition bids_suffix : list Item :=
  star Space ++ plus Digit ++ star Space ++ lit "bid" ++ opt (Lit "s").

Definition re_i (src : list Item) : RegExp := mkRegExp src true false.
Definition re_g (src : list Item) : RegExp := mkRegExp src false true.

(** ** More string operations *)

(** [s.trim()]. *)
Definition trim (s : string) : string :=
  text (rev (drop_spaces (rev (drop_spaces (chars s))))).

(** [s.replace(p, r)] with a string pattern: the first occurrence only. *)
Fixpoint replace_first_chars (s p r : list ascii) : list ascii :=
  if starts_with p s then r ++ skipn (List.length p) s
  else
    match s with
    | [] => []
    | c :: s' => c :: replace_first_chars s' p r
    end.

Definition replace_first (s p r : string) : string :=
  text (replace_first_chars (chars s) (chars p) (chars r)).

(** [s.split('?')[0]]. *)
Fixpoint before_question (s : list ascii) : list ascii :=
  match s with
  | [] => []
  | c :: s' => if ascii_eqb c "?" then [] else c :: before_question s'
  end.

Definition startsWith (s p : string) : bool := starts_with (chars p) (chars s).

(** ** Data shared by the service and the dashboard *)

Record Details : Type := mkDetails
  { imageUrl : option string;
    seller : option string;
    bidCount : option Z;
    condition : option string;
    location : option string;
    shipping : option string }.

Record EbayAuctionData : Type := mkData
  { title : string;
    currentBid : number;
    endTime : Date;
    itemId : string;
    details : Details }.

(** What [blink.data.scrape] resolves to, as far as the extractor reads it.
    A JSON-LD price is kept as the text [parseFloat] sees. *)
Record Heading : Type := mkHeading { level : Z; heading_text : string }.

Record JsonLd : Type := mkJsonLd
  { ld_type : string; offers_price : option string }.

Record Extract : Type := mkExtract
  { headings : option (list Heading);
    jsonLd : option (list JsonLd);
    images : option (list string) }.

Record PageData : Type := mkPage
  { markdown : string;
    metadata_title : option string;
    extract : option Extract }.

(** A JavaScript string is truthy when it is not empty. *)
Definition truthy (s : string) : bool :=
  match s with EmptyString => false | _ => true end.

(** ** URL handling *)

Definition ebayDomains : list string :=
  ["ebay.com"; "ebay.co.uk"; "ebay.de"; "ebay.fr"; "ebay.it"; "ebay.es";
   "ebay.ca"; "ebay.com.au"].

Definition isValidEbayUrl (url : string) : bool :=
  existsb (fun domain => includes url domain) ebayDomains
  && (includes url "/itm/" || includes url "/p/").

Definition preprocessEbayUrl (url : string) : string :=
  let cleanUrl := text (before_question (chars url)) in
  let cleanUrl :=
    if startsWith cleanUrl "http://"
    then replace_first cleanUrl "http://" "https://" else cleanUrl in
  if includes cleanUrl "ebay.com" && negb (includes cleanUrl "www.")
  then replace_first cleanUrl "ebay.com" "www.ebay.com"
  else cleanUrl.

Definition convertToMobileUrl (url : string) : string :=
  replace_first url "www.ebay.com" "m.ebay.com".

Definition simplifyEbayUrl (url itemId : string) : string :=
  let domain :=
    if includes url "ebay.co.uk" then "www.ebay.co.uk"
    else if includes url "ebay.de" then "www.ebay.de"
    else if includes url "ebay.fr" then "www.ebay.fr"
    else if includes url "ebay.it" then "www.ebay.it"
    else if includes url "ebay.es" then "www.ebay.es"
    else if includes url "ebay.ca" then "www.ebay.ca"
    else if includes url "ebay.com.au" then "www.ebay.com.au"
    else "www.ebay.com" in
  "https://" ++ domain ++ "/itm/" ++ itemId.

Definition re_plain (src : list Item) : RegExp := mkRegExp src false false.

(** The capture group of the first pattern that matches, else ['unknown']. *)
Definition itemIdPatterns : list RegExp :=
  [ re_plain (lit "/itm/" ++ [GroupOpen] ++ plus NotSlashQuestion ++ [GroupClose]);
    re_plain (lit "/p/" ++ [GroupOpen] ++ plus Digit ++ [GroupClose]);
    re_plain (lit "item=" ++ [GroupOpen] ++ plus Digit ++ [GroupClose]);
    re_plain (lit "/" ++ [GroupOpen] ++ repeat (Atom Digit Once) 12 ++ star Digit
                ++ [GroupClose]) ].

Fixpoint first_group (patterns : list RegExp) (s : string) : option string :=
  match patterns with
  | [] => None
  | pattern :: rest =>
      match js_match s pattern with
      | Some m => Some (nth 1 m "")
      | None => first_group rest s
      end
  end.

Definition extractItemId (url : string) : string :=
  match first_group itemIdPatterns url with
  | Some g => g
  | None => "unknown"
  end.

(** ** Title *)

(** A heading marker at a line start, white space, then the lazily matched
    rest of the line as the capture group. *)
Definition titlePattern : RegExp :=
  re_plain ([LineStart] ++ lit "#" ++ star Space
              ++ [GroupOpen; Atom Dot Once; Atom Dot LazyStar; GroupClose; LineEnd]).

Definition clean_title (s : string) : string := trim (replace_first s " | eBay" "").

Definition extractTitle (page : PageData) : string :=
  let from_markdown :=
    match js_match (markdown page) titlePattern with
    | Some m => clean_title (nth 1 m "")
    | None => "eBay Auction Item"
    end in
  let from_headings :=
    match extract page with
    | Some ex =>
        match headings ex with
        | Some hs =>
            match find (fun h => (level h =? 1)
                                 || (20 <? Z.of_nat (String.length (heading_text h)))) hs with
            | Some mainHeading => clean_title (heading_text mainHeading)
            | None => from_markdown
            end
        | None => from_markdown
        end
    | None => from_markdown
    end in
  match metadata_title page with
  | Some t => if truthy t then clean_title t else from_headings
  | None => from_headings
  end.

(** ** Price patterns *)

Definition mainPricePatterns : list RegExp :=
  [ re_i (lit "US " ++ dollar_price ++ bids_suffix);
    re_i (lit "Current bid" ++ star ColonSpace ++ lit "US" ++ star Space ++ dollar_price);
    re_i (lit "Current bid" ++ star ColonSpace ++ dollar_price);
    re_i (dollar_price ++ bids_suffix);
    re_i (lit "Price" ++ star ColonSpace ++ dollar_price);
    re_i (lit "Starting bid" ++ star ColonSpace ++ dollar_price);
    re_i (lit "Bid" ++ star ColonSpace ++ dollar_price);
    re_i (dollar_price ++ star Space ++ lit "current");
    re_i (lit "Buy It Now" ++ star ColonSpace ++ dollar_price);
    re_i (lit "BIN" ++ star ColonSpace ++ dollar_price);
    re_g dollar_price ].

(** [!isNaN(price) && price > 0 && price < 1000000], once [price] is a
    number. *)
Definition plausible (price : number) : bool :=
  num_gt price (of_Z 0) && num_lt price (of_Z 1000000).

(** What one pattern contributes: the text [match[1]] with its commas
    removed, read by [parseFloat].  [match[1]] is [undefined] when the array
    has a single entry, and calling [replace] on it throws a [TypeError]. *)
Definition pattern_price (pattern : RegExp) (s : string) : Result (option number) :=
  match js_match s pattern with
  | Some m =>
      match nth_error m 1 with
      | Some g =>
          match parseFloat (remove_commas g) with
          | Some price => if plausible price then Ok (Some price) else Ok None
          | None => Ok None
          end
      | None => Throw TypeError
      end
  | None => Ok None
  end.

(** The loop [for (const pattern of mainPricePatterns)]: the first plausible
    price is returned; [Ok None] means the loop ran to its end. *)
Fixpoint try_patterns (patterns : list RegExp) (s : string) : Result (option number) :=
  match patterns with
  | [] => Ok None
  | pattern :: rest =>
      match pattern_price pattern s with
      | Ok (Some price) => Ok (Some price)
      | Ok None => try_patterns rest s
      | Throw e => Throw e
      end
  end.

(** ** Scraping *)

(** How one call of [blink.data.scrape] ends when raced against the timer of
    [performScrapingWithTimeout]. *)
Inductive ScrapeOutcome : Type :=
| Resolved (page : PageData)
| Rejected (reason : string)      (* the scrape rejected, [reason] its message *)
| TimedOut.

Definition performScrapingWithTimeout (outcome : ScrapeOutcome) (timeoutMs : string)
  : Result PageData :=
  match outcome with
  | Resolved page => Ok page
  | Rejected reason =>
      Throw (Error ("Scraping failed: " ++ (if truthy reason then reason else "Unknown error")))
  | TimedOut => Throw (Error ("Scraping timeout after " ++ timeoutMs ++ "ms"))
  end.

(** ** The single-scrape revision of the service *)

Module Simple.
Section Service.

(** The extractors of the other fields; they read the page and the clock
  and never throw. *)
Variable extractEndTime : Z -> string -> Date.
Variable extractDetails : PageData -> Details.

Definition extractCurrentBid (markdown : string) (extract : option Extract)
: Result number :=
match try_patterns mainPricePatterns markdown with
| Ok (Some price) => Ok price
| Ok None => Throw (Error "Unable to extract current bid/price from auction")
| Throw e => Throw e
end.

Definition parseEbayPageData (now : Z) (pageData : PageData) (itemId : string)
: Result EbayAuctionData :=
let title := extractTitle pageData in
match extractCurrentBid (markdown pageData) (extract pageData) with
| Ok currentBid =>
    Ok (mkData title currentBid (extractEndTime now (markdown pageData)) itemId
               (extractDetails pageData))
| Throw e => Throw e
end.

(** The [catch] block: the error is replaced by one of four codes. *)
Definition classify (e : Exn) : Exn :=
if includes (message e) "500" then Error "EBAY_BLOCKING_REQUESTS"
else if includes (message e) "timeout" then Error "SCRAPING_TIMEOUT"
else if includes (message e) "No valid price data" then Error "PRICE_EXTRACTION_FAILED"
else Error "SCRAPING_FAILED".

(** [extractAuctionData]; [scrape] is what the one scrape of the cleaned
  URL does. *)
Definition extractAuctionData (scrape : string -> ScrapeOutcome) (now : Z) (url : string)
: Result EbayAuctionData :=
if negb (isValidEbayUrl url) then Throw (Error "Please enter a valid eBay auction URL")
else
  let processedUrl := preprocessEbayUrl url in
  let itemId := extractItemId processedUrl in
  let attempt :=
    match performScrapingWithTimeout (scrape processedUrl) "8000" with
    | Ok pageData =>
        match parseEbayPageData now pageData itemId with
        | Ok auctionData =>
            if num_gt (currentBid auctionData) (of_Z 0) then Ok auctionData
            else Throw (Error "No valid price data found")
        | Throw e => Throw e
        end
    | Throw e => Throw e
    end in
  match attempt with
  | Ok auctionData => Ok auctionData
  | Throw e => Throw (classify e)
  end.

Definition monitorAuction := extractAuctionData.

End Service.
End Simple.

(** ** The multi-strategy revision of the service *)

Module Chain.

(** *** Price extraction *)

(** The JSON-LD loop: the first [Product] entry whose price text is truthy
    and parses to a positive number. *)
Fixpoint jsonLd_price (items : list JsonLd) : option number :=
  match items with
  | [] => None
  | item :: rest =>
      match offers_price item with
      | Some p =>
          if String.eqb (ld_type item) "Product" && truthy p then
            match parseFloat p with
            | Some price => if num_gt price (of_Z 0) then Some price else jsonLd_price rest
            | None => jsonLd_price rest
            end
          else jsonLd_price rest
      | None => jsonLd_price rest
      end
  end.

Definition similarMarkers : list string :=
  ["similar"; "related"; "people who viewed"; "previous price"; "sponsored";
   "advertisement"].

Definition mainMarkers : list string :=
  ["item description"; "condition:"; "seller information"; "shipping:"].

Definition linePricePatterns : list RegExp :=
  [ re_i (lit "US " ++ dollar_price); re_i dollar_price ].

(** The inner loop over [pricePatterns] on one line: every pattern that
    gives a plausible price pushes it. *)
Fixpoint line_prices (patterns : list RegExp) (line : string) : Result (list number) :=
  match patterns with
  | [] => Ok []
  | pattern :: rest =>
      match pattern_price pattern line with
      | Ok found =>
          match line_prices rest line with
          | Ok more => Ok (match found with Some price => price :: more | None => more end)
          | Throw e => Throw e
          end
      | Throw e => Throw e
      end
  end.

(** The loop over the lines, with its two variables. *)
Fixpoint scan_lines (lines : list string) (inSimilarSection : bool)
  (foundPrices : list number) : Result (list number) :=
  match lines with
  | [] => Ok foundPrices
  | l :: rest =>
      let line := toLowerCase l in
      if existsb (includes line) similarMarkers then scan_lines rest true foundPrices
      else
        let inSimilarSection :=
          if existsb (includes line) mainMarkers then false else inSimilarSection in
        if inSimilarSection then scan_lines rest inSimilarSection foundPrices
        else
          match line_prices linePricePatterns l with
          | Ok prices => scan_lines rest inSimilarSection (foundPrices ++ prices)
          | Throw e => Throw e
          end
  end.

(** [prices.sort((a, b) => a - b)]: ascending and stable. *)
Fixpoint insert_sorted (x : number) (l : list number) : list number :=
  match l with
  | [] => [x]
  | y :: l' => if num_lt x y then x :: l else y :: insert_sorted x l'
  end.

Definition sort_numbers (l : list number) : list number :=
  fold_left (fun acc x => insert_sorted x acc) l [].

(** [sorted[Math.floor(sorted.length / 2)]]. *)
Definition middle (sorted : list number) : option number :=
  nth_error sorted (Nat.div2 (List.length sorted)).

(** An optional dollar sign, then the digits of a price. *)
Definition anyNumberPattern : RegExp :=
  re_g (opt (Lit "$") ++ [GroupOpen] ++ plus DigitComma ++ opt (Lit ".")
          ++ star Digit ++ [GroupClose]).

Fixpoint keep_numbers (l : list (option number)) : list number :=
  match l with
  | [] => []
  | Some n :: l' => n :: keep_numbers l'
  | None :: l' => keep_numbers l'
  end.

(** The last resort: every number in the text that is plausible and at least
    one cent; of those, the smallest in [1, 10000], else the smallest. *)
Definition last_resort (markdown : string) : option number :=
  match js_match markdown anyNumberPattern with
  | Some allNumbers =>
      let parsed := map (fun num => parseFloat (remove_dollars_commas num)) allNumbers in
      let validPrices :=
        filter (fun price => plausible price && num_le (Fin (1 # 100)) price)
               (keep_numbers parsed) in
      match sort_numbers validPrices with
      | [] => None
      | (first :: _) as sorted =>
          match find (fun price => num_le (of_Z 1) price && num_le price (of_Z 10000)) sorted with
          | Some reasonablePrice => Some reasonablePrice
          | None => Some first
          end
      end
  | None => None
  end.

(** [if (extract?.jsonLd) { for (const item of extract.jsonLd) ... }] *)
Definition fromJsonLd (extract : option Extract) : option number :=
  match extract with
  | Some ex => match jsonLd ex with Some items => jsonLd_price items | None => None end
  | None => None
  end.

(** The error message is cut to its first sentence. *)
Definition extractCurrentBid (markdown : string) (extract : option Extract)
  : Result number :=
  match fromJsonLd extract with
  | Some price => Ok price
  | None =>
      match try_patterns mainPricePatterns markdown with
      | Ok (Some price) => Ok price
      | Throw e => Throw e
      | Ok None =>
          match scan_lines (split_lines markdown) false [] with
          | Throw e => Throw e
          | Ok foundPrices =>
              match middle (sort_numbers foundPrices) with
              | Some medianPrice => Ok medianPrice
              | None =>
                  match last_resort markdown with
                  | Some price => Ok price
                  | None =>
                      Throw (Error "Unable to extract current bid/price from auction.")
                  end
              end
          end
      end
  end.

(** *** The fallback chain *)

(** One data-fetch attempt, as it is logged. *)
Inductive Attempt : Type :=
| ApiLookup (itemId : string)             (* [fetchFromEbayAPI] *)
| Scrape (url : string)                   (* [performScrapingWithTimeout] *)
| ProxyFetch (proxy : string) (url : string).

(** The outside world.  Each answer may depend on the attempts made before
    it.  [ebayApi] is the value of [fetchFromEbayAPI], which builds a record
    from the JSON of one of two endpoints or gives [null], and catches its
    own errors; its price is [parseFloat] of the price field or of ['0']
    when the field is missing.  [proxyFetch] is one proxy request followed by
    [parseHTMLContent]: [Ok None] when the response is unusable or the parse
    gives [null], [Throw] when the request fails. *)
Record World : Type := mkWorld
  { ebayApi : list Attempt -> string -> option EbayAuctionData;
    scrape : list Attempt -> string -> ScrapeOutcome;
    proxyFetch : list Attempt -> string -> string -> Result (option EbayAuctionData) }.

Definition proxies : list string :=
  ["https://api.allorigins.win/get?url="; "https://corsproxy.io/?";
   "https://cors-anywhere.herokuapp.com/"].

Section Service.

Variable extractEndTime : Z -> string -> Date.
Variable extractDetails : PageData -> Details.
Variable world : World.
Variable now : Z.

Definition parseEbayPageData (pageData : PageData) (itemId : string)
  : Result EbayAuctionData :=
  let title := extractTitle pageData in
  match extractCurrentBid (markdown pageData) (extract pageData) with
  | Ok currentBid =>
      Ok (mkData title currentBid (extractEndTime now (markdown pageData)) itemId
                 (extractDetails pageData))
  | Throw e => Throw e
  end.

(** The test both scraping methods apply to what they parsed. *)
Definition real_data (auctionData : EbayAuctionData) : bool :=
  num_gt (currentBid auctionData) (of_Z 0)
  && negb (includes (title auctionData) "Demo Mode").

(** One [try] block around a scrape: [None] when the scrape or the parse
    throws (the error is only logged) or the data fails the test. *)
Definition scrape_attempt (log : list Attempt) (url itemId : string)
  : option EbayAuctionData :=
  match performScrapingWithTimeout (scrape world log url) "15000" with
  | Ok pageData =>
      match parseEbayPageData pageData itemId with
      | Ok auctionData => if real_data auctionData then Some auctionData else None
      | Throw _ => None
      end
  | Throw _ => None
  end.

(** Method 3: the loop over the alternative URLs. *)
Fixpoint try_alternatives (urls : list string) (itemId : string) (log : list Attempt)
  : option EbayAuctionData * list Attempt :=
  match urls with
  | [] => (None, log)
  | altUrl :: rest =>
      match scrape_attempt log altUrl itemId with
      | Some auctionData => (Some auctionData, (log ++ [Scrape altUrl])%list)
      | None => try_alternatives rest itemId (log ++ [Scrape altUrl])%list
      end
  end.

(** [fetchWithProxy]: the loop over the proxies. *)
Fixpoint fetchWithProxy (ps : list string) (url : string) (log : list Attempt)
  : option EbayAuctionData * list Attempt :=
  match ps with
  | [] => (None, log)
  | proxyUrl :: rest =>
      let log' := (log ++ [ProxyFetch proxyUrl url])%list in
      match proxyFetch world log proxyUrl url with
      | Ok (Some auctionData) =>
          if num_gt (currentBid auctionData) (of_Z 0) then (Some auctionData, log')
          else fetchWithProxy rest url log'
      | Ok None => fetchWithProxy rest url log'
      | Throw _ => fetchWithProxy rest url log'
      end
  end.

Definition alternativeUrls (processedUrl itemId : string) : list string :=
  [ convertToMobileUrl processedUrl;
    simplifyEbayUrl processedUrl itemId;
    "https://www.ebay.com/itm/" ++ itemId;
    "https://m.ebay.com/itm/" ++ itemId ].

Definition all_failed : Exn :=
  Error "Unable to fetch real auction data from eBay.".

(** [extractAuctionData], with the log of the attempts it made. *)
Definition extractAuctionData (url : string)
  : Result EbayAuctionData * list Attempt :=
  if negb (isValidEbayUrl url)
  then (Throw (Error "Please enter a valid eBay auction URL"), [])
  else
    let processedUrl := preprocessEbayUrl url in
    let itemId := extractItemId processedUrl in
    (* Method 1 *)
    let log1 := [ApiLookup itemId] in
    match ebayApi world [] itemId with
    | Some apiData => (Ok apiData, log1)
    | None =>
        (* Method 2 *)
        let log2 := (log1 ++ [Scrape processedUrl])%list in
        match scrape_attempt log1 processedUrl itemId with
        | Some auctionData => (Ok auctionData, log2)
        | None =>
            (* Method 3 *)
            match try_alternatives (alternativeUrls processedUrl itemId) itemId log2 with
            | (Some auctionData, log3) => (Ok auctionData, log3)
            | (None, log3) =>
                (* Method 4 *)
                match fetchWithProxy proxies processedUrl log3 with
                | (Some proxyData, log4) => (Ok proxyData, log4)
                | (None, log4) => (Throw all_failed, log4)
                end
            end
        end
    end.

End Service.
End Chain.

(** ** The dashboard: data *)

Module Status.
Inductive t : Type := monitoring | bidding | won | lost | error.

Definition eqb (a b : t) : bool :=
  match a, b with
  | monitoring, monitoring | bidding, bidding | won, won | lost, lost
  | error, error => true
  | _, _ => false
  end.
End Status.

Module BidRecord.
Record t : Type := mk
  { id : Z;
    auctionId : Z;
    amount : number;
    timestamp : Z;
    success : bool;
    reason : option string }.
End BidRecord.

Module Auction.
Record t : Type := mk
  { id : Z;
    url : string;
    title : string;
    currentBid : number;
    maxBid : number;
    endTime : Date;
    isActive : bool;
    status : Status.t;
    lastBidAmount : option number;
    bidHistory : list BidRecord.t;
    itemId : string;
    details : Details;
    lastUpdated : Z }.
End Auction.

(** The component state ([user] and [authLoading] only gate the rendering). *)
Record State : Type := mkState
  { auctions : list Auction.t;
    newAuctionUrl : string;
    newMaxBid : string;
    autoSnipeEnabled : bool;
    bidHistory : list BidRecord.t;
    isAddingAuction : bool;
    demoMode : bool }.

Definition initial : State := mkState [] "" "" true [] false false.

Definition setAuctions (f : list Auction.t -> list Auction.t) (st : State) : State :=
  mkState (f (auctions st)) (newAuctionUrl st) (newMaxBid st) (autoSnipeEnabled st)
          (bidHistory st) (isAddingAuction st) (demoMode st).

Definition setBidHistory (f : list BidRecord.t -> list BidRecord.t) (st : State) : State :=
  mkState (auctions st) (newAuctionUrl st) (newMaxBid st) (autoSnipeEnabled st)
          (f (bidHistory st)) (isAddingAuction st) (demoMode st).

Definition setIsAddingAuction (b : bool) (st : State) : State :=
  mkState (auctions st) (newAuctionUrl st) (newMaxBid st) (autoSnipeEnabled st)
          (bidHistory st) b (demoMode st).

Definition setNewAuctionUrl (s : string) (st : State) : State :=
  mkState (auctions st) s (newMaxBid st) (autoSnipeEnabled st)
          (bidHistory st) (isAddingAuction st) (demoMode st).

Definition setNewMaxBid (s : string) (st : State) : State :=
  mkState (auctions st) (newAuctionUrl st) s (autoSnipeEnabled st)
          (bidHistory st) (isAddingAuction st) (demoMode st).

Definition setAutoSnipeEnabled (b : bool) (st : State) : State :=
  mkState (auctions st) (newAuctionUrl st) (newMaxBid st) b
          (bidHistory st) (isAddingAuction st) (demoMode st).

Definition setDemoMode (b : bool) (st : State) : State :=
  mkState (auctions st) (newAuctionUrl st) (newMaxBid st) (autoSnipeEnabled st)
          (bidHistory st) (isAddingAuction st) b.

(** ** Time remaining *)

Record TimeRemaining : Type := mkTime
  { hours : option Z; minutes : option Z; seconds : option Z; total : option Z }.

(** [calculateTimeRemaining], with the clock reading [now] made explicit.
    [Math.floor (x / d)] for a positive [d] is [x / d] on [Z]; [%] is the
    truncating remainder [Z.rem].  For the invalid date [diff] is [NaN]: the
    test [diff <= 0] is false and each field computed from it is [NaN]. *)
Definition calculateTimeRemaining (now : Z) (endTime : Date) : TimeRemaining :=
  let diff := option_map (fun t => t - now) (getTime endTime) in
  if ms_le diff 0 then mkTime (Some 0) (Some 0) (Some 0) (Some 0)
  else
    let hours := option_map (fun d => d / (1000 * 60 * 60)) diff in
    let minutes := option_map (fun d => Z.rem d (1000 * 60 * 60) / (1000 * 60)) diff in
    let seconds := option_map (fun d => Z.rem d (1000 * 60) / 1000) diff in
    mkTime hours minutes seconds diff.

(** ** Adding, refreshing and removing auctions *)

(** [extractAuctionData] of the component: demo data, or the service. *)
Definition extractAuctionData (generateDemoAuctionData : string -> EbayAuctionData)
  (service : string -> Result EbayAuctionData) (st : State) (url : string)
  : Result EbayAuctionData :=
  if demoMode st then Ok (generateDemoAuctionData url) else service url.

Definition newAuction (now : Z) (url : string) (maxBidAmount : number)
  (auctionData : EbayAuctionData) : Auction.t :=
  Auction.mk now url (title auctionData) (currentBid auctionData) maxBidAmount
             (endTime auctionData) true Status.monitoring None []
             (itemId auctionData) (details auctionData) now.

(** [addAuction]; [now] is the clock when the new record is built. *)
Definition addAuction (generateDemoAuctionData : string -> EbayAuctionData)
  (service : string -> Result EbayAuctionData) (now : Z) (st : State) : State :=
  if is_blank (newAuctionUrl st) || is_blank (newMaxBid st) then st
  else
    match parseFloat (newMaxBid st) with
    | None => st
    | Some maxBidAmount =>
        if num_le maxBidAmount (of_Z 0) then st
        else
          let st := setIsAddingAuction true st in
          match extractAuctionData generateDemoAuctionData service st (newAuctionUrl st) with
          | Ok auctionData =>
              if num_le maxBidAmount (currentBid auctionData)
              then setIsAddingAuction false st
              else
                let added :=
                  setAuctions
                    (fun prev => (prev ++ [newAuction now (newAuctionUrl st) maxBidAmount auctionData])%list)
                    st in
                setIsAddingAuction false (setNewMaxBid "" (setNewAuctionUrl "" added))
          | Throw _ => setIsAddingAuction false st
          end
    end.

Definition refreshed (now : Z) (updatedData : EbayAuctionData) (a : Auction.t) : Auction.t :=
  Auction.mk (Auction.id a) (Auction.url a) (title updatedData) (currentBid updatedData)
             (Auction.maxBid a) (endTime updatedData) (Auction.isActive a)
             (Auction.status a) (Auction.lastBidAmount a) (Auction.bidHistory a)
             (Auction.itemId a)
             (mkDetails (imageUrl (Auction.details a)) (seller (Auction.details a))
                        (bidCount (details updatedData)) (condition (Auction.details a))
                        (location (Auction.details a)) (shipping (Auction.details a)))
             now.

Definition refreshAuctionData (generateDemoAuctionData : string -> EbayAuctionData)
  (monitorAuction : string -> Result EbayAuctionData) (now : Z) (auctionId : Z)
  (st : State) : State :=
  match find (fun a => Auction.id a =? auctionId) (auctions st) with
  | None => st
  | Some auction =>
      let updatedData :=
        if demoMode st || includes (Auction.title auction) "(Demo Mode)"
        then Ok (generateDemoAuctionData (Auction.url auction))
        else monitorAuction (Auction.url auction) in
      match updatedData with
      | Ok updatedData =>
          setAuctions
            (map (fun a => if Auction.id a =? auctionId then refreshed now updatedData a else a))
            st
      | Throw _ => st
      end
  end.

Definition removeAuction (id : Z) (st : State) : State :=
  setAuctions (filter (fun auction => negb (Auction.id auction =? id))) st.

(** ** Bidding *)

(** The object spreads that rewrite an auction. *)
Definition with_bids (a : Auction.t) (isActive : bool) (status : Status.t)
  (lastBidAmount : option number) (bidHistory : list BidRecord.t) : Auction.t :=
  Auction.mk (Auction.id a) (Auction.url a) (Auction.title a) (Auction.currentBid a)
             (Auction.maxBid a) (Auction.endTime a) isActive status lastBidAmount
             bidHistory (Auction.itemId a) (Auction.details a) (Auction.lastUpdated a).

(** [{ ...a, status: 'error', bidHistory: [...a.bidHistory, failedBid] }] *)
Definition rejected (failedBid : BidRecord.t) (a : Auction.t) : Auction.t :=
  with_bids a (Auction.isActive a) Status.error (Auction.lastBidAmount a)
            (Auction.bidHistory a ++ [failedBid]).

(** The update of [attemptBid] after the simulated placement. *)
Definition settled (safeBidAmount : number) (bidRecord : BidRecord.t) (success : bool)
  (a : Auction.t) : Auction.t :=
  with_bids a false (if success then Status.won else Status.lost) (Some safeBidAmount)
            (Auction.bidHistory a ++ [bidRecord]).

(** [{ ...auction, status: 'bidding' }] *)
Definition set_bidding (a : Auction.t) : Auction.t :=
  with_bids a (Auction.isActive a) Status.bidding (Auction.lastBidAmount a)
            (Auction.bidHistory a).

(** [{ ...auction, status: 'error', isActive: false, bidHistory: [..., failedBid] }] *)
Definition too_low (failedBid : BidRecord.t) (a : Auction.t) : Auction.t :=
  with_bids a false Status.error (Auction.lastBidAmount a)
            (Auction.bidHistory a ++ [failedBid]).

(** [{ ...auction, status: 'lost', isActive: false }] *)
Definition expired (a : Auction.t) : Auction.t :=
  with_bids a false Status.lost (Auction.lastBidAmount a) (Auction.bidHistory a).

(** What the map callback of the timer asks for besides the new auction. *)
Inductive Effect : Type :=
| SetTimeout_attemptBid (auction : Auction.t) (bidAmount : number)
| Push_bidHistory (failedBid : BidRecord.t)
| Call_refreshAuctionData (auctionId : Z).

Section Bidding.

(** The text of a number inside a template string. *)
Variable number_toString : number -> string.

(** The record of a bid refused for exceeding the maximum. *)
Definition failedBid_exceeds (now : Z) (auction : Auction.t) (bidAmount : number)
  : BidRecord.t :=
  BidRecord.mk now (Auction.id auction) bidAmount now false
    (Some ("Bid amount ($" ++ number_toString bidAmount ++ ") exceeds max bid ($"
             ++ number_toString (Auction.maxBid auction) ++ ")")).

(** The record of a simulated placement. *)
Definition bidRecord_placed (now : Z) (auction : Auction.t) (safeBidAmount : number)
  (success : bool) : BidRecord.t :=
  BidRecord.mk now (Auction.id auction) safeBidAmount now success
    (if success then None else Some "Outbid by another user").

(** The record of a maximum too low to compete. *)
Definition failedBid_too_low (now : Z) (auction : Auction.t) : BidRecord.t :=
  BidRecord.mk now (Auction.id auction) (of_Z 0) now false
    (Some ("Max bid ($" ++ number_toString (Auction.maxBid auction)
             ++ ") is lower than current bid ($"
             ++ number_toString (Auction.currentBid auction) ++ ")")).

(** [attemptBid]; [random] is the value of [Math.random ()], [now] the
    clock. *)
Definition attemptBid (now : Z) (random : Q) (auction : Auction.t) (bidAmount : number)
  (st : State) : State :=
  let safeBidAmount := Math_min bidAmount (Auction.maxBid auction) in
  if num_gt safeBidAmount (Auction.maxBid auction) then
    let failedBid := failedBid_exceeds now auction bidAmount in
    setAuctions
      (map (fun a => if Auction.id a =? Auction.id auction then rejected failedBid a else a))
      (setBidHistory (fun prev => (prev ++ [failedBid])%list) st)
  else
    let success := num_gt (Fin random) (Fin (3 # 10)) in
    let bidRecord := bidRecord_placed now auction safeBidAmount success in
    setAuctions
      (map (fun a => if Auction.id a =? Auction.id auction
                     then settled safeBidAmount bidRecord success a else a))
      (setBidHistory (fun prev => (prev ++ [bidRecord])%list) st).

(** The callback the timer maps over the auctions. *)
Definition snipe (now : Z) (auction : Auction.t) : Auction.t * list Effect :=
  if negb (Auction.isActive auction)
     || negb (Status.eqb (Auction.status auction) Status.monitoring)
  then (auction, [])
  else
    let timeRemaining := calculateTimeRemaining now (Auction.endTime auction) in
    let refresh :=
      if ms_le (total timeRemaining) (5 * 60 * 1000) && ms_gt (total timeRemaining) 3000 then
        let timeSinceUpdate := now - Auction.lastUpdated auction in
        if 10000 <? timeSinceUpdate then [Call_refreshAuctionData (Auction.id auction)]
        else []
      else [] in
    if ms_le (total timeRemaining) 3000 && ms_gt (total timeRemaining) 0 then
      let optimalBid := Math_min (plus_one (Auction.currentBid auction)) (Auction.maxBid auction) in
      if num_le optimalBid (Auction.maxBid auction) then
        (set_bidding auction, (refresh ++ [SetTimeout_attemptBid auction optimalBid])%list)
      else
        let failedBid := failedBid_too_low now auction in
        (too_low failedBid auction, (refresh ++ [Push_bidHistory failedBid])%list)
    else if ms_le (total timeRemaining) 0 then (expired auction, refresh)
    else (auction, refresh).

Definition pushed (effects : list Effect) : list BidRecord.t :=
  flat_map (fun e => match e with Push_bidHistory r => [r] | _ => [] end) effects.

Definition scheduled (effects : list Effect) : list (Auction.t * number) :=
  flat_map (fun e => match e with SetTimeout_attemptBid a b => [(a, b)] | _ => [] end)
           effects.

(** One firing of the one-second interval: the new state and the effects
    the callback asked for, in order. *)
Definition autoSnipeTick (now : Z) (st : State) : State * list Effect :=
  let results := map (snipe now) (auctions st) in
  let effects := flat_map snd results in
  (setBidHistory (fun prev => (prev ++ pushed effects)%list)
                 (setAuctions (fun _ => map fst results) st),
   effects).

(** *** The running dashboard *)

(** The component state and the queue of [setTimeout] callbacks. *)
Record System : Type := mkSystem
  { ui : State; timeouts : list (Auction.t * number) }.

Inductive Event : Type :=
| Interval (now : Z)
| Timeout (now : Z) (random : Q)
| ClickAdd (generateDemoAuctionData : string -> EbayAuctionData)
           (service : string -> Result EbayAuctionData) (now : Z)
| Refresh (generateDemoAuctionData : string -> EbayAuctionData)
          (monitorAuction : string -> Result EbayAuctionData) (now : Z) (auctionId : Z)
| ClickRemove (id : Z)
| TypeUrl (s : string)
| TypeMaxBid (s : string)
| SwitchAutoSnipe (b : bool)
| SwitchDemoMode (b : bool).

Definition handle (s : System) (e : Event) : System :=
  match e with
  | Interval now =>
      if autoSnipeEnabled (ui s) then
        let (st, effects) := autoSnipeTick now (ui s) in
        mkSystem st (timeouts s ++ scheduled effects)
      else s
  | Timeout now random =>
      match timeouts s with
      | (auction, bidAmount) :: rest =>
          mkSystem (attemptBid now random auction bidAmount (ui s)) rest
      | [] => s
      end
  | ClickAdd demo service now => mkSystem (addAuction demo service now (ui s)) (timeouts s)
  | Refresh demo monitor now auctionId =>
      mkSystem (refreshAuctionData demo monitor now auctionId (ui s)) (timeouts s)
  | ClickRemove id => mkSystem (removeAuction id (ui s)) (timeouts s)
  | TypeUrl t => mkSystem (setNewAuctionUrl t (ui s)) (timeouts s)
  | TypeMaxBid t => mkSystem (setNewMaxBid t (ui s)) (timeouts s)
  | SwitchAutoSnipe b => mkSystem (setAutoSnipeEnabled b (ui s)) (timeouts s)
  | SwitchDemoMode b => mkSystem (setDemoMode b (ui s)) (timeouts s)
  end.

Definition run (events : list Event) : System :=
  fold_left handle events (mkSystem initial []).

End Bidding.

(** ** Display helpers and demo data *)

(** [n.toString()] of an integer that prints without an exponent (below
    [1e21] in size). *)
Definition Z_toString (z : Z) : string := NilZero.string_of_int (Z.to_int z).

(** [s.padStart(n, c)] for a one-character pad. *)
Definition padStart (s : string) (n : nat) (c : ascii) : string :=
  text (repeat c (n - String.length s) ++ chars s)%list.

(** [x.toString()] of a whole number that may be [NaN]. *)
Definition whole_toString (x : option Z) : string :=
  match x with Some z => Z_toString z | None => "NaN" end.

(** [formatTime]. *)
Definition formatTime (time : TimeRemaining) : string :=
  padStart (whole_toString (hours time)) 2 "0" ++ ":"
  ++ padStart (whole_toString (minutes time)) 2 "0" ++ ":"
  ++ padStart (whole_toString (seconds time)) 2 "0".

(** [EbayService.getAuctionStatus], with the clock reading made explicit.
    For the invalid date [timeRemaining] is [NaN] and both tests are false. *)
Inductive ListingStatus : Type := active | ending_soon | ended.

Definition getAuctionStatus (now : Z) (endTime : Date) : ListingStatus :=
  let timeRemaining := option_map (fun t => t - now) (getTime endTime) in
  if ms_le timeRemaining 0 then ended
  else if ms_le timeRemaining (5 * 60 * 1000) then ending_soon
  else active.

(** The double quote, for the titles that hold one. *)
Definition dquote : string := String (ascii_of_nat 34) EmptyString.

Definition demoTitles : list string :=
  [ "Apple iPhone 15 Pro Max 256GB - Natural Titanium (Unlocked)";
    "Sony PlayStation 5 Console - Digital Edition";
    "MacBook Pro 16" ++ dquote ++ " M3 Pro Chip 512GB SSD - Space Black";
    "Nintendo Switch OLED Model - White";
    "Samsung Galaxy S24 Ultra 512GB - Titanium Black";
    "iPad Pro 12.9" ++ dquote ++ " M2 Chip 256GB WiFi + Cellular";
    "Dell XPS 13 Plus Laptop Intel i7 32GB RAM 1TB SSD";
    "Canon EOS R6 Mark II Mirrorless Camera Body";
    "Bose QuietComfort Ultra Wireless Headphones";
    "Apple Watch Series 9 45mm GPS + Cellular - Midnight" ].

Definition demoConditions : list string :=
  ["New"; "Used - Excellent"; "Used - Good"; "Refurbished"].

Definition demoLocations : list string :=
  ["California, US"; "New York, US"; "Texas, US"; "Florida, US"].

Definition demoShippings : list string :=
  ["Free shipping"; "$9.99 shipping"; "$15.00 expedited"; "Local pickup"].

(** [Math.floor(r * n)], the product being the exact one. *)
Definition floor_times (r : Q) (n : Z) : Z := Qfloor (r * inject_Z n).

(** [array[i]]: [None] is [undefined]. *)
Definition at_index {A : Type} (l : list A) (i : Z) : option A :=
  if i <? 0 then None else nth_error l (Z.to_nat i).

(** A slash and then the capture group of one or more digits. *)
Definition demoIdPattern : RegExp :=
  re_plain (lit "/" ++ [GroupOpen] ++ plus Digit ++ [GroupClose]).

Module Demo.

(** [generateDemoAuctionData].  [random n] is the value of the [n]-th call of
    [Math.random ()]; [idClock] is the clock read for the item id, [now] the
    clock read for the end time.  A title read past the end of the array
    prints as [undefined]. *)
Definition generateDemoAuctionData (random : nat -> Q) (idClock now : Z) (url : string)
  : EbayAuctionData :=
  let itemId :=
    match js_match url demoIdPattern with
    | Some m => let g := nth 1 m "" in if truthy g then g else Z_toString idClock
    | None => Z_toString idClock
    end in
  let randomTitle :=
    match at_index demoTitles (floor_times (random 0%nat) 10) with
    | Some t => t
    | None => "undefined"
    end in
  let currentBid := floor_times (random 1%nat) 800 + 100 in
  let hoursFromNow := floor_times (random 2%nat) 48 + 1 in
  let minutesFromNow := floor_times (random 3%nat) 60 in
  let endTime := new_Date (now + (hoursFromNow * 60 + minutesFromNow) * 60 * 1000) in
  mkData (randomTitle ++ " (Demo Mode)") (of_Z currentBid) endTime itemId
         (mkDetails None
                    (Some ("demo_seller_" ++ Z_toString (floor_times (random 4%nat) 100)))
                    (Some (floor_times (random 5%nat) 25 + 1))
                    (at_index demoConditions (floor_times (random 6%nat) 4))
                    (at_index demoLocations (floor_times (random 7%nat) 4))
                    (at_index demoShippings (floor_times (random 8%nat) 4))).

End Demo.

(** ** The thirty-second refresh timer *)

(** The test of the callback: an active, monitored auction whose data is
    more than thirty seconds old. *)
Definition stale (now : Z) (auction : Auction.t) : bool :=
  Auction.isActive auction && Status.eqb (Auction.status auction) Status.monitoring
  && (30000 <? now - Auction.lastUpdated auction).

(** One firing of the interval: the ids [refreshAuctionData] is called
    with, in order. *)
Definition autoRefreshTick (now : Z) (st : State) : list Z :=
  map Auction.id (filter (stale now) (auctions st)).

(** ** The end time

    [extractEndTime] matches patterns with up to three capture groups and a
    final choice between a newline and the end of the text.  [Rx] is the
    matcher for them: the same atoms and quantifiers as above, any number of
    capture groups one after the other, and that final choice. *)

Module Rx.

Inductive Item : Type :=
| Atom (k : CharClass) (q : Quant)
| Open
| Close
| NewlineOrEnd.        (* (?:\n|$) without the m flag *)

(** What a match attempt has consumed so far: the whole match, the groups
    already closed (the last one first) and the group being read, each
    reversed. *)
Record Cursor : Type := mkCursor
  { whole : list ascii;
    closed : list (list ascii);
    current : option (list ascii) }.

Definition start : Cursor := mkCursor [] [] None.

Definition consume (c : ascii) (st : Cursor) : Cursor :=
  mkCursor (c :: whole st) (closed st) (option_map (cons c) (current st)).

Definition open_group (st : Cursor) : Cursor :=
  mkCursor (whole st) (closed st) (Some []).

Definition close_group (st : Cursor) : Cursor :=
  mkCursor (whole st)
           ((match current st with Some g => g | None => [] end) :: closed st)
           None.

Fixpoint match_here (ic : bool) (re : list Item) (s : list ascii) (st : Cursor)
  {struct re} : option Cursor :=
  match re with
  | [] => Some st
  | Open :: re' => match_here ic re' s (open_group st)
  | Close :: re' => match_here ic re' s (close_group st)
  | NewlineOrEnd :: re' =>
      match s with
      | c :: s' =>
          if (code c =? 10)%nat then match_here ic re' s' (consume c st) else None
      | [] => match_here ic re' [] st
      end
  | Atom k Once :: re' =>
      match s with
      | c :: s' =>
          if class_matches ic k c then match_here ic re' s' (consume c st) else None
      | [] => None
      end
  | Atom k Opt :: re' =>
      match s with
      | c :: s' =>
          if class_matches ic k c then
            match match_here ic re' s' (consume c st) with
            | Some r => Some r
            | None => match_here ic re' s st
            end
          else match_here ic re' s st
      | [] => match_here ic re' [] st
      end
  | Atom k Star :: re' =>
      (fix star (s : list ascii) (st : Cursor) {struct s} : option Cursor :=
         match s with
         | c :: s' =>
             if class_matches ic k c then
               match star s' (consume c st) with
               | Some r => Some r
               | None => match_here ic re' s st
               end
             else match_here ic re' s st
         | [] => match_here ic re' [] st
         end) s st
  | Atom k LazyStar :: re' =>
      (fix lazy (s : list ascii) (st : Cursor) {struct s} : option Cursor :=
         match match_here ic re' s st with
         | Some r => Some r
         | None =>
             match s with
             | c :: s' =>
                 if class_matches ic k c then lazy s' (consume c st) else None
             | [] => None
             end
         end) s st
  end.

(** The leftmost match. *)
Fixpoint search (ic : bool) (re : list Item) (s : list ascii) : option Cursor :=
  match match_here ic re s start with
  | Some st => Some st
  | None =>
      match s with
      | _ :: s' => search ic re s'
      | [] => None
      end
  end.

(** [s.match(r)] for a pattern with the [i] flag and without the [g] flag:
    the capture groups, [match[1]] first.  [None] is [null]. *)
Definition groups (s : string) (re : list Item) : option (list string) :=
  match search true re (chars s) with
  | Some st => Some (map (fun g => text (rev g)) (rev (closed st)))
  | None => None
  end.

Definition lit (s : string) : list Item := map (fun c => Atom (Lit c) Once) (chars s).

(** The capture group of one or more digits. *)
Definition count : list Item := [Open; Atom Digit Once; Atom Digit Star; Close].

Definition spaces : list Item := [Atom Space Star].

(** A word and its optional plural [s]. *)
Definition word (s : string) : list Item := (lit s ++ [Atom (Lit "s") Opt])%list.

End Rx.

Definition timePatterns : list (list Rx.Item) :=
  [ (Rx.count ++ Rx.lit "d" ++ Rx.spaces ++ Rx.count ++ Rx.lit "h" ++ Rx.spaces
       ++ Rx.count ++ Rx.lit "m")%list;
    (Rx.count ++ Rx.spaces ++ Rx.word "day" ++ Rx.spaces ++ Rx.count ++ Rx.spaces
       ++ Rx.word "hour" ++ Rx.spaces ++ Rx.count ++ Rx.spaces ++ Rx.word "minute")%list;
    (Rx.count ++ Rx.spaces ++ Rx.word "hour" ++ Rx.spaces ++ Rx.count ++ Rx.spaces
       ++ Rx.word "minute")%list;
    (Rx.count ++ Rx.spaces ++ Rx.word "minute")%list;
    (Rx.word "end" ++ Rx.spaces ++ Rx.lit "in" ++ [Rx.Atom ColonSpace Star]
       ++ [Rx.Open; Rx.Atom Dot Once; Rx.Atom Dot LazyStar; Rx.Close; Rx.NewlineOrEnd])%list ].

(** The value of a hexadecimal digit. *)
Definition hex_value (c : ascii) : option Z :=
  let n := code c in
  if ((48 <=? n) && (n <=? 57))%nat then Some (Z.of_nat (n - 48))
  else if ((97 <=? n) && (n <=? 102))%nat then Some (Z.of_nat (n - 87))
  else if ((65 <=? n) && (n <=? 70))%nat then Some (Z.of_nat (n - 55))
  else None.

(** The value of the longest run of hexadecimal digits at the head of [s],
    when there is one. *)
Fixpoint hex_prefix (acc : option Z) (s : list ascii) : option Z :=
  match s with
  | c :: s' =>
      match hex_value c with
      | Some v => hex_prefix (Some (16 * (match acc with Some a => a | None => 0 end) + v)) s'
      | None => acc
      end
  | [] => acc
  end.

(** What [parseInt] returns: [NaN], an integer below [2^53] in size, which
    a double holds exactly, or a double of size [2^53] or more.  The last is
    the rounding of the integer read, an infinity from about 309 digits on;
    only its sign is kept. *)
Inductive Parsed : Type :=
| NotANumber
| Exactly (n : Z)
| Beyond (negative : bool).

(** The integer [parseInt(s)] reads when no radix is given: leading white
    space and a sign are skipped, [0x] switches to base sixteen, and the
    longest run of digits is read; [None] when there is no digit. *)
Definition mathInt (s : string) : option Z :=
  let s1 := drop_spaces (chars s) in
  let '(neg, s2) :=
    match s1 with
    | c :: t =>
        if ascii_eqb c "-" then (true, t)
        else if ascii_eqb c "+" then (false, t)
        else (false, s1)
    | [] => (false, s1)
    end in
  let magnitude :=
    match s2 with
    | z :: x :: t =>
        if ascii_eqb z "0" && (ascii_eqb x "x" || ascii_eqb x "X") then hex_prefix None t
        else match fst (take_digits s2) with [] => None | d => Some (digits_value d) end
    | _ => match fst (take_digits s2) with [] => None | d => Some (digits_value d) end
    end in
  match magnitude with
  | Some m => Some (if neg then - m else m)
  | None => None
  end.

(** [parseInt(s)]: the integer read, as a double. *)
Definition parseInt (s : string) : Parsed :=
  match mathInt s with
  | Some n => if Z.abs n <? 2 ^ 53 then Exactly n else Beyond (n <? 0)
  | None => NotANumber
  end.

(** [parseInt(s) || 0]: [NaN] and zero give 0.  [None] stands for a count of
    size [2^53] or more. *)
Definition parseInt_or_0 (s : string) : option Z :=
  match parseInt s with
  | NotANumber => Some 0
  | Exactly n => Some n
  | Beyond _ => None
  end.

(** [new Date(now.getTime() + minutes * 60 * 1000)] for a count of minutes
    that is a sum of products of the counts read.  The sum is the exact one.
    A double holds every integer below [2^53] exactly, so the code computes
    the same time value whenever that value is a valid one; and a count of
    [2^53] or more, or a sum that leaves the exact range, gives a time value
    beyond 8.64e15, for which [new Date] is the invalid date. *)
Definition date_after (now : Z) (minutes : option Z) : Date :=
  match minutes with
  | Some m => new_Date (now + m * 60 * 1000)
  | None => InvalidDate
  end.

(** The body of the loop of [extractEndTime] for one match: the branch is
    chosen by the last capture group that is a non-empty text; [None] when no
    branch returns. *)
Definition time_of_match (now : Z) (m : list string) : option Date :=
  if truthy (nth 2 m "") then
    let days := parseInt_or_0 (nth 0 m "") in
    let hours := parseInt_or_0 (nth 1 m "") in
    let minutes := parseInt_or_0 (nth 2 m "") in
    Some (date_after now
            match days, hours, minutes with
            | Some days, Some hours, Some minutes =>
                Some (days * 24 * 60 + hours * 60 + minutes)
            | _, _, _ => None
            end)
  else if truthy (nth 1 m "") then
    let hours := parseInt_or_0 (nth 0 m "") in
    let minutes := parseInt_or_0 (nth 1 m "") in
    Some (date_after now
            match hours, minutes with
            | Some hours, Some minutes => Some (hours * 60 + minutes)
            | _, _ => None
            end)
  else if truthy (nth 0 m "") then
    let minutes := parseInt_or_0 (nth 0 m "") in
    Some (date_after now minutes)
  else None.

Fixpoint first_time (patterns : list (list Rx.Item)) (now : Z) (markdown : string)
  : option Date :=
  match patterns with
  | [] => None
  | pattern :: rest =>
      match Rx.groups markdown pattern with
      | Some m =>
          match time_of_match now m with
          | Some t => Some t
          | None => first_time rest now markdown
          end
      | None => first_time rest now markdown
      end
  end.

(** [extractEndTime], with the clock reading made explicit; the default is
    two hours from now. *)
Definition extractEndTime (now : Z) (markdown : string) : Date :=
  match first_time timePatterns now markdown with
  | Some t => t
  | None => new_Date (now + 2 * 60 * 60 * 1000)
  end.

(** ** Bid count *)

(** The capture group of one or more digits, optional white space, and the
    word. *)
Definition bidCountPatterns : list RegExp :=
  [ re_i ([GroupOpen] ++ plus Digit ++ [GroupClose] ++ star Space ++ lit "bid"
            ++ opt (Lit "s"))%list;
    re_i ([GroupOpen] ++ plus Digit ++ [GroupClose] ++ star Space ++ lit "bidder"
            ++ opt (Lit "s"))%list ].

(** The loop of [extractBidCount] over its patterns: [parseInt] of the
    capture group of the first pattern that matches; [None] is
    [undefined]. *)
Definition bidCount_from (patterns : list RegExp) (markdown : string)
  : option Parsed :=
  match first_group patterns markdown with
  | Some g => Some (parseInt g)
  | None => None
  end.

Definition extractBidCount (markdown : string) : option Parsed :=
  bidCount_from bidCountPatterns markdown.

(** * Vocabulary of the properties *)

Local Open Scope list_scope.

(** ** The timer *)

(** An auction the timer looks at. *)
Definition eligible (a : Auction.t) : bool :=
  Auction.isActive a && Status.eqb (Auction.status a) Status.monitoring.

(** The bid the timer computes. *)
Definition optimalBid (a : Auction.t) : number :=
  Math_min (plus_one (Auction.currentBid a)) (Auction.maxBid a).

(** The test the timer applies to its bid before it queues it. *)
Definition bid_passes (a : Auction.t) : bool :=
  num_le (optimalBid a) (Auction.maxBid a).

(** The time left until the end of the auction; [None], which is [NaN],
    when the end time is the invalid date. *)
Definition remaining (now : Z) (a : Auction.t) : option Z :=
  option_map (fun t => t - now) (getTime (Auction.endTime a)).

(** The auction is eligible and its remaining time is in the last three
    seconds. *)
Definition in_window (now : Z) (a : Auction.t) : bool :=
  eligible a && ms_gt (remaining now a) 0 && ms_le (remaining now a) 3000.

(** The statuses an auction ends in. *)
Definition terminal (s : Status.t) : Prop :=
  s = Status.won \/ s = Status.lost \/ s = Status.error.

(** ** Adding an auction *)

(** The reasons for which [addAuction] gives up: a blank input, a maximum
    that is [NaN] or passes the test [maxBidAmount <= 0], an extraction that
    throws, a maximum that passes the test [maxBidAmount <= currentBid]. *)
Definition add_refused (generateDemoAuctionData : string -> EbayAuctionData)
  (service : string -> Result EbayAuctionData) (st : State) : Prop :=
  is_blank (newAuctionUrl st) = true
  \/ is_blank (newMaxBid st) = true
  \/ parseFloat (newMaxBid st) = None
  \/ (exists maxBidAmount, parseFloat (newMaxBid st) = Some maxBidAmount
                           /\ num_le maxBidAmount (of_Z 0) = true)
  \/ (exists e, extractAuctionData generateDemoAuctionData service st (newAuctionUrl st)
                = Throw e)
  \/ (exists maxBidAmount auctionData,
         parseFloat (newMaxBid st) = Some maxBidAmount
         /\ extractAuctionData generateDemoAuctionData service st (newAuctionUrl st)
            = Ok auctionData
         /\ num_le maxBidAmount (currentBid auctionData) = true).

(** ** Bid records and runs *)

(** The reason is present exactly on a failed record, and is not empty. *)
Definition reason_matches_success (r : BidRecord.t) : Prop :=
  match BidRecord.reason r with
  | None => BidRecord.success r = true
  | Some s => BidRecord.success r = false /\ s <> ""
  end.

(** A record of a simulated placement, as opposed to a refusal. *)
Definition placed (r : BidRecord.t) : Prop :=
  BidRecord.reason r = None \/ BidRecord.reason r = Some "Outbid by another user".

(** Two versions of an auction with the same id, maximum and bid history. *)
Definition same_book (x y : Auction.t) : Prop :=
  Auction.id x = Auction.id y /\ Auction.maxBid x = Auction.maxBid y
  /\ Auction.bidHistory x = Auction.bidHistory y.

(** Two versions of an auction with the same id and maximum. *)
Definition same_key (x y : Auction.t) : Prop :=
  Auction.id x = Auction.id y /\ Auction.maxBid x = Auction.maxBid y.

(** Every placed bid in the auction's own history is within its maximum. *)
Definition within_max (a : Auction.t) : Prop :=
  forall r, In r (Auction.bidHistory a) -> placed r ->
            num_le (BidRecord.amount r) (Auction.maxBid a) = true.

(** Auctions that share an id share the maximum. *)
Definition consistent (l : list Auction.t) : Prop :=
  forall x y, In x l -> In y l -> Auction.id x = Auction.id y ->
              Auction.maxBid x = Auction.maxBid y.

(** The tracked auctions and the snapshots held by queued callbacks. *)
Definition known (s : System) : list Auction.t :=
  auctions (ui s) ++ map fst (timeouts s).

(** The clock gives a new auction an id no known auction has. *)
Definition fresh_clock (s : System) (e : Event) : Prop :=
  match e with
  | ClickAdd _ _ now => ~ In now (map Auction.id (known s))
  | _ => True
  end.

(** Every record of the global and of the per-auction histories is well
    formed. *)
Definition records_ok (s : System) : Prop :=
  Forall reason_matches_success (bidHistory (ui s))
  /\ Forall (fun a => Forall reason_matches_success (Auction.bidHistory a))
            (auctions (ui s)).

(** The invariant behind the maximum: histories within the maximum, queued
    bids within the maximum of their snapshot, ids determining the maximum. *)
Definition bids_safe (s : System) : Prop :=
  Forall within_max (auctions (ui s))
  /\ Forall (fun p => num_le (snd p) (Auction.maxBid (fst p)) = true) (timeouts s)
  /\ consistent (known s).

Section Reachability.

Variable number_toString : number -> string.

(** The states of the running dashboard. *)
Inductive reachable : System -> Prop :=
| reachable_init : reachable (mkSystem initial [])
| reachable_step (s : System) (e : Event) :
    reachable s -> fresh_clock s e -> reachable (handle number_toString s e).

End Reachability.

(** ** Prices *)

(** The number a pattern reads in a text: the entry at index 1 of its match,
    without its commas, as [parseFloat] reads it.  [None] when the pattern
    does not match, the entry is missing, or the entry is not a number. *)
Definition reads (pattern : RegExp) (s : string) : option number :=
  match js_match s pattern with
  | Some m =>
      match nth_error m 1 with
      | Some g => parseFloat (remove_commas g)
      | None => None
      end
  | None => None
  end.

(** The range of a valid price: [0 < v < 1000000]. *)
Definition in_range (v : number) : bool :=
  num_gt v (of_Z 0) && num_lt v (of_Z 1000000).

(** Some pattern of the list reads the valid price [v] in [s]. *)
Definition yields (patterns : list RegExp) (s : string) (v : number) : Prop :=
  exists q, In q patterns /\ reads q s = Some v /\ in_range v = true.

(** No main pattern reads a valid price in [s]. *)
Definition no_pattern_yields (s : string) : Prop :=
  forall v, ~ yields mainPricePatterns s v.

(** [p] is the valid price of the first pattern of the list that reads
    one. *)
Definition first_yield (patterns : list RegExp) (s : string) (p : number) : Prop :=
  exists before pattern after,
    patterns = before ++ pattern :: after
    /\ (forall q v, In q before -> reads q s = Some v -> in_range v = false)
    /\ reads pattern s = Some p /\ in_range p = true.

(** The array the dollar pattern gives under the [g] flag has no entry at
    index 1: the pattern matches exactly once. *)
Definition lone_dollar_match (s : string) : Prop :=
  exists m, js_match s (re_g dollar_price) = Some m /\ nth_error m 1 = None.


(** The line names one of the markers. *)
Definition names (markers : list string) (l : string) : bool :=
  existsb (includes (toLowerCase l)) markers.

(** A similar-items section is open after the lines [pre]: the last of them
    to name a marker names a similar marker.  A line that names both kinds
    counts as naming a similar one. *)
Definition section_open (pre : list string) : bool :=
  fold_left (fun open l =>
               if names Chain.similarMarkers l then true
               else if names Chain.mainMarkers l then false
               else open)
            pre false.

(** The line [l], which follows the lines [pre], is skipped: it names a
    similar marker, or it stands in an open section and names no main
    marker. *)
Definition skipped (pre : list string) (l : string) : bool :=
  names Chain.similarMarkers l
  || (section_open pre && negb (names Chain.mainMarkers l)).

(** The valid prices the line patterns read on a line, in the order of the
    patterns. *)
Definition line_values (l : string) : list number :=
  flat_map (fun q => match reads q l with
                     | Some v => if in_range v then [v] else []
                     | None => []
                     end)
           Chain.linePricePatterns.

(** The candidates of the line scan: the valid prices of the lines that are
    not skipped, in the order of the lines. *)
Fixpoint candidates_from (pre rest : list string) : list number :=
  match rest with
  | [] => []
  | l :: rest' =>
      (if skipped pre l then [] else line_values l) ++ candidates_from (pre ++ [l]) rest'
  end.

Definition candidates (lines : list string) : list number := candidates_from [] lines.


(** None of the list is [NaN]. *)
Definition numbers (l : list number) : Prop := Forall (fun x => isNaN x = false) l.

(** Sorted in ascending order. *)
Definition ascending : list number -> Prop :=
  Sorted (fun a b => num_le a b = true).

(** ** The fallback chain *)




Section Attempts.

Variable extractEndTime : Z -> string -> Date.
Variable extractDetails : PageData -> Details.
Variable world : Chain.World.
Variable now : Z.

(** What one attempt contributes after the attempts in [log]: the data its
    strategy accepts, if any. *)
Definition outcome (itemId : string) (log : list Chain.Attempt) (a : Chain.Attempt)
  : option EbayAuctionData :=
  match a with
  | Chain.ApiLookup id => Chain.ebayApi world log id
  | Chain.Scrape url =>
      Chain.scrape_attempt extractEndTime extractDetails world now log url itemId
  | Chain.ProxyFetch proxy url =>
      match Chain.proxyFetch world log proxy url with
      | Ok (Some auctionData) =>
          if num_gt (currentBid auctionData) (of_Z 0) then Some auctionData else None
      | _ => None
      end
  end.



End Attempts.

(** ** Sample data *)

(** A demo listing at 100 that ends at time 5000, a service that is blocked,
    and a rendering of numbers. *)
Definition sample_details : Details := mkDetails None None None None None None.

Definition sample_demo (url : string) : EbayAuctionData :=
  mkData "Nintendo Switch OLED Model - White (Demo Mode)" (of_Z 100) (Time 5000) "1"
         sample_details.

Definition sample_service (url : string) : Result EbayAuctionData :=
  Throw (Error "SCRAPING_FAILED").

Definition sample_toString (n : number) : string := "?".

(** The user adds a demo auction with a maximum of 150; two seconds before
    its end the timer fires, and the queued bid is placed and wins. *)
Definition sample_events : list Event :=
  [ TypeUrl "https://www.ebay.com/itm/1"; TypeMaxBid "150"; SwitchDemoMode true;
    ClickAdd sample_demo sample_service 1000; Interval 3000; Timeout 3001 (1 # 2) ].

(** The auction the session tracks, its winning bid and the final state. *)
Definition sample_auction : Auction.t :=
  newAuction 1000 "https://www.ebay.com/itm/1" (of_Z 150)
             (sample_demo "https://www.ebay.com/itm/1").

Definition sample_record : BidRecord.t :=
  BidRecord.mk 3001 1000 (of_Z 101) 3001 true None.

Definition sample_final : System := run sample_toString sample_events.

(** The API answers with a record whose price text is not a number; the
    service hands the record on as it is. *)
Definition nan_world : Chain.World :=
  Chain.mkWorld
    (fun _ itemId => Some (mkData "eBay Auction Item" NaN (Time 5000) itemId sample_details))
    (fun _ _ => TimedOut) (fun _ _ _ => Ok None).

Definition nan_service (url : string) : Result EbayAuctionData :=
  fst (Chain.extractAuctionData (fun now _ => new_Date (now + 2 * 60 * 60 * 1000))
         (fun _ => sample_details) nan_world 0 url).

(** The user adds that listing with a maximum of 150; two seconds before its
    end the timer fires. *)
Definition nan_events : list Event :=
  [ TypeUrl "https://www.ebay.com/itm/1"; TypeMaxBid "150";
    ClickAdd sample_demo nan_service 1000; Interval 3000 ].

Definition nan_auction : Auction.t :=
  newAuction 1000 "https://www.ebay.com/itm/1" (of_Z 150)
             (mkData "eBay Auction Item" NaN (Time 5000) "1" sample_details).


Definition jsonLd_forty_five : option Extract :=
  Some (mkExtract None (Some [mkJsonLd "Product" (Some "45")]) None).

(** Four lines, each a price. *)
Definition four_prices : string :=
  "$0" ++ String newline ("$7" ++ String newline ("$9" ++ String newline "$8")).

(** A line that names a similar marker, and a price on the next line. *)
Definition similar_then_price : string :=
  "Similar items" ++ String newline "$25".

(** Stand-ins for the extractors of the other fields. *)
Definition two_hours (now : Z) (markdown : string) : Date :=
  new_Date (now + 2 * 60 * 60 * 1000).

Definition no_details (page : PageData) : Details := sample_details.

(** A page that reads as a five-dollar listing of a demo title. *)
Definition demo_page : PageData :=
  mkPage "Price: $5" (Some "Vintage Camera (Demo Mode)") None.


(** The API returns a record with no price field: [parseFloat ('0')]. *)
Definition priceless_world : Chain.World :=
  Chain.mkWorld
    (fun _ itemId => Some (mkData "eBay Auction Item" (of_Z 0) (Time 0) itemId sample_details))
    (fun _ _ => TimedOut) (fun _ _ _ => Ok None).

(** A valid listing URL. *)
Definition listing_url : string := "https://www.ebay.com/itm/123456789012".

(** * Further vocabulary *)

(** ** The life of a tracked auction *)

(** What a refresh leaves alone. *)
Definition same_standing (x y : Auction.t) : Prop :=
  Auction.id x = Auction.id y /\ Auction.url x = Auction.url y
  /\ Auction.maxBid x = Auction.maxBid y /\ Auction.isActive x = Auction.isActive y
  /\ Auction.status x = Auction.status y
  /\ Auction.lastBidAmount x = Auction.lastBidAmount y
  /\ Auction.bidHistory x = Auction.bidHistory y /\ Auction.itemId x = Auction.itemId y.

(** How the status, the activity flag, the last bid and the history of one
    auction go together. *)
Definition lifecycle (a : Auction.t) : Prop :=
  match Auction.status a with
  | Status.monitoring | Status.bidding =>
      Auction.isActive a = true /\ Auction.bidHistory a = []
      /\ Auction.lastBidAmount a = None
  | Status.won =>
      Auction.isActive a = false
      /\ exists r, Auction.bidHistory a = [r] /\ BidRecord.success r = true
                   /\ Auction.lastBidAmount a = Some (BidRecord.amount r)
                   /\ BidRecord.auctionId r = Auction.id a
  | Status.lost =>
      Auction.isActive a = false
      /\ ((Auction.bidHistory a = [] /\ Auction.lastBidAmount a = None)
          \/ exists r, Auction.bidHistory a = [r] /\ BidRecord.success r = false
                       /\ Auction.lastBidAmount a = Some (BidRecord.amount r)
                       /\ BidRecord.auctionId r = Auction.id a)
  | Status.error =>
      Auction.isActive a = false
      /\ exists r, Auction.bidHistory a = [r] /\ BidRecord.success r = false
                   /\ BidRecord.amount r = of_Z 0 /\ ~ placed r
                   /\ Auction.lastBidAmount a = None
                   /\ BidRecord.auctionId r = Auction.id a
  end.

(** The activity flag goes with the status. *)
Definition active_by_status (a : Auction.t) : Prop :=
  Auction.isActive a
  = match Auction.status a with
    | Status.monitoring | Status.bidding => true
    | Status.won | Status.lost | Status.error => false
    end.

(** The clock readings at which the events add an auction; the reading is
    the id the auction gets. *)
Definition add_clocks (events : list Event) : list Z :=
  flat_map (fun e => match e with ClickAdd _ _ now => [now] | _ => [] end) events.

(** The ids of the auctions whose bid is queued. *)
Definition timeout_ids (s : System) : list Z :=
  map (fun p => Auction.id (fst p)) (timeouts s).

(** The invariant of the running dashboard: ids are unique, among the
    auctions and among the queued bids; every auction is in a consistent
    stage of its life; an auction is [bidding] exactly while its bid is
    queued. *)
Definition orderly (s : System) : Prop :=
  NoDup (map Auction.id (auctions (ui s)))
  /\ NoDup (timeout_ids s)
  /\ Forall lifecycle (auctions (ui s))
  /\ (forall a, In a (auctions (ui s)) ->
                (Auction.status a = Status.bidding <-> In (Auction.id a) (timeout_ids s))).

(** The sample session up to the firing of the timer. *)
Definition sample_queued : System := run sample_toString (firstn 5 sample_events).

(** ** The bid history *)

(** The firings of a queued bid among the events. *)
Definition is_timeout (e : Event) : bool :=
  match e with Timeout _ _ => true | _ => false end.

Definition fired (events : list Event) : nat := List.length (filter is_timeout events).

(** [placed], as a test. *)
Definition placedb (r : BidRecord.t) : bool :=
  match BidRecord.reason r with
  | None => true
  | Some s => String.eqb s "Outbid by another user"
  end.

(** The record the timer files for an auction in its window whose bid fails
    the test against the maximum. *)
Definition timer_refusal (number_toString : number -> string) (r : BidRecord.t) : Prop :=
  exists now a, r = failedBid_too_low number_toString now a
                /\ in_window now a = true /\ bid_passes a = false.

(** The global history holds placements and refusals of the timer; every
    record of an auction's own history is in the global history, under the
    auction's id. *)
Definition filed (number_toString : number -> string) (s : System) : Prop :=
  Forall (fun r => placed r \/ timer_refusal number_toString r) (bidHistory (ui s))
  /\ forall a r, In a (auctions (ui s)) -> In r (Auction.bidHistory a) ->
                 In r (bidHistory (ui s)) /\ BidRecord.auctionId r = Auction.id a.

(** An auction whose price has passed its maximum, one second before its end. *)
Definition sample_outpriced : Auction.t :=
  Auction.mk 7 "https://www.ebay.com/itm/7" "Camera" (of_Z 200) (of_Z 150) (Time 5000) true
             Status.monitoring None [] "7" sample_details 0.

(** ** What a capture group can hold *)

(** Every 8-bit character. *)
Definition all_ascii : list ascii := map ascii_of_nat (seq 0 256).

(** Every character of the class [k] passes the test [P]. *)
Definition class_within (ic : bool) (P : ascii -> bool) (k : CharClass) : bool :=
  forallb (fun c => implb (class_matches ic k c) (P c)) all_ascii.

(** Every atom between the parentheses of the pattern is of a class within
    [P]; [inside] tells whether the pattern starts between them. *)
Fixpoint group_within (ic : bool) (P : ascii -> bool) (inside : bool) (re : list Item)
  : bool :=
  match re with
  | [] => true
  | Atom k _ :: re' =>
      (if inside then class_within ic P k else true) && group_within ic P inside re'
  | GroupOpen :: re' => group_within ic P true re'
  | GroupClose :: re' => group_within ic P false re'
  | _ :: re' => group_within ic P inside re'
  end.

(** The pattern cannot match with an empty capture group: between its
    parentheses there is an atom that must match once.  [filled] tells
    whether the group already holds a character. *)
Fixpoint group_filled (filled inside : bool) (re : list Item) : bool :=
  match re with
  | [] => filled
  | Atom _ Once :: re' => group_filled (filled || inside) inside re'
  | GroupOpen :: re' => group_filled false true re'
  | GroupClose :: re' => group_filled filled false re'
  | _ :: re' => group_filled filled inside re'
  end.

(** The characters an item id is made of: anything but a slash and a
    question mark. *)
Definition id_char (c : ascii) : bool := negb (ascii_eqb c "/" || ascii_eqb c "?").

Definition no_question (c : ascii) : bool := negb (ascii_eqb c "?").

(** A pattern for [first_group]: no [g] flag, one capture group that cannot
    be empty and holds only characters that pass [P]. *)
Definition pattern_ok (P : ascii -> bool) (r : RegExp) : bool :=
  negb (global r) && has_group (source r)
  && group_within (ignoreCase r) P false (source r)
  && group_filled false false (source r).

(** Any character but [w]. *)
Definition not_w (c : ascii) : bool := negb (ascii_eqb c "w").

(** ** Display and demo data *)

(** The integer a decimal numeral stands for. *)
Definition decimal (s : string) : option Z :=
  option_map Z.of_int (NilZero.int_of_string s).

(** Every draw of [Math.random ()] lies in the unit interval, 1 excluded. *)
Definition unit_draws (random : nat -> Q) : Prop :=
  forall n, (0 <= random n)%Q /\ (random n < 1)%Q.

(** A source of draws that always gives one half. *)
Definition sample_random (n : nat) : Q := 1 # 2.

(** ** The end time *)

(** Every atom between parentheses of the pattern is of a class within [P],
    and the final choice stands outside them. *)
Fixpoint rx_within (P : ascii -> bool) (inside : bool) (re : list Rx.Item) : bool :=
  match re with
  | [] => true
  | Rx.Atom k _ :: re' =>
      (if inside then class_within true P k else true) && rx_within P inside re'
  | Rx.Open :: re' => rx_within P true re'
  | Rx.Close :: re' => rx_within P false re'
  | Rx.NewlineOrEnd :: re' => negb inside && rx_within P inside re'
  end.

(** The four patterns that count days, hours and minutes, and the fifth,
    which takes the rest of the line after the words [ends in]. *)
Definition countPatterns : list (list Rx.Item) := firstn 4 timePatterns.

Definition endsInPattern : list Rx.Item := nth 4 timePatterns [].

(** A character a count can start with: not white space, not a sign. *)
Definition plain (c : ascii) : bool :=
  negb (is_space c) && negb (ascii_eqb c "-") && negb (ascii_eqb c "+").

(** The cursor after a run of characters has been consumed. *)
Definition eat (run : list ascii) (st : Rx.Cursor) : Rx.Cursor :=
  fold_left (fun st c => Rx.consume c st) run st.

(** * Properties *)

(** ** Numbers *)

Lemma num_le_refl (a : number) : isNaN a = false -> num_le a a = true.
Proof. destruct a; simpl; auto. intros _. apply Qle_bool_iff, Qle_refl. Qed.

Lemma num_le_numbers (a b : number) :
  num_le a b = true -> isNaN a = false /\ isNaN b = false.
Proof. destruct a, b; simpl; auto; discriminate. Qed.

Lemma num_le_total (a b : number) :
  isNaN a = false -> isNaN b = false -> num_le a b = true \/ num_le b a = true.
Proof.
  destruct a as [| |x|], b as [| |y|]; simpl; auto; try discriminate.
  intros _ _. destruct (Qlt_le_dec y x) as [H|H].
  - right. apply Qle_bool_iff, Qlt_le_weak, H.
  - left. apply Qle_bool_iff, H.
Qed.

Lemma num_le_trans (a b c : number) :
  num_le a b = true -> num_le b c = true -> num_le a c = true.
Proof.
  destruct a as [| |x|], b as [| |y|], c as [| |z|]; simpl; auto; try discriminate.
  rewrite !Qle_bool_iff. apply Qle_trans.
Qed.

(** [a < b] is [a <= b] without [b <= a]. *)
Lemma num_lt_spec (a b : number) : num_lt a b = num_le a b && negb (num_le b a).
Proof.
  destruct a as [| |x|], b as [| |y|]; simpl; auto.
  destruct (Qle_bool y x) eqn:E; [now rewrite andb_false_r|].
  rewrite andb_true_r. symmetry. apply Qle_bool_iff.
  destruct (Qlt_le_dec y x) as [H|H]; [|exact H].
  apply Qlt_le_weak, Qle_bool_iff in H. congruence.
Qed.

Lemma num_lt_le (a b : number) : num_lt a b = true -> num_le a b = true.
Proof. rewrite num_lt_spec. intro H. now apply andb_true_iff in H. Qed.

(** Between two numbers, [a > b] is the negation of [a <= b]. *)
Lemma num_gt_not_le (a b : number) :
  isNaN a = false -> isNaN b = false -> num_gt a b = negb (num_le a b).
Proof.
  intros Ha Hb. unfold num_gt. rewrite num_lt_spec.
  destruct (num_le a b) eqn:E; [apply andb_false_r|].
  destruct (num_le_total a b Ha Hb) as [H|H]; [congruence|]. now rewrite H.
Qed.

Lemma num_gt_numbers (a b : number) :
  num_gt a b = true -> isNaN a = false /\ isNaN b = false.
Proof. intro H. apply num_lt_le, num_le_numbers in H. tauto. Qed.

Lemma num_gt_not_le_true (a b : number) : num_gt a b = true -> num_le a b = false.
Proof.
  intro H. destruct (num_gt_numbers a b H) as [Ha Hb].
  rewrite (num_gt_not_le a b Ha Hb) in H. now apply negb_true_iff in H.
Qed.

Lemma Math_min_numbers (a b : number) :
  isNaN (Math_min a b) = isNaN a || isNaN b.
Proof.
  destruct a as [| |x|], b as [| |y|]; simpl; auto; destruct (Qle_bool x y); auto.
Qed.

Lemma Math_min_cases (a b : number) :
  isNaN a = false -> isNaN b = false ->
  Math_min a b = if num_le a b then a else b.
Proof. destruct a, b; simpl; auto; discriminate. Qed.

Lemma Math_min_le_r (a b : number) :
  isNaN a = false -> isNaN b = false -> num_le (Math_min a b) b = true.
Proof.
  intros Ha Hb. rewrite (Math_min_cases a b Ha Hb).
  destruct (num_le a b) eqn:E; [exact E | now apply num_le_refl].
Qed.

Lemma Math_min_le_l (a b : number) :
  isNaN a = false -> isNaN b = false -> num_le (Math_min a b) a = true.
Proof.
  intros Ha Hb. rewrite (Math_min_cases a b Ha Hb).
  destruct (num_le a b) eqn:E; [now apply num_le_refl|].
  destruct (num_le_total a b Ha Hb); congruence.
Qed.

(** The minimum is within its second argument exactly when both arguments
    are numbers. *)
Lemma Math_min_le_r_iff (a b : number) :
  num_le (Math_min a b) b = negb (isNaN a || isNaN b).
Proof.
  destruct (isNaN a) eqn:Ha; [destruct a; try discriminate; reflexivity|].
  destruct (isNaN b) eqn:Hb; [destruct a, b; try discriminate; reflexivity|].
  now apply Math_min_le_r.
Qed.

(** [Math.min(a, b) > b] is false, [NaN] included. *)
Lemma Math_min_not_gt (a b : number) : num_gt (Math_min a b) b = false.
Proof.
  destruct (num_gt (Math_min a b) b) eqn:E; [|reflexivity].
  pose proof (num_gt_not_le_true _ _ E) as L.
  destruct (num_gt_numbers _ _ E) as [Hm Hb].
  rewrite Math_min_numbers in Hm. apply orb_false_iff in Hm as [Ha _].
  rewrite Math_min_le_r in L by assumption. discriminate.
Qed.

Lemma plus_one_numbers (a : number) : isNaN (plus_one a) = isNaN a.
Proof. now destruct a. Qed.

(** ** Time remaining *)

Example calculateTimeRemaining_sample :
  calculateTimeRemaining 1000 (Time (1000 + 3725999))
  = mkTime (Some 1) (Some 2) (Some 5) (Some 3725999).
Proof. reflexivity. Qed.

Lemma calculateTimeRemaining_invalid (now : Z) :
  calculateTimeRemaining now InvalidDate = mkTime None None None None.
Proof. reflexivity. Qed.

Lemma calculateTimeRemaining_past (now endTime : Z) :
  endTime <= now ->
  calculateTimeRemaining now (Time endTime) = mkTime (Some 0) (Some 0) (Some 0) (Some 0).
Proof.
  intro H. unfold calculateTimeRemaining. cbn [getTime option_map ms_le].
  now replace (endTime - now <=? 0) with true by (symmetry; apply Z.leb_le; lia).
Qed.

Lemma calculateTimeRemaining_future (now endTime : Z) :
  now < endTime ->
  calculateTimeRemaining now (Time endTime)
  = mkTime (Some ((endTime - now) / (1000 * 60 * 60)))
           (Some (Z.rem (endTime - now) (1000 * 60 * 60) / (1000 * 60)))
           (Some (Z.rem (endTime - now) (1000 * 60) / 1000))
           (Some (endTime - now)).
Proof.
  intro H. unfold calculateTimeRemaining. cbn [getTime option_map ms_le].
  now replace (endTime - now <=? 0) with false by (symmetry; apply Z.leb_gt; lia).
Qed.

(** The total of a valid date is the difference, or 0 when the end has
    passed. *)
Lemma total_valid (now endTime : Z) :
  total (calculateTimeRemaining now (Time endTime)) = Some (Z.max 0 (endTime - now)).
Proof.
  destruct (Z.le_gt_cases endTime now) as [L|G].
  - rewrite calculateTimeRemaining_past by exact L. cbn [total]. f_equal. lia.
  - rewrite calculateTimeRemaining_future by lia. cbn [total]. f_equal. lia.
Qed.

(** The tests the timer applies to [total] are tests on the time that
    remains. *)
Lemma total_le (now : Z) (endTime : Date) (n : Z) :
  0 <= n ->
  ms_le (total (calculateTimeRemaining now endTime)) n
  = ms_le (option_map (fun t => t - now) (getTime endTime)) n.
Proof.
  intro Hn. destruct endTime as [t|]; [|reflexivity].
  rewrite total_valid. cbn [getTime option_map ms_le].
  destruct (Z.leb_spec (t - now) n); [apply Z.leb_le | apply Z.leb_gt]; lia.
Qed.

Lemma total_gt (now : Z) (endTime : Date) (n : Z) :
  0 <= n ->
  ms_gt (total (calculateTimeRemaining now endTime)) n
  = ms_gt (option_map (fun t => t - now) (getTime endTime)) n.
Proof.
  intro Hn. destruct endTime as [t|]; [|reflexivity].
  rewrite total_valid. cbn [getTime option_map ms_gt].
  destruct (Z.ltb_spec n (t - now)); [apply Z.ltb_lt | apply Z.ltb_ge]; lia.
Qed.

(** C10, as amended.  For an end time that is a valid date
    [calculateTimeRemaining] returns four numbers, none negative.  When the
    end is not strictly in the future all four are 0.  When it is, [total]
    is the positive difference [endTime - now], [minutes] and [seconds] lie in
    0..59, and [hours * 3600 + minutes * 60 + seconds] is
    [floor (total / 1000)].  For the invalid date every field is [NaN]. *)
Theorem calculateTimeRemaining_correct (now endTime : Z) :
  let t := calculateTimeRemaining now (Time endTime) in
  (exists h m s d,
      t = mkTime (Some h) (Some m) (Some s) (Some d)
      /\ 0 <= h /\ 0 <= m /\ 0 <= s /\ 0 <= d)
  /\ (endTime <= now -> t = mkTime (Some 0) (Some 0) (Some 0) (Some 0))
  /\ (now < endTime ->
      exists h m s,
        t = mkTime (Some h) (Some m) (Some s) (Some (endTime - now))
        /\ 0 < endTime - now
        /\ 0 <= m <= 59 /\ 0 <= s <= 59
        /\ h * 3600 + m * 60 + s = (endTime - now) / 1000)
  /\ calculateTimeRemaining now InvalidDate = mkTime None None None None.
Proof.
  cbv zeta.
  assert (Hfuture : now < endTime ->
            exists h m s,
              calculateTimeRemaining now (Time endTime)
              = mkTime (Some h) (Some m) (Some s) (Some (endTime - now))
              /\ 0 <= h /\ 0 < endTime - now
              /\ 0 <= m <= 59 /\ 0 <= s <= 59
              /\ h * 3600 + m * 60 + s = (endTime - now) / 1000).
  { intro G. rewrite calculateTimeRemaining_future by exact G.
    set (d := endTime - now) in *.
    do 3 eexists. split; [reflexivity|].
    rewrite !Z.rem_mod_nonneg by lia.
    change (1000 * 60 * 60) with 3600000. change (1000 * 60) with 60000.
    assert (Hh : 0 <= d / 3600000) by (apply Z.div_pos; lia).
    assert (Hm : 0 <= d mod 3600000 < 3600000) by (apply Z.mod_pos_bound; lia).
    assert (Hs : 0 <= d mod 60000 < 60000) by (apply Z.mod_pos_bound; lia).
    repeat split; try lia;
      try (apply Z.div_pos; lia);
      try (apply Z.div_le_upper_bound; lia);
      try (apply Z.lt_succ_r, Z.div_lt_upper_bound; lia).
    Z.div_mod_to_equations. lia. }
  split; [|split; [|split]].
  - destruct (Z.le_gt_cases endTime now) as [L|G].
    + rewrite calculateTimeRemaining_past by exact L.
      exists 0, 0, 0, 0. repeat split; lia.
    + destruct (Hfuture G) as (h & m & s & E & Hh & Hd & Hm & Hs & _).
      exists h, m, s, (endTime - now). repeat split; auto; lia.
  - apply calculateTimeRemaining_past.
  - intro G. destruct (Hfuture G) as (h & m & s & E & Hh & Hd & Hm & Hs & Hsum).
    exists h, m, s. auto.
  - reflexivity.
Qed.

(** At concrete clock readings: one hour, eighteen minutes and forty-five
    seconds before the end, and at the end itself. *)
Lemma calculateTimeRemaining_correct_witness :
  calculateTimeRemaining 1000 (Time 4726999)
  = mkTime (Some 1) (Some 18) (Some 45) (Some 4725999)
  /\ calculateTimeRemaining 5000 (Time 5000) = mkTime (Some 0) (Some 0) (Some 0) (Some 0).
Proof.
  destruct (calculateTimeRemaining_correct 1000 4726999) as (_ & _ & Hfuture & _).
  destruct (calculateTimeRemaining_correct 5000 5000) as (_ & Hpast & _).
  destruct Hfuture as (h & m & s & Ht & _); [lia|].
  split; [reflexivity|]. apply Hpast. lia.
Defined.

(** The end time read from a page that counts two hundred million days is
    the invalid date.  Every field of the time remaining is then [NaN]: the
    result is not the zero record, and its total is not a positive number
    either. *)
Lemma calculateTimeRemaining_correct_counterexample :
  let endTime := extractEndTime 1000 "200000000d 0h 0m" in
  let t := calculateTimeRemaining 1000 endTime in
  endTime = InvalidDate
  /\ t = mkTime None None None None
  /\ t <> mkTime (Some 0) (Some 0) (Some 0) (Some 0)
  /\ ms_gt (total t) 0 = false
  /\ ~ (exists d, total t = Some d).
Proof.
  cbv zeta.
  assert (E : extractEndTime 1000 "200000000d 0h 0m" = InvalidDate)
    by (vm_compute; reflexivity).
  rewrite E. cbn. repeat split; try discriminate.
  intros (d & H). discriminate.
Qed.

(** ** The auto-snipe step *)

Section SnipeStep.

Variable number_toString : number -> string.

Lemma Status_eqb_eq (x y : Status.t) : Status.eqb x y = true <-> x = y.
Proof. destruct x, y; simpl; split; intro H; try reflexivity; discriminate. Qed.

Lemma eligible_iff (a : Auction.t) :
  eligible a = true <-> Auction.isActive a = true /\ Auction.status a = Status.monitoring.
Proof. unfold eligible. now rewrite andb_true_iff, Status_eqb_eq. Qed.

Lemma snipe_not_eligible (now : Z) (a : Auction.t) :
  eligible a = false -> snipe number_toString now a = (a, []).
Proof.
  unfold eligible, snipe. intro H.
  destruct (Auction.isActive a); simpl in *; [now rewrite H | reflexivity].
Qed.

(** The bid passes the test exactly when the current bid and the maximum
    are numbers. *)
Lemma bid_passes_iff (a : Auction.t) :
  bid_passes a = negb (isNaN (Auction.currentBid a) || isNaN (Auction.maxBid a)).
Proof.
  unfold bid_passes, optimalBid. now rewrite Math_min_le_r_iff, plus_one_numbers.
Qed.

(** The callback on an eligible auction, by the time that remains. *)
Lemma snipe_by_remaining (now : Z) (a : Auction.t) :
  eligible a = true ->
  snipe number_toString now a
  = match remaining now a with
    | None => (a, [])
    | Some ms =>
        if ms <=? 0 then (expired a, [])
        else if ms <=? 3000 then
          if bid_passes a
          then (set_bidding a, [SetTimeout_attemptBid a (optimalBid a)])
          else (too_low (failedBid_too_low number_toString now a) a,
                [Push_bidHistory (failedBid_too_low number_toString now a)])
        else (a, if (ms <=? 5 * 60 * 1000) && (10000 <? now - Auction.lastUpdated a)
                 then [Call_refreshAuctionData (Auction.id a)] else [])
    end.
Proof.
  intro He. apply eligible_iff in He as [Ha Hs].
  unfold snipe. rewrite Ha, Hs. cbn [negb orb Status.eqb]. cbv zeta.
  rewrite !total_le, !total_gt by lia.
  change (option_map (fun t => t - now) (getTime (Auction.endTime a)))
    with (remaining now a).
  destruct (remaining now a) as [ms|]; cbn [ms_le ms_gt]; [|reflexivity].
  destruct (Z.leb_spec ms 0) as [L0|G0].
  - replace (0 <? ms) with false by (symmetry; apply Z.ltb_ge; lia).
    replace (3000 <? ms) with false by (symmetry; apply Z.ltb_ge; lia).
    rewrite !andb_false_r. reflexivity.
  - replace (0 <? ms) with true by (symmetry; apply Z.ltb_lt; lia).
    destruct (Z.leb_spec ms 3000) as [L3|G3].
    + replace (3000 <? ms) with false by (symmetry; apply Z.ltb_ge; lia).
      rewrite andb_false_r. cbn [andb app]. unfold bid_passes, optimalBid.
      destruct (num_le _ _); reflexivity.
    + replace (3000 <? ms) with true by (symmetry; apply Z.ltb_lt; lia).
      cbn [andb]. rewrite andb_true_r.
      destruct (ms <=? 5 * 60 * 1000); [|reflexivity].
      destruct (10000 <? now - Auction.lastUpdated a); reflexivity.
Qed.

Lemma in_window_iff (now : Z) (a : Auction.t) :
  in_window now a = true <->
  Auction.isActive a = true /\ Auction.status a = Status.monitoring
  /\ exists ms, remaining now a = Some ms /\ 0 < ms <= 3000.
Proof.
  unfold in_window. rewrite !andb_true_iff, eligible_iff.
  destruct (remaining now a) as [ms|]; cbn [ms_gt ms_le].
  - rewrite Z.ltb_lt, Z.leb_le. split.
    + intros [[[Ha Hs] H0] H3]. repeat split; auto. exists ms. auto.
    + intros (Ha & Hs & l & [= <-] & H). tauto.
  - split; [intros [[_ H] _]; discriminate | intros (_ & _ & l & H & _); discriminate].
Qed.

Lemma in_window_eligible (now : Z) (a : Auction.t) :
  in_window now a = true -> eligible a = true.
Proof. unfold in_window. intro H. now apply andb_true_iff in H as [H%andb_true_iff _]. Qed.

(** In the window the callback queues the bid or files a refusal. *)
Lemma snipe_in_window (now : Z) (a : Auction.t) :
  in_window now a = true ->
  snipe number_toString now a
  = if bid_passes a
    then (set_bidding a, [SetTimeout_attemptBid a (optimalBid a)])
    else (too_low (failedBid_too_low number_toString now a) a,
          [Push_bidHistory (failedBid_too_low number_toString now a)]).
Proof.
  intro Hw. rewrite snipe_by_remaining by (eapply in_window_eligible; eauto).
  apply in_window_iff in Hw as (_ & _ & ms & -> & H).
  replace (ms <=? 0) with false by (symmetry; apply Z.leb_gt; lia).
  now replace (ms <=? 3000) with true by (symmetry; apply Z.leb_le; lia).
Qed.

(** Outside the window the callback queues no bid and files nothing. *)
Lemma snipe_outside (now : Z) (a : Auction.t) :
  in_window now a = false ->
  scheduled (snd (snipe number_toString now a)) = []
  /\ pushed (snd (snipe number_toString now a)) = [].
Proof.
  intro Hw. destruct (eligible a) eqn:He;
    [|rewrite snipe_not_eligible by exact He; split; reflexivity].
  rewrite snipe_by_remaining by exact He.
  unfold in_window in Hw. rewrite He in Hw. cbn [andb] in Hw.
  destruct (remaining now a) as [ms|]; [|split; reflexivity].
  cbn [ms_gt ms_le] in Hw.
  destruct (Z.leb_spec ms 0) as [L0|G0]; [split; reflexivity|].
  replace (0 <? ms) with true in Hw by (symmetry; apply Z.ltb_lt; lia).
  cbn [andb] in Hw. rewrite Hw. cbn [snd].
  destruct ((ms <=? 5 * 60 * 1000) && (10000 <? now - Auction.lastUpdated a));
    split; reflexivity.
Qed.

(** What the callback schedules and pushes, in every case. *)
Lemma snipe_scheduled (now : Z) (a : Auction.t) :
  scheduled (snd (snipe number_toString now a))
  = (if in_window now a && bid_passes a then [(a, optimalBid a)] else [])
  /\ pushed (snd (snipe number_toString now a))
     = (if in_window now a && negb (bid_passes a)
        then [failedBid_too_low number_toString now a] else []).
Proof.
  destruct (in_window now a) eqn:Hw; cbn [andb].
  - rewrite (snipe_in_window now a Hw). destruct (bid_passes a); split; reflexivity.
  - now apply snipe_outside.
Qed.

(** The four things the callback can do with an auction. *)
Lemma snipe_outcomes (now : Z) (a : Auction.t) :
  let refusal := failedBid_too_low number_toString now a in
  (in_window now a = true /\ bid_passes a = true
   /\ snipe number_toString now a
      = (set_bidding a, [SetTimeout_attemptBid a (optimalBid a)]))
  \/ (in_window now a = true /\ bid_passes a = false
      /\ snipe number_toString now a = (too_low refusal a, [Push_bidHistory refusal]))
  \/ (in_window now a = false /\ eligible a = true
      /\ snipe number_toString now a = (expired a, []))
  \/ (in_window now a = false /\ fst (snipe number_toString now a) = a
      /\ scheduled (snd (snipe number_toString now a)) = []
      /\ pushed (snd (snipe number_toString now a)) = []).
Proof.
  cbv zeta. destruct (in_window now a) eqn:Hw.
  - rewrite (snipe_in_window now a Hw).
    destruct (bid_passes a); [left | right; left]; auto.
  - do 2 right. destruct (snipe_outside now a Hw) as [Hs Hp].
    destruct (eligible a) eqn:He;
      [|right; rewrite snipe_not_eligible in * by exact He; auto].
    rewrite (snipe_by_remaining now a He) in *.
    destruct (remaining now a) as [ms|] eqn:Hr; [|right; auto].
    destruct (ms <=? 0) eqn:L0; [left; auto|]. right.
    destruct (ms <=? 3000) eqn:L3; [|auto].
    exfalso. unfold in_window in Hw. rewrite He, Hr in Hw. cbn [andb ms_gt ms_le] in Hw.
    rewrite L3 in Hw. apply Z.leb_gt in L0.
    replace (0 <? ms) with true in Hw by (symmetry; apply Z.ltb_lt; lia).
    discriminate.
Qed.

Lemma snipe_same_key (now : Z) (a : Auction.t) :
  same_key (fst (snipe number_toString now a)) a.
Proof.
  destruct (snipe_outcomes now a)
    as [(_ & _ & ->)|[(_ & _ & ->)|[(_ & _ & ->)|(_ & -> & _)]]]; split; reflexivity.
Qed.

(** The callback leaves the auction's own history as it is, or appends the
    refusal it files. *)
Lemma snipe_history (now : Z) (a : Auction.t) :
  Auction.bidHistory (fst (snipe number_toString now a))
  = Auction.bidHistory a ++ pushed (snd (snipe number_toString now a)).
Proof.
  destruct (snipe_outcomes now a)
    as [(_ & _ & ->)|[(_ & _ & ->)|[(_ & _ & ->)|(_ & -> & _ & ->)]]];
    cbn; now rewrite ?app_nil_r.
Qed.

Lemma snipe_pushed (now : Z) (a : Auction.t) (r : BidRecord.t) :
  In r (pushed (snd (snipe number_toString now a))) ->
  r = failedBid_too_low number_toString now a.
Proof.
  rewrite (proj2 (snipe_scheduled now a)).
  destruct (in_window now a && negb (bid_passes a)); [|intros []].
  now intros [<-|[]].
Qed.

Lemma in_scheduled (x : Auction.t) (bid : number) (effects : list Effect) :
  In (SetTimeout_attemptBid x bid) effects <-> In (x, bid) (scheduled effects).
Proof.
  unfold scheduled. rewrite in_flat_map. split.
  - intro H. exists (SetTimeout_attemptBid x bid). split; [exact H | now left].
  - intros (e & He & Hin). destruct e; cbn in Hin; try contradiction.
    destruct Hin as [[= -> ->]|[]]. exact He.
Qed.

Lemma in_pushed (r : BidRecord.t) (effects : list Effect) :
  In (Push_bidHistory r) effects <-> In r (pushed effects).
Proof.
  unfold pushed. rewrite in_flat_map. split.
  - intro H. exists (Push_bidHistory r). split; [exact H | now left].
  - intros (e & He & Hin). destruct e; cbn in Hin; try contradiction.
    destruct Hin as [->|[]]. exact He.
Qed.

Lemma tick_auctions (now : Z) (st : State) :
  auctions (fst (autoSnipeTick number_toString now st))
  = map (fun a => fst (snipe number_toString now a)) (auctions st).
Proof. unfold autoSnipeTick. cbn. now rewrite map_map. Qed.

Lemma tick_effects (now : Z) (st : State) :
  snd (autoSnipeTick number_toString now st)
  = flat_map (fun a => snd (snipe number_toString now a)) (auctions st).
Proof.
  unfold autoSnipeTick. cbn. induction (auctions st) as [|a l IH]; cbn; [reflexivity|].
  now rewrite IH.
Qed.

Lemma scheduled_app (e1 e2 : list Effect) :
  scheduled (e1 ++ e2) = scheduled e1 ++ scheduled e2.
Proof. unfold scheduled. apply flat_map_app. Qed.

Lemma pushed_app (e1 e2 : list Effect) : pushed (e1 ++ e2) = pushed e1 ++ pushed e2.
Proof. unfold pushed. apply flat_map_app. Qed.

Lemma tick_scheduled (now : Z) (st : State) :
  scheduled (snd (autoSnipeTick number_toString now st))
  = map (fun a => (a, optimalBid a))
        (filter (fun a => in_window now a && bid_passes a) (auctions st)).
Proof.
  rewrite tick_effects. induction (auctions st) as [|a l IH]; [reflexivity|].
  cbn [flat_map filter]. rewrite scheduled_app, IH.
  rewrite (proj1 (snipe_scheduled now a)).
  destruct (in_window now a && bid_passes a); reflexivity.
Qed.

Lemma tick_pushed (now : Z) (st : State) :
  pushed (snd (autoSnipeTick number_toString now st))
  = map (failedBid_too_low number_toString now)
        (filter (fun a => in_window now a && negb (bid_passes a)) (auctions st)).
Proof.
  rewrite tick_effects. induction (auctions st) as [|a l IH]; [reflexivity|].
  cbn [flat_map filter]. rewrite pushed_app, IH.
  rewrite (proj2 (snipe_scheduled now a)).
  destruct (in_window now a && negb (bid_passes a)); reflexivity.
Qed.

Lemma tick_bidHistory (now : Z) (st : State) :
  bidHistory (fst (autoSnipeTick number_toString now st))
  = bidHistory st ++ pushed (snd (autoSnipeTick number_toString now st)).
Proof. reflexivity. Qed.

(** C2, as amended.  One firing of the auto-snipe timer queues a simulated
    bid for a tracked auction exactly when the auction is active, in status
    [monitoring], its remaining time satisfies [0 < remaining <= 3000], and
    the bid [Math.min (currentBid + 1, maxBid)] passes the test
    [optimalBid <= maxBid], which it fails when the current bid is [NaN].
    The queued bid is that minimum and the stored auction is then in status
    [bidding].  In the window with a bid that fails the test, no bid is
    queued: the stored auction is in status [error] and inactive, and a
    refusal is filed in both histories.  An active, monitored auction whose
    remaining time is [<= 0] gets no bid: the stored auction is [lost] and
    inactive.  Every other auction is stored as it was.  The bids queued by
    the step are those of the auctions in the window whose bid passes, in
    order, and no other. *)
Theorem auto_snipe_fires_in_window (now : Z) (st : State) (n : nat) (a : Auction.t) :
  nth_error (auctions st) n = Some a ->
  let st' := fst (autoSnipeTick number_toString now st) in
  let effects := snd (autoSnipeTick number_toString now st) in
  let refusal := failedBid_too_low number_toString now a in
  ((exists bid, In (SetTimeout_attemptBid a bid) effects)
   <-> (Auction.isActive a = true /\ Auction.status a = Status.monitoring
        /\ (exists ms, remaining now a = Some ms /\ 0 < ms <= 3000)
        /\ num_le (Math_min (plus_one (Auction.currentBid a)) (Auction.maxBid a))
                  (Auction.maxBid a) = true))
  /\ (forall bid, In (SetTimeout_attemptBid a bid) effects ->
        bid = Math_min (plus_one (Auction.currentBid a)) (Auction.maxBid a)
        /\ exists a', nth_error (auctions st') n = Some a'
                      /\ Auction.status a' = Status.bidding /\ a' = set_bidding a)
  /\ (in_window now a = true ->
      num_le (Math_min (plus_one (Auction.currentBid a)) (Auction.maxBid a))
             (Auction.maxBid a) = false ->
      (forall bid, ~ In (SetTimeout_attemptBid a bid) effects)
      /\ In (Push_bidHistory refusal) effects /\ In refusal (bidHistory st')
      /\ exists a', nth_error (auctions st') n = Some a'
                    /\ Auction.status a' = Status.error /\ Auction.isActive a' = false
                    /\ a' = too_low refusal a)
  /\ (Auction.isActive a = true -> Auction.status a = Status.monitoring ->
      forall ms, remaining now a = Some ms -> ms <= 0 ->
      (forall bid, ~ In (SetTimeout_attemptBid a bid) effects)
      /\ exists a', nth_error (auctions st') n = Some a'
                    /\ Auction.status a' = Status.lost /\ Auction.isActive a' = false
                    /\ a' = expired a)
  /\ ((eligible a = false \/ remaining now a = None
       \/ exists ms, remaining now a = Some ms /\ 3000 < ms) ->
      (forall bid, ~ In (SetTimeout_attemptBid a bid) effects)
      /\ nth_error (auctions st') n = Some a)
  /\ scheduled effects
     = map (fun a => (a, optimalBid a))
           (filter (fun a => in_window now a && bid_passes a) (auctions st))
  /\ bidHistory st'
     = bidHistory st
       ++ map (failedBid_too_low number_toString now)
              (filter (fun a => in_window now a && negb (bid_passes a)) (auctions st)).
Proof.
  intro Hn. cbv zeta.
  assert (Hin : In a (auctions st)) by (eapply nth_error_In; eauto).
  assert (Hst : nth_error (auctions (fst (autoSnipeTick number_toString now st))) n
                = Some (fst (snipe number_toString now a))).
  { rewrite tick_auctions.
    exact (map_nth_error (fun x => fst (snipe number_toString now x)) n (auctions st) Hn). }
  assert (Hfire : forall bid,
             In (SetTimeout_attemptBid a bid) (snd (autoSnipeTick number_toString now st))
             <-> bid = optimalBid a /\ in_window now a = true /\ bid_passes a = true).
  { intro bid. rewrite in_scheduled, tick_scheduled, in_map_iff. split.
    - intros (x & [= -> <-] & Hx). apply filter_In in Hx as [_ Hx].
      apply andb_true_iff in Hx. tauto.
    - intros (-> & Hw & Hp). exists a. split; [reflexivity|].
      apply filter_In. split; [exact Hin|]. now rewrite Hw, Hp. }
  fold (optimalBid a). fold (bid_passes a).
  split; [|split; [|split; [|split; [|split; [|split]]]]].
  - split.
    + intros (bid & Hb). apply Hfire in Hb as (_ & Hw & Hp).
      apply in_window_iff in Hw. tauto.
    + intros (Ha & Hs & Hl & Hp). exists (optimalBid a). apply Hfire.
      split; [reflexivity|]. split; [|exact Hp]. apply in_window_iff. tauto.
  - intros bid Hb. apply Hfire in Hb as (-> & Hw & Hp). split; [reflexivity|].
    exists (set_bidding a). rewrite Hst, (snipe_in_window now a Hw), Hp. auto.
  - intros Hw Hp. split; [|split; [|split]].
    + intros bid Hb. apply Hfire in Hb as (_ & _ & Hp'). congruence.
    + rewrite in_pushed, tick_pushed. apply in_map, filter_In.
      split; [exact Hin|]. now rewrite Hw, Hp.
    + rewrite tick_bidHistory, tick_pushed. apply in_or_app. right.
      apply in_map, filter_In. split; [exact Hin|]. now rewrite Hw, Hp.
    + exists (too_low (failedBid_too_low number_toString now a) a).
      rewrite Hst, (snipe_in_window now a Hw), Hp. auto.
  - intros Ha Hs ms Hl Hle.
    assert (He : eligible a = true) by (apply eligible_iff; auto).
    split.
    + intros bid Hb. apply Hfire in Hb as (_ & Hw & _).
      apply in_window_iff in Hw as (_ & _ & l & Hl' & H). rewrite Hl in Hl'.
      injection Hl' as <-. lia.
    + exists (expired a). rewrite Hst, (snipe_by_remaining now a He), Hl.
      replace (ms <=? 0) with true by (symmetry; apply Z.leb_le; lia). auto.
  - intro Hout. split.
    + intros bid Hb. apply Hfire in Hb as (_ & Hw & _).
      pose proof (in_window_eligible now a Hw) as He.
      apply in_window_iff in Hw as (_ & _ & l & Hl & H).
      destruct Hout as [Hout|[Hout|(l' & Hout & G)]]; [congruence | congruence |].
      rewrite Hl in Hout. injection Hout as <-. lia.
    + rewrite Hst. destruct (eligible a) eqn:He;
        [|now rewrite snipe_not_eligible].
      rewrite (snipe_by_remaining now a He).
      destruct Hout as [Hout|[->|(l & -> & G)]]; [discriminate | reflexivity |].
      replace (l <=? 0) with false by (symmetry; apply Z.leb_gt; lia).
      now replace (l <=? 3000) with false by (symmetry; apply Z.leb_gt; lia).
  - apply tick_scheduled.
  - rewrite tick_bidHistory. now rewrite tick_pushed.
Qed.

Lemma terminal_not_eligible (a : Auction.t) :
  terminal (Auction.status a) -> eligible a = false.
Proof.
  unfold eligible. intros [H|[H|H]]; rewrite H; apply andb_false_r.
Qed.

Lemma snipe_keeps_terminal (nows : list Z) (a : Auction.t) :
  eligible a = false ->
  fold_left (fun x now => fst (snipe number_toString now x)) nows a = a.
Proof.
  intro H. induction nows as [|now l IH]; [reflexivity|].
  cbn [fold_left]. rewrite snipe_not_eligible by exact H. exact IH.
Qed.

Lemma attemptBid_never_rejects (now : Z) (random : Q) (auction : Auction.t)
  (bidAmount : number) (st : State) :
  let safeBidAmount := Math_min bidAmount (Auction.maxBid auction) in
  let success := num_gt (Fin random) (Fin (3 # 10)) in
  let bidRecord := bidRecord_placed now auction safeBidAmount success in
  attemptBid number_toString now random auction bidAmount st
  = setAuctions
      (map (fun a => if Auction.id a =? Auction.id auction
                     then settled safeBidAmount bidRecord success a else a))
      (setBidHistory (fun prev => prev ++ [bidRecord]) st).
Proof. cbv zeta. unfold attemptBid. now rewrite Math_min_not_gt. Qed.

End SnipeStep.

(** ** Frame of the timer, and the coin flip *)

Section Outcomes.

Variable number_toString : number -> string.

Lemma attemptBid_auctions (now : Z) (random : Q) (auction : Auction.t)
  (bidAmount : number) (st : State) (x : Auction.t) :
  In x (auctions (attemptBid number_toString now random auction bidAmount st)) ->
  In x (auctions st)
  \/ (Auction.id x = Auction.id auction /\ Auction.isActive x = false
      /\ (Auction.status x = Status.won \/ Auction.status x = Status.lost)).
Proof.
  rewrite attemptBid_never_rejects. cbv zeta. cbn [auctions setAuctions setBidHistory].
  intro H. apply in_map_iff in H as (y & Hy & Hin).
  destruct (Auction.id y =? Auction.id auction) eqn:E.
  - right. subst x. unfold settled, with_bids.
    cbn [Auction.id Auction.isActive Auction.status].
    apply Z.eqb_eq in E. split; [exact E|]. split; [reflexivity|].
    destruct (num_gt (Fin random) (Fin (3 # 10))); auto.
  - left. now subst x.
Qed.

(** C9.  The timer step leaves alone every auction that is inactive or whose
    status is not [monitoring]: the callback returns it unchanged and asks for
    nothing, so the auction keeps its place and all its fields in the new
    list, and any number of later steps leave an auction in [won], [lost] or
    [error] as it is.  Whenever the timer or [attemptBid] moves an auction to
    one of these statuses, it clears [isActive] in the same update. *)
Theorem terminal_states_absorbing (now : Z) (st : State) (a : Auction.t) :
  ((Auction.isActive a = false \/ Auction.status a <> Status.monitoring) ->
   snipe number_toString now a = (a, [])
   /\ (forall n, nth_error (auctions st) n = Some a ->
                 nth_error (auctions (fst (autoSnipeTick number_toString now st))) n = Some a))
  /\ (terminal (Auction.status a) ->
      forall nows, fold_left (fun x t => fst (snipe number_toString t x)) nows a = a)
  /\ (let a' := fst (snipe number_toString now a) in
      a' <> a -> terminal (Auction.status a') -> Auction.isActive a' = false)
  /\ (forall t random auction bidAmount x,
        In x (auctions (attemptBid number_toString t random auction bidAmount st)) ->
        In x (auctions st)
        \/ (Auction.isActive x = false /\ terminal (Auction.status x))).
Proof.
  split; [|split; [|split]].
  - intro H.
    assert (He : eligible a = false).
    { unfold eligible. destruct H as [H|H]; [now rewrite H|].
      destruct (Auction.status a); try (now rewrite andb_false_r). congruence. }
    split; [now apply snipe_not_eligible|].
    intros n Hn. rewrite tick_auctions.
    erewrite map_nth_error by exact Hn. now rewrite snipe_not_eligible.
  - intros Ht nows. apply snipe_keeps_terminal, terminal_not_eligible, Ht.
  - cbv zeta. intros Hne Ht.
    destruct (eligible a) eqn:He;
      [|exfalso; apply Hne; now rewrite snipe_not_eligible].
    rewrite (snipe_by_remaining number_toString now a He) in Hne, Ht |- *.
    destruct (remaining now a) as [ms|]; [|exfalso; now apply Hne].
    destruct (ms <=? 0); [reflexivity|].
    destruct (ms <=? 3000); [|exfalso; now apply Hne].
    destruct (bid_passes a); [|reflexivity].
    cbn in Ht. destruct Ht as [Ht|[Ht|Ht]]; discriminate.
  - intros t random auction bidAmount x Hin.
    apply attemptBid_auctions in Hin as [Hin|(_ & Hact & Hs)]; [now left|right].
    split; [exact Hact|]. unfold terminal. tauto.
Qed.

(** C6.  The outcome of a placed bid is the coin flip alone: the record
    [attemptBid] appends has [success] equal to [random > 0.3], whatever the
    auction, the amount, the clock and the state are; so two runs with the
    same draw record the same flag, and the auction's status is [won] or
    [lost] accordingly. *)
Theorem bid_outcome_is_coin_flip (random : Q)
  (now1 now2 : Z) (a1 a2 : Auction.t) (b1 b2 : number) (st1 st2 : State) :
  exists r1 r2,
    bidHistory (attemptBid number_toString now1 random a1 b1 st1) = bidHistory st1 ++ [r1]
    /\ bidHistory (attemptBid number_toString now2 random a2 b2 st2) = bidHistory st2 ++ [r2]
    /\ BidRecord.success r1 = BidRecord.success r2
    /\ BidRecord.success r1 = num_gt (Fin random) (Fin (3 # 10)).
Proof.
  rewrite !attemptBid_never_rejects. cbv zeta.
  cbn [bidHistory setAuctions setBidHistory].
  eexists. eexists. split; [reflexivity|]. split; [reflexivity|].
  split; reflexivity.
Qed.

End Outcomes.

(** A won auction goes through three timer steps unchanged. *)
Lemma terminal_states_absorbing_witness :
  let a := Auction.mk 1 "u" "t" (of_Z 10) (of_Z 20) (Time 5000) false Status.won
                      (Some (of_Z 11)) [] "i" (mkDetails None None None None None None) 0 in
  snipe (fun _ => "") 4000 a = (a, [])
  /\ fold_left (fun x t => fst (snipe (fun _ => "") t x)) [4000; 5000; 6000] a = a.
Proof.
  cbv zeta. split.
  - apply (terminal_states_absorbing (fun _ => "") 4000 initial). left. reflexivity.
  - apply (terminal_states_absorbing (fun _ => "") 4000 initial). left. reflexivity.
Defined.

(** ** Adding an auction *)

(** [parseFloat] gives a number or nothing: [NaN] is its [None]. *)
Lemma parseFloat_number (s : string) (n : number) :
  parseFloat s = Some n -> isNaN n = false.
Proof.
  unfold parseFloat.
  destruct (match drop_spaces (chars s) with
            | [] => (false, drop_spaces (chars s))
            | c :: t => _
            end) as [neg s2].
  destruct (starts_with (chars "Infinity") s2).
  - intros [= <-]. now destruct neg.
  - destruct (take_digits s2) as [ip s3].
    destruct (match s3 with [] => ([], s3) | c :: t => _ end) as [fp s4].
    destruct ip, fp; try discriminate; now intros [= <-].
Qed.

(** The two ways [addAuction] can end. *)
Lemma addAuction_cases (generateDemoAuctionData : string -> EbayAuctionData)
  (service : string -> Result EbayAuctionData) (now : Z) (st : State) :
  let st' := addAuction generateDemoAuctionData service now st in
  (add_refused generateDemoAuctionData service st
   /\ auctions st' = auctions st /\ bidHistory st' = bidHistory st)
  \/ (~ add_refused generateDemoAuctionData service st
      /\ exists maxBidAmount auctionData,
          parseFloat (newMaxBid st) = Some maxBidAmount
          /\ extractAuctionData generateDemoAuctionData service st (newAuctionUrl st)
             = Ok auctionData
          /\ num_le maxBidAmount (of_Z 0) = false
          /\ num_le maxBidAmount (currentBid auctionData) = false
          /\ auctions st'
             = auctions st ++ [newAuction now (newAuctionUrl st) maxBidAmount auctionData]
          /\ bidHistory st' = bidHistory st).
Proof.
  cbv zeta. unfold addAuction, add_refused.
  destruct (is_blank (newAuctionUrl st)) eqn:Bu; cbn [orb]; [left; auto|].
  destruct (is_blank (newMaxBid st)) eqn:Bm; [left; auto|].
  destruct (parseFloat (newMaxBid st)) as [m|] eqn:Pm; [|left; auto].
  destruct (num_le m (of_Z 0)) eqn:L0.
  { left. split; [|auto]. do 3 right. left. exists m. auto. }
  change (extractAuctionData generateDemoAuctionData service (setIsAddingAuction true st)
            (newAuctionUrl (setIsAddingAuction true st)))
    with (extractAuctionData generateDemoAuctionData service st (newAuctionUrl st)).
  destruct (extractAuctionData generateDemoAuctionData service st (newAuctionUrl st))
    as [d|e] eqn:Ex.
  - destruct (num_le m (currentBid d)) eqn:Lc.
    + left. split; [|auto]. do 5 right. exists m, d. auto.
    + right. split.
      * intros [H|[H|[H|[(m' & H & Hm)|[(e & H)|(m' & d' & H & Hd & Hm)]]]]];
          try discriminate.
        -- injection H as <-. congruence.
        -- injection H as <-. injection Hd as <-. congruence.
      * exists m, d. repeat split; auto.
  - left. split; [|auto]. do 4 right. left. now exists e.
Qed.

(** C8, as amended.  [addAuction] is all or nothing on the tracked auctions.
    If either input is blank, the maximum does not parse as a number
    strictly greater than zero, the extraction throws, or the maximum is at
    most the extracted current bid, the auction list and the bid history are
    as before.  Otherwise exactly one auction is appended: it has status
    [monitoring], is active, has an empty bid history, and its [maxBid] is a
    number greater than zero that is not at most its [currentBid]: strictly
    greater than it when the current bid is a number, which an extracted
    current bid need not be.  The bid history is as before. *)
Theorem addAuction_atomic (generateDemoAuctionData : string -> EbayAuctionData)
  (service : string -> Result EbayAuctionData) (now : Z) (st : State) :
  let st' := addAuction generateDemoAuctionData service now st in
  (add_refused generateDemoAuctionData service st ->
   auctions st' = auctions st /\ bidHistory st' = bidHistory st)
  /\ (~ add_refused generateDemoAuctionData service st ->
      exists a,
        auctions st' = auctions st ++ [a]
        /\ bidHistory st' = bidHistory st
        /\ Auction.status a = Status.monitoring
        /\ Auction.isActive a = true
        /\ Auction.bidHistory a = []
        /\ num_le (Auction.maxBid a) (Auction.currentBid a) = false
        /\ (isNaN (Auction.currentBid a) = false ->
            num_gt (Auction.maxBid a) (Auction.currentBid a) = true)
        /\ num_gt (Auction.maxBid a) (of_Z 0) = true
        /\ parseFloat (newMaxBid st) = Some (Auction.maxBid a)).
Proof.
  cbv zeta.
  destruct (addAuction_cases generateDemoAuctionData service now st)
    as [(R & Ha & Hb)|(NR & m & d & Pm & Ex & G0 & Gc & Ha & Hb)].
  - split; [auto|]. intro N. contradiction.
  - split; [intro R; contradiction|]. intros _.
    pose proof (parseFloat_number _ _ Pm) as Hm.
    exists (newAuction now (newAuctionUrl st) m d).
    change (Auction.maxBid (newAuction now (newAuctionUrl st) m d)) with m.
    change (Auction.currentBid (newAuction now (newAuctionUrl st) m d))
      with (currentBid d).
    repeat split; auto.
    + intro Hc. rewrite num_gt_not_le by assumption. now rewrite Gc.
    + rewrite num_gt_not_le by (auto; reflexivity). now rewrite G0.
Qed.

(** ** Invariants of the running dashboard *)

Section Runs.

Variable number_toString : number -> string.

Lemma same_book_refl (x : Auction.t) : same_book x x.
Proof. repeat split. Qed.

Lemma refreshed_same_book (now : Z) (d : EbayAuctionData) (a : Auction.t) :
  same_book (refreshed now d a) a.
Proof. repeat split. Qed.


Lemma refreshed_same_key (now : Z) (d : EbayAuctionData) (a : Auction.t) :
  same_key (refreshed now d a) a.
Proof. split; reflexivity. Qed.

(** The three record shapes. *)
Lemma failedBid_exceeds_reason (now : Z) (a : Auction.t) (b : number) :
  reason_matches_success (failedBid_exceeds number_toString now a b).
Proof. split; [reflexivity | discriminate]. Qed.

Lemma bidRecord_placed_reason (now : Z) (a : Auction.t) (b : number) (success : bool) :
  reason_matches_success (bidRecord_placed now a b success).
Proof. destruct success; [reflexivity | split; [reflexivity | discriminate]]. Qed.

Lemma failedBid_too_low_reason (now : Z) (a : Auction.t) :
  reason_matches_success (failedBid_too_low number_toString now a).
Proof. split; [reflexivity | discriminate]. Qed.

Lemma bidRecord_placed_placed (now : Z) (a : Auction.t) (b : number) (success : bool) :
  placed (bidRecord_placed now a b success).
Proof. destruct success; [now left | now right]. Qed.

(** A refusal is not a placement. *)
Lemma failedBid_too_low_not_placed (now : Z) (a : Auction.t) :
  ~ placed (failedBid_too_low number_toString now a).
Proof.
  intros [H|H]; [discriminate|]. cbn in H. discriminate.
Qed.

(** What each event does to the auctions. *)
Lemma refresh_auctions (demo : string -> EbayAuctionData)
  (monitor : string -> Result EbayAuctionData) (now auctionId : Z) (st : State) :
  bidHistory (refreshAuctionData demo monitor now auctionId st) = bidHistory st
  /\ exists f, auctions (refreshAuctionData demo monitor now auctionId st)
               = map f (auctions st)
               /\ forall a, same_book (f a) a.
Proof.
  unfold refreshAuctionData.
  assert (Hid : bidHistory st = bidHistory st
                /\ exists f, auctions st = map f (auctions st)
                             /\ forall a, same_book (f a) a).
  { split; [reflexivity|]. exists (fun a => a). split; [now rewrite map_id|].
    apply same_book_refl. }
  destruct (find _ (auctions st)) as [auction|]; [|exact Hid].
  destruct (if demoMode st || includes (Auction.title auction) "(Demo Mode)"
            then Ok (demo (Auction.url auction)) else monitor (Auction.url auction))
    as [d|e]; [|exact Hid].
  split; [reflexivity|]. eexists. split; [reflexivity|].
  intro a. cbn beta. destruct (Auction.id a =? auctionId);
    [apply refreshed_same_book | apply same_book_refl].
Qed.

(** *** Reasons and success flags *)

Lemma tick_fst (now : Z) (st st' : State) (effects : list Effect) :
  autoSnipeTick number_toString now st = (st', effects) ->
  bidHistory st' = bidHistory st ++ pushed effects
  /\ auctions st' = map (fun a => fst (snipe number_toString now a)) (auctions st)
  /\ scheduled effects
     = map (fun a => (a, optimalBid a))
           (filter (fun a => in_window now a && bid_passes a) (auctions st))
  /\ pushed effects
     = map (failedBid_too_low number_toString now)
           (filter (fun a => in_window now a && negb (bid_passes a)) (auctions st)).
Proof.
  intro E.
  pose proof (tick_bidHistory number_toString now st) as H1.
  pose proof (tick_auctions number_toString now st) as H2.
  pose proof (tick_scheduled number_toString now st) as H3.
  pose proof (tick_pushed number_toString now st) as H4.
  rewrite E in H1, H2, H3, H4. auto.
Qed.

Lemma handle_records_ok (s : System) (e : Event) :
  records_ok s -> records_ok (handle number_toString s e).
Proof.
  intros [Hb Ha]. destruct e; cbn [handle]; try (split; assumption).
  - (* Interval *)
    destruct (autoSnipeEnabled (ui s)); [|split; assumption].
    destruct (autoSnipeTick number_toString now (ui s)) as [st' effects] eqn:E.
    apply tick_fst in E as (E1 & E2 & _ & E4).
    split; cbn [ui].
    + rewrite E1, E4. apply Forall_app. split; [exact Hb|].
      apply Forall_map, Forall_forall. intros a _. apply failedBid_too_low_reason.
    + rewrite E2. apply Forall_map. eapply Forall_impl; [|exact Ha].
      intros a H. rewrite (snipe_history number_toString). apply Forall_app.
      split; [exact H|]. apply Forall_forall. intros r Hr.
      apply (snipe_pushed number_toString) in Hr as ->. apply failedBid_too_low_reason.
  - (* Timeout *)
    destruct (timeouts s) as [|[auction bidAmount] rest]; [split; assumption|].
    rewrite attemptBid_never_rejects. cbv zeta.
    split; cbn [ui bidHistory auctions setAuctions setBidHistory].
    + apply Forall_app. split; [exact Hb|].
      constructor; [apply bidRecord_placed_reason | constructor].
    + apply Forall_map. eapply Forall_impl; [|exact Ha].
      intros a H. destruct (Auction.id a =? Auction.id auction); [|exact H].
      cbn. apply Forall_app. split; [exact H|].
      constructor; [apply bidRecord_placed_reason | constructor].
  - (* ClickAdd *)
    destruct (addAuction_cases generateDemoAuctionData service now (ui s))
      as [(_ & E1 & E2)|(_ & m & d & _ & _ & _ & _ & E1 & E2)];
      cbv zeta in E1, E2; split; cbn [ui]; rewrite ?E1, ?E2; auto.
    apply Forall_app. split; [exact Ha|]. constructor; [constructor|constructor].
  - (* Refresh *)
    destruct (refresh_auctions generateDemoAuctionData monitorAuction now auctionId (ui s))
      as (E1 & f & E2 & Hf).
    split; cbn [ui]; [now rewrite E1|].
    rewrite E2. apply Forall_map. eapply Forall_impl; [|exact Ha].
    intros a H. destruct (Hf a) as (_ & _ & ->). exact H.
  - (* ClickRemove *)
    split; cbn [ui removeAuction setAuctions bidHistory auctions]; [exact Hb|].
    apply Forall_forall. intros a Hin. apply filter_In in Hin as [Hin _].
    revert a Hin. now apply Forall_forall.
Qed.

Lemma run_records_ok (events : list Event) (s : System) :
  records_ok s -> records_ok (fold_left (handle number_toString) events s).
Proof.
  revert s. induction events as [|e l IH]; intros s H; [exact H|].
  cbn [fold_left]. apply IH, handle_records_ok, H.
Qed.

Lemma reason_matches_success_iff (r : BidRecord.t) :
  reason_matches_success r ->
  (BidRecord.success r = false <-> exists t, BidRecord.reason r = Some t /\ t <> "")
  /\ (BidRecord.success r = true <-> BidRecord.reason r = None).
Proof.
  unfold reason_matches_success. destruct (BidRecord.reason r) as [t|].
  - intros [Hs Ht]. rewrite Hs. split; split; try discriminate.
    + intros _. now exists t.
    + reflexivity.
  - intros ->. split; split; try discriminate; try reflexivity.
    intros (t & H & _). discriminate.
Qed.

(** C7.  A bid record carries a reason exactly when its success flag is
    false.  Each of the three kinds of failed record (refused for exceeding
    the maximum, simulated outbid, maximum lower than the current bid) has a
    reason that is not the empty string, and a successful record has none;
    and in every state the dashboard can reach, every record of the bid
    history and of each auction's own history has a non-empty reason if it
    failed and no reason if it succeeded. *)
Theorem reason_iff_failure (events : list Event) (r : BidRecord.t) :
  (forall now a b success,
      reason_matches_success (failedBid_exceeds number_toString now a b)
      /\ reason_matches_success (failedBid_too_low number_toString now a)
      /\ reason_matches_success (bidRecord_placed now a b success))
  /\ (In r (bidHistory (ui (run number_toString events)))
      \/ (exists a, In a (auctions (ui (run number_toString events)))
                    /\ In r (Auction.bidHistory a)) ->
      (BidRecord.success r = false <-> exists t, BidRecord.reason r = Some t /\ t <> "")
      /\ (BidRecord.success r = true <-> BidRecord.reason r = None)).
Proof.
  split.
  - intros now a b success.
    split; [apply failedBid_exceeds_reason|].
    split; [apply failedBid_too_low_reason | apply bidRecord_placed_reason].
  - intro H. apply reason_matches_success_iff.
    assert (Hok : records_ok (run number_toString events)).
    { apply run_records_ok. split; constructor. }
    destruct Hok as [Hb Ha]. destruct H as [H|(a & Hin & H)].
    + revert r H. now apply Forall_forall.
    + rewrite Forall_forall in Ha. specialize (Ha a Hin).
      revert r H. now apply Forall_forall.
Qed.

End Runs.

(** *** Placed bids stay within the maximum *)

Section WithinMax.

Variable number_toString : number -> string.

Lemma same_book_key (x y : Auction.t) : same_book x y -> same_key x y.
Proof. intros (H1 & H2 & _). now split. Qed.

Lemma consistent_from (l l' : list Auction.t) :
  consistent l ->
  (forall x, In x l' -> exists y, In y l /\ same_key x y) ->
  consistent l'.
Proof.
  intros Hc H x y Hx Hy E.
  destruct (H x Hx) as (x0 & Hx0 & Ex & Mx).
  destruct (H y Hy) as (y0 & Hy0 & Ey & My).
  rewrite Mx, My. apply Hc; auto. congruence.
Qed.

Lemma settled_key (safe : number) (r : BidRecord.t) (success : bool) (a : Auction.t) :
  same_key (settled safe r success a) a.
Proof. split; reflexivity. Qed.

Lemma snipe_within_max (now : Z) (a : Auction.t) :
  within_max a -> within_max (fst (snipe number_toString now a)).
Proof.
  intros H r Hr Hp. rewrite (proj2 (snipe_same_key number_toString now a)).
  rewrite (snipe_history number_toString) in Hr. apply in_app_or in Hr as [Hr|Hr].
  - now apply H.
  - apply (snipe_pushed number_toString) in Hr as ->.
    now apply failedBid_too_low_not_placed in Hp.
Qed.

Lemma within_max_same_book (x y : Auction.t) :
  same_book x y -> within_max y -> within_max x.
Proof.
  intros (_ & Hm & Hb) H r Hr Hp. rewrite Hm. rewrite Hb in Hr. now apply H.
Qed.

Lemma bids_safe_interval (s : System) (now : Z) :
  bids_safe s -> bids_safe (handle number_toString s (Interval now)).
Proof.
  intros (Hw & Ht & Hc). cbn [handle].
  destruct (autoSnipeEnabled (ui s)); [|repeat split; assumption].
  destruct (autoSnipeTick number_toString now (ui s)) as [st' effects] eqn:E.
  apply (tick_fst number_toString) in E as (_ & E2 & E3 & _).
  split; [|split]; cbn [ui timeouts].
  - rewrite E2. apply Forall_map. eapply Forall_impl; [|exact Hw].
    intros a H. now apply snipe_within_max.
  - apply Forall_app. split; [exact Ht|]. rewrite E3.
    apply Forall_map. apply Forall_forall. intros a Ha.
    apply filter_In in Ha as [_ Ha]. now apply andb_true_iff in Ha as [_ Ha].
  - eapply consistent_from; [exact Hc|].
    unfold known. cbn [ui timeouts]. intros x Hx.
    rewrite E2, E3, map_app, map_map in Hx. cbn [fst] in Hx.
    apply in_app_or in Hx as [Hx|Hx].
    + apply in_map_iff in Hx as (a & <- & Hin).
      exists a. split; [apply in_or_app; now left|].
      apply snipe_same_key.
    + apply in_app_or in Hx as [Hx|Hx].
      * exists x. split; [apply in_or_app; now right | now split].
      * rewrite map_id in Hx. apply filter_In in Hx as [Hin _].
        exists x. split; [apply in_or_app; now left | now split].
Qed.

Lemma bids_safe_timeout (s : System) (now : Z) (random : Q) :
  bids_safe s -> bids_safe (handle number_toString s (Timeout now random)).
Proof.
  intros (Hw & Ht & Hc). cbn [handle].
  destruct (timeouts s) as [|[auction bidAmount] rest] eqn:Eq;
    [repeat split; try assumption; now rewrite Eq|].
  assert (Hauction : In auction (known s)).
  { unfold known. rewrite Eq. apply in_or_app. right. now left. }
  rewrite attemptBid_never_rejects. cbv zeta.
  split; [|split]; cbn [ui timeouts auctions setAuctions setBidHistory].
  - apply Forall_forall. intros x Hx.
    apply in_map_iff in Hx as (a & <- & Hin).
    rewrite Forall_forall in Hw. specialize (Hw a Hin).
    destruct (Auction.id a =? Auction.id auction) eqn:E; [|exact Hw].
    apply Z.eqb_eq in E.
    assert (Hm : Auction.maxBid a = Auction.maxBid auction).
    { apply Hc; auto. unfold known. apply in_or_app. now left. }
    intros r Hr Hp.
    unfold settled, with_bids in Hr |- *.
    cbn [Auction.bidHistory Auction.maxBid] in Hr |- *.
    apply in_app_or in Hr as [Hr|[<-|[]]].
    + now apply Hw.
    + cbn [BidRecord.amount bidRecord_placed]. rewrite Hm.
      inversion Ht as [|p l Hbid _]. cbn [fst snd] in Hbid.
      apply num_le_numbers in Hbid as [Hb Hmax]. now apply Math_min_le_r.
  - now inversion Ht.
  - eapply consistent_from; [exact Hc|].
    unfold known. cbn [ui timeouts auctions setAuctions setBidHistory].
    rewrite Eq. cbn [map fst]. intros x Hx.
    apply in_app_or in Hx as [Hx|Hx].
    + apply in_map_iff in Hx as (a & <- & Hin).
      exists a. split; [apply in_or_app; now left|].
      destruct (Auction.id a =? Auction.id auction);
        [apply settled_key | now split].
    + exists x. split; [apply in_or_app; right; now right | now split].
Qed.

Lemma bids_safe_add (s : System) (demo : string -> EbayAuctionData)
  (service : string -> Result EbayAuctionData) (now : Z) :
  fresh_clock s (ClickAdd demo service now) ->
  bids_safe s -> bids_safe (handle number_toString s (ClickAdd demo service now)).
Proof.
  intros Hf (Hw & Ht & Hc). cbn [handle fresh_clock] in *.
  destruct (addAuction_cases demo service now (ui s))
    as [(_ & E1 & _)|(_ & m & d & _ & _ & _ & _ & E1 & _)]; cbv zeta in E1.
  - unfold bids_safe, known. cbn [ui timeouts]. rewrite E1. auto.
  - unfold bids_safe, known. cbn [ui timeouts]. rewrite E1.
    split; [|split; [exact Ht|]].
    + apply Forall_app. split; [exact Hw|]. constructor; [|constructor].
      intros r []. 
    + set (a := newAuction now (newAuctionUrl (ui s)) m d) in *.
      assert (Hnew : forall x, In x (known s) -> Auction.id x <> Auction.id a).
      { intros x Hx E. apply Hf. cbn in E. rewrite <- E. now apply in_map. }
      assert (Hsplit : forall x, In x ((auctions (ui s) ++ [a]) ++ map fst (timeouts s)) ->
                                 x = a \/ In x (known s)).
      { intros x Hx. unfold known. rewrite !in_app_iff in *. cbn in Hx.
        destruct Hx as [[Hx|[Hx|[]]]|Hx]; auto. }
      intros x y Hx Hy E.
      destruct (Hsplit x Hx) as [->|Hx'], (Hsplit y Hy) as [->|Hy']; auto.
      * exfalso. now apply (Hnew y Hy').
      * exfalso. now apply (Hnew x Hx').
Qed.

Lemma bids_safe_refresh (s : System) (demo : string -> EbayAuctionData)
  (monitor : string -> Result EbayAuctionData) (now auctionId : Z) :
  bids_safe s -> bids_safe (handle number_toString s (Refresh demo monitor now auctionId)).
Proof.
  intros (Hw & Ht & Hc). cbn [handle].
  destruct (refresh_auctions demo monitor now auctionId (ui s)) as (_ & f & E & Hf).
  unfold bids_safe, known. cbn [ui timeouts]. rewrite E.
  split; [|split; [exact Ht|]].
  - apply Forall_map. eapply Forall_impl; [|exact Hw].
    intros a H. eapply within_max_same_book; [apply Hf | exact H].
  - eapply consistent_from; [exact Hc|]. intros x Hx.
    apply in_app_or in Hx as [Hx|Hx].
    + apply in_map_iff in Hx as (a & <- & Hin).
      exists a. split; [apply in_or_app; now left | apply same_book_key, Hf].
    + exists x. split; [apply in_or_app; now right | now split].
Qed.

Lemma bids_safe_remove (s : System) (id : Z) :
  bids_safe s -> bids_safe (handle number_toString s (ClickRemove id)).
Proof.
  intros (Hw & Ht & Hc). cbn [handle].
  unfold bids_safe, known. cbn [ui timeouts removeAuction setAuctions auctions].
  split; [|split; [exact Ht|]].
  - apply Forall_forall. intros a Hin. apply filter_In in Hin as [Hin _].
    revert a Hin. now apply Forall_forall.
  - eapply consistent_from; [exact Hc|]. intros x Hx.
    exists x. split; [|now split].
    unfold known. rewrite in_app_iff in *. destruct Hx as [Hx|Hx]; [left|now right].
    now apply filter_In in Hx as [Hx _].
Qed.

Lemma reachable_bids_safe (s : System) : reachable number_toString s -> bids_safe s.
Proof.
  induction 1 as [|s e Hr IH Hf].
  - repeat split; try constructor. intros x y [].
  - destruct e.
    + now apply bids_safe_interval.
    + now apply bids_safe_timeout.
    + now apply bids_safe_add.
    + now apply bids_safe_refresh.
    + now apply bids_safe_remove.
    + exact IH.
    + exact IH.
    + exact IH.
    + exact IH.
Qed.

(** Every queued bid passed the timer's test, fresh ids or not. *)
Lemma handle_queue_within (s : System) (e : Event) :
  Forall (fun p => num_le (snd p) (Auction.maxBid (fst p)) = true) (timeouts s) ->
  Forall (fun p => num_le (snd p) (Auction.maxBid (fst p)) = true)
         (timeouts (handle number_toString s e)).
Proof.
  intro Ht. destruct e; cbn [handle timeouts]; try exact Ht.
  - destruct (autoSnipeEnabled (ui s)); [|exact Ht].
    destruct (autoSnipeTick number_toString now (ui s)) as [st' effects] eqn:E.
    apply (tick_fst number_toString) in E as (_ & _ & E3 & _).
    cbn [timeouts]. apply Forall_app. split; [exact Ht|]. rewrite E3.
    apply Forall_map. apply Forall_forall. intros a Ha.
    apply filter_In in Ha as [_ Ha]. now apply andb_true_iff in Ha as [_ Ha].
  - destruct (timeouts s) as [|[auction bidAmount] rest] eqn:Eq;
      [now rewrite Eq|].
    cbn [timeouts]. now inversion Ht.
Qed.

Lemma run_queue_within (events : list Event) :
  Forall (fun p => num_le (snd p) (Auction.maxBid (fst p)) = true)
         (timeouts (run number_toString events)).
Proof.
  unfold run.
  assert (H : Forall (fun p => num_le (snd p) (Auction.maxBid (fst p)) = true)
                     (timeouts (mkSystem initial []))) by constructor.
  revert H. generalize (mkSystem initial []).
  induction events as [|e l IH]; intros s H; [exact H|].
  cbn [fold_left]. apply IH, handle_queue_within, H.
Qed.

End WithinMax.

Section MaxBid.

Variable number_toString : number -> string.

(** C1.  Every bid the sniper places respects the maximum.  [attemptBid]
    clamps the requested amount to [Math.min (requested, maxBid)] before it
    records it, so the record it appends is a placement whose amount is never
    greater than the maximum of the auction it was called for, and is at most
    that maximum whenever the requested amount and the maximum are numbers:
    [Math.min] of [NaN] is [NaN], which no comparison relates to the
    maximum.  The timer computes its bid as
    [Math.min (currentBid + 1, maxBid)] and queues it only when it is at most
    the maximum; so in every run of the dashboard every queued bid, which is
    what [attemptBid] is called with, is at most the maximum of its auction,
    and the record appended when it fires is a placement of that amount,
    at most the maximum.
    And in every state the dashboard reaches (the clock giving each new
    auction an unused id), every placed bid in an auction's history is at
    most that auction's [maxBid]. *)
Theorem bids_never_exceed_maxBid :
  (forall now random auction bidAmount st,
      exists rec,
        bidHistory (attemptBid number_toString now random auction bidAmount st)
        = bidHistory st ++ [rec]
        /\ placed rec
        /\ BidRecord.auctionId rec = Auction.id auction
        /\ BidRecord.amount rec = Math_min bidAmount (Auction.maxBid auction)
        /\ num_gt (BidRecord.amount rec) (Auction.maxBid auction) = false
        /\ num_le (BidRecord.amount rec) (Auction.maxBid auction)
           = negb (isNaN bidAmount || isNaN (Auction.maxBid auction)))
  /\ (forall now a x bid,
        In (SetTimeout_attemptBid x bid) (snd (snipe number_toString now a)) ->
        x = a
        /\ bid = Math_min (plus_one (Auction.currentBid a)) (Auction.maxBid a)
        /\ num_le bid (Auction.maxBid a) = true)
  /\ (forall s, reachable number_toString s ->
        forall a r, In a (auctions (ui s)) -> In r (Auction.bidHistory a) -> placed r ->
                    num_le (BidRecord.amount r) (Auction.maxBid a) = true)
  /\ (forall events auction bidAmount,
        In (auction, bidAmount) (timeouts (run number_toString events)) ->
        num_le bidAmount (Auction.maxBid auction) = true
        /\ Math_min bidAmount (Auction.maxBid auction) = bidAmount
        /\ forall now random st,
             exists rec,
               bidHistory (attemptBid number_toString now random auction bidAmount st)
               = bidHistory st ++ [rec]
               /\ placed rec
               /\ BidRecord.amount rec = bidAmount
               /\ num_le (BidRecord.amount rec) (Auction.maxBid auction) = true).
Proof.
  split; [|split; [|split]].
  - intros now random auction bidAmount st.
    rewrite attemptBid_never_rejects. cbv zeta.
    cbn [bidHistory setAuctions setBidHistory].
    eexists. split; [reflexivity|].
    split; [apply bidRecord_placed_placed|].
    split; [reflexivity|]. split; [reflexivity|].
    cbn [BidRecord.amount bidRecord_placed].
    split; [apply Math_min_not_gt | apply Math_min_le_r_iff].
  - intros now a x bid Hin.
    apply in_scheduled in Hin.
    rewrite (proj1 (snipe_scheduled number_toString now a)) in Hin.
    destruct (in_window now a); cbn [andb] in Hin; [|destruct Hin].
    destruct (bid_passes a) eqn:Hp; [|destruct Hin].
    destruct Hin as [E|[]]. injection E as <- <-.
    split; [reflexivity|]. split; [reflexivity|]. exact Hp.
  - intros s Hr a r Ha Hin Hp.
    destruct (reachable_bids_safe number_toString s Hr) as (Hw & _ & _).
    rewrite Forall_forall in Hw. now apply (Hw a Ha).
  - intros events auction bidAmount Hin.
    pose proof (run_queue_within number_toString events) as H.
    rewrite Forall_forall in H. specialize (H _ Hin). cbn [fst snd] in H.
    split; [exact H|].
    destruct (num_le_numbers _ _ H) as [Hb Hm].
    assert (Hmin : Math_min bidAmount (Auction.maxBid auction) = bidAmount)
      by (rewrite Math_min_cases by assumption; now rewrite H).
    split; [exact Hmin|].
    intros now random st. rewrite attemptBid_never_rejects. cbv zeta.
    cbn [bidHistory setAuctions setBidHistory].
    eexists. split; [reflexivity|].
    split; [apply bidRecord_placed_placed|].
    cbn [BidRecord.amount bidRecord_placed]. rewrite Hmin. auto.
Qed.

End MaxBid.

(** ** A sample session *)

Lemma sample_reachable : reachable sample_toString sample_final.
Proof.
  unfold sample_final, run, sample_events. cbn [fold_left].
  repeat (apply reachable_step; [|first [exact I | vm_compute; intros []]]).
  apply reachable_init.
Qed.

(** In the sample session the winning bid of 101 is within the maximum of 150. *)
Lemma bids_never_exceed_maxBid_witness :
  exists a,
    In a (auctions (ui sample_final))
    /\ In sample_record (Auction.bidHistory a)
    /\ num_le (BidRecord.amount sample_record) (Auction.maxBid a) = true.
Proof.
  exists (settled (of_Z 101) sample_record true sample_auction).
  assert (Hin : In (settled (of_Z 101) sample_record true sample_auction)
                   (auctions (ui sample_final))).
  { vm_compute. left. reflexivity. }
  assert (Hr : In sample_record
                  (Auction.bidHistory (settled (of_Z 101) sample_record true sample_auction))).
  { vm_compute. left. reflexivity. }
  split; [exact Hin|]. split; [exact Hr|].
  apply (proj1 (proj2 (proj2 (bids_never_exceed_maxBid sample_toString)))
               sample_final sample_reachable _ _ Hin Hr).
  left. reflexivity.
Defined.

(** Two seconds before the end the sample auction gets its bid of 101 and
    is stored as bidding; at the end it is stored as lost. *)
Lemma auto_snipe_fires_in_window_witness :
  let st := setAuctions (fun _ => [sample_auction]) initial in
  (exists bid, In (SetTimeout_attemptBid sample_auction bid)
                  (snd (autoSnipeTick sample_toString 3000 st)))
  /\ scheduled (snd (autoSnipeTick sample_toString 3000 st))
     = [(sample_auction, of_Z 101)]
  /\ (exists a', nth_error (auctions (fst (autoSnipeTick sample_toString 5000 st))) 0
                 = Some a'
                 /\ Auction.status a' = Status.lost /\ Auction.isActive a' = false).
Proof.
  cbv zeta.
  pose proof (auto_snipe_fires_in_window sample_toString 3000
                (setAuctions (fun _ => [sample_auction]) initial) 0 sample_auction eq_refl)
    as H3.
  pose proof (auto_snipe_fires_in_window sample_toString 5000
                (setAuctions (fun _ => [sample_auction]) initial) 0 sample_auction eq_refl)
    as H5.
  cbv zeta in H3, H5.
  destruct H3 as (Hiff & _ & _ & _ & _ & Hsched & _).
  destruct H5 as (_ & _ & _ & Hlost & _).
  split; [|split].
  - apply Hiff. split; [reflexivity|]. split; [reflexivity|].
    split; [exists 2000; split; [reflexivity | lia] | vm_compute; reflexivity].
  - rewrite Hsched. vm_compute. reflexivity.
  - destruct (Hlost eq_refl eq_refl 0 eq_refl ltac:(lia)) as (_ & a' & H1 & H2 & H3 & _).
    exists a'. auto.
Defined.

(** A listing whose current bid is [NaN] is tracked, is in the window two
    seconds before its end, and gets no bid: its bid is refused and it is
    stored with the status [error].  So the timer does not fire for every
    active, monitored auction in the window. *)
Lemma auto_snipe_fires_in_window_counterexample :
  auctions (ui (run sample_toString (firstn 3 nan_events))) = [nan_auction]
  /\ (Auction.isActive nan_auction = true
      /\ Auction.status nan_auction = Status.monitoring
      /\ remaining 3000 nan_auction = Some 2000)
  /\ snd (autoSnipeTick sample_toString 3000 (ui (run sample_toString (firstn 3 nan_events))))
     = [Push_bidHistory (failedBid_too_low sample_toString 3000 nan_auction)]
  /\ timeouts (run sample_toString nan_events) = []
  /\ map Auction.status (auctions (ui (run sample_toString nan_events))) = [Status.error]
  /\ ~ (forall now a,
          Auction.isActive a = true -> Auction.status a = Status.monitoring ->
          (exists ms, remaining now a = Some ms /\ 0 < ms <= 3000) ->
          exists bid, In (SetTimeout_attemptBid a bid) (snd (snipe sample_toString now a))).
Proof.
  split; [vm_compute; reflexivity|].
  split; [repeat split|].
  split; [vm_compute; reflexivity|].
  split; [vm_compute; reflexivity|].
  split; [vm_compute; reflexivity|].
  intro H. destruct (H 3000 nan_auction eq_refl eq_refl) as (bid & Hb).
  - exists 2000. split; [reflexivity | lia].
  - vm_compute in Hb. destruct Hb as [Hb|[]]. discriminate.
Qed.

(** The winning record of the sample session carries no reason. *)
Lemma reason_iff_failure_witness :
  (BidRecord.success sample_record = false
   <-> exists t, BidRecord.reason sample_record = Some t /\ t <> "")
  /\ (BidRecord.success sample_record = true <-> BidRecord.reason sample_record = None).
Proof.
  apply (proj2 (reason_iff_failure sample_toString sample_events sample_record)).
  left. vm_compute. left. reflexivity.
Defined.

(** Adding the demo listing with a maximum of 150 appends one monitored
    auction; a blank maximum leaves the list as it is. *)
Lemma addAuction_atomic_witness :
  let st := mkState [] "https://www.ebay.com/itm/1" "150" true [] false true in
  (exists a,
      auctions (addAuction sample_demo sample_service 1000 st) = auctions st ++ [a]
      /\ Auction.status a = Status.monitoring /\ Auction.isActive a = true
      /\ Auction.bidHistory a = []
      /\ num_le (Auction.maxBid a) (Auction.currentBid a) = false)
  /\ (let st0 := mkState [sample_auction] "https://www.ebay.com/itm/1" "  " true [] false true in
      auctions (addAuction sample_demo sample_service 1000 st0) = auctions st0).
Proof.
  cbv zeta. split.
  - destruct (proj2 (addAuction_atomic sample_demo sample_service 1000
                       (mkState [] "https://www.ebay.com/itm/1" "150" true [] false true)))
      as (a & Ha & _ & Hs & Hact & Hh & Hg & _).
    + intros [H|[H|[H|[(m & H & G)|[(e & H)|(m & d & H & E & G)]]]]];
        vm_compute in H; try discriminate.
      * injection H as <-. vm_compute in G. discriminate.
      * injection H as <-. vm_compute in E. injection E as <-.
        vm_compute in G. discriminate.
    + exists a. auto.
  - apply (proj1 (addAuction_atomic sample_demo sample_service 1000
                    (mkState [sample_auction] "https://www.ebay.com/itm/1" "  " true []
                             false true))).
    right. left. reflexivity.
Defined.

(** The listing whose current bid is [NaN] is appended with a maximum of
    150, which is not greater than [NaN]: an appended auction need not have
    [maxBid > currentBid], and a maximum that is not greater than the current
    bid need not be refused. *)
Lemma addAuction_atomic_counterexample :
  let st := mkState [] "https://www.ebay.com/itm/1" "150" true [] false false in
  nan_service "https://www.ebay.com/itm/1"
  = Ok (mkData "eBay Auction Item" NaN (Time 5000) "1" sample_details)
  /\ auctions (addAuction sample_demo nan_service 1000 st) = auctions st ++ [nan_auction]
  /\ num_gt (Auction.maxBid nan_auction) (Auction.currentBid nan_auction) = false
  /\ ~ (forall demo service now st a,
          auctions (addAuction demo service now st) = auctions st ++ [a] ->
          num_gt (Auction.maxBid a) (Auction.currentBid a) = true).
Proof.
  cbv zeta.
  assert (E : auctions (addAuction sample_demo nan_service 1000
                          (mkState [] "https://www.ebay.com/itm/1" "150" true [] false false))
              = [] ++ [nan_auction]) by (vm_compute; reflexivity).
  split; [vm_compute; reflexivity|]. split; [exact E|]. split; [reflexivity|].
  intro H. specialize (H _ _ _ _ _ E). discriminate.
Qed.

(** ** The price patterns *)

Lemma pattern_price_plausible (pattern : RegExp) (s : string) (p : number) :
  pattern_price pattern s = Ok (Some p) -> plausible p = true.
Proof.
  unfold pattern_price.
  destruct (js_match s pattern) as [m|]; [|discriminate].
  destruct (nth_error m 1) as [g|]; [|discriminate].
  destruct (parseFloat (remove_commas g)) as [price|]; [|discriminate].
  destruct (plausible price) eqn:E; [|discriminate].
  now intros [= <-].
Qed.

(** The guard of the loop is the range test. *)
Lemma plausible_in_range (v : number) : plausible v = in_range v.
Proof. reflexivity. Qed.

Lemma in_range_bounds (v : number) :
  in_range v = true <-> num_gt v (of_Z 0) = true /\ num_lt v (of_Z 1000000) = true.
Proof. unfold in_range. apply andb_true_iff. Qed.

Lemma in_range_number (v : number) : in_range v = true -> isNaN v = false.
Proof. intro H. apply in_range_bounds in H as [H _]. now apply num_gt_numbers in H. Qed.

(** What one pattern contributes, by what it reads. *)
Lemma pattern_price_spec (pattern : RegExp) (s : string) :
  pattern_price pattern s
  = match js_match s pattern with
    | Some m =>
        match nth_error m 1 with
        | Some _ => Ok (match reads pattern s with
                        | Some v => if in_range v then Some v else None
                        | None => None
                        end)
        | None => Throw TypeError
        end
    | None => Ok None
    end.
Proof.
  unfold pattern_price, reads. destruct (js_match s pattern) as [m|]; [|reflexivity].
  destruct (nth_error m 1) as [g|]; [|reflexivity].
  destruct (parseFloat (remove_commas g)) as [v|]; [|reflexivity].
  rewrite plausible_in_range. now destruct (in_range v).
Qed.

(** Without the [g] flag the array of a match has the capture group at
    index 1, so reading it never throws. *)
Lemma pattern_price_grouped (pattern : RegExp) (s : string) :
  global pattern = false -> has_group (source pattern) = true ->
  pattern_price pattern s
  = Ok (match reads pattern s with
        | Some v => if in_range v then Some v else None
        | None => None
        end).
Proof.
  intros Hg Hh. rewrite pattern_price_spec. unfold reads, js_match. rewrite Hg, Hh.
  now destruct (search _ _ _ _).
Qed.

Lemma pattern_price_no_throw (pattern : RegExp) (s : string) (e : Exn) :
  global pattern = false -> has_group (source pattern) = true ->
  pattern_price pattern s <> Throw e.
Proof. intros Hg Hh. now rewrite pattern_price_grouped. Qed.

Lemma pattern_price_yield (pattern : RegExp) (s : string) (p : number) :
  pattern_price pattern s = Ok (Some p) <-> reads pattern s = Some p /\ in_range p = true.
Proof.
  rewrite pattern_price_spec. unfold reads.
  destruct (js_match s pattern) as [m|]; [|split; [discriminate | intros [H _]; discriminate]].
  destruct (nth_error m 1) as [g|]; [|split; [discriminate | intros [H _]; discriminate]].
  destruct (parseFloat (remove_commas g)) as [v|];
    [|split; [discriminate | intros [H _]; discriminate]].
  destruct (in_range v) eqn:E; split.
  - intros [= <-]. auto.
  - now intros [[= <-] _].
  - discriminate.
  - intros [[= <-] H]. congruence.
Qed.

Lemma pattern_price_none (pattern : RegExp) (s : string) (v : number) :
  pattern_price pattern s = Ok None -> reads pattern s = Some v -> in_range v = false.
Proof.
  rewrite pattern_price_spec. unfold reads.
  destruct (js_match s pattern) as [m|]; [|discriminate].
  destruct (nth_error m 1) as [g|]; [|discriminate].
  intros H Hv. rewrite Hv in H. now destruct (in_range v).
Qed.

(** First match wins: the loop returns the price of the first pattern that
    gives a plausible one, the patterns before it having given none. *)
Lemma try_patterns_some (patterns : list RegExp) (s : string) (p : number) :
  try_patterns patterns s = Ok (Some p) <->
  exists before pattern after,
    patterns = before ++ pattern :: after
    /\ (forall q, In q before -> pattern_price q s = Ok None)
    /\ pattern_price pattern s = Ok (Some p).
Proof.
  induction patterns as [|q l IH]; cbn [try_patterns].
  - split; [discriminate|]. intros (b & x & a & E & _). now destruct b.
  - destruct (pattern_price q s) as [[v|]|e] eqn:Eq.
    + split.
      * intros [= ->]. exists [], q, l. repeat split; auto. intros ? [].
      * intros ([|q' b] & x & a & E & Hb & Hx).
        -- injection E as <- <-. congruence.
        -- injection E as <- ->. rewrite (Hb q) in Eq by now left. discriminate.
    + rewrite IH. split.
      * intros (b & x & a & -> & Hb & Hx). exists (q :: b), x, a.
        repeat split; auto. intros q' [<-|Hin]; auto.
      * intros ([|q' b] & x & a & E & Hb & Hx).
        -- injection E as <- <-. congruence.
        -- injection E as <- ->. exists b, x, a. repeat split; auto.
           intros q' Hin. apply Hb. now right.
    + split; [discriminate|].
      intros ([|q' b] & x & a & E & Hb & Hx).
      * injection E as <- <-. congruence.
      * injection E as <- ->. rewrite (Hb q) in Eq by now left. discriminate.
Qed.

(** Only the last of the main patterns carries the [g] flag. *)
Lemma mainPricePatterns_shape :
  mainPricePatterns = removelast mainPricePatterns ++ [re_g dollar_price]
  /\ forall q, In q (removelast mainPricePatterns) ->
               global q = false /\ has_group (source q) = true.
Proof.
  split; [reflexivity|].
  intros q Hin. unfold mainPricePatterns in Hin. cbn [removelast] in Hin.
  repeat (destruct Hin as [<-|Hin]; [split; reflexivity|]). destruct Hin.
Qed.

(** A pattern that stands before another main pattern has a capture group
    and no [g] flag. *)
Lemma before_main_pattern (before : list RegExp) (pattern : RegExp) (after : list RegExp)
  (q : RegExp) :
  mainPricePatterns = before ++ pattern :: after -> In q before ->
  global q = false /\ has_group (source q) = true.
Proof.
  intros E Hq. apply (proj2 mainPricePatterns_shape). rewrite E.
  rewrite removelast_app by discriminate. apply in_or_app. now left.
Qed.

(** The loop returns a price exactly when it is the valid price of the first
    pattern that reads one. *)
Lemma try_patterns_first (s : string) (p : number) :
  try_patterns mainPricePatterns s = Ok (Some p) <-> first_yield mainPricePatterns s p.
Proof.
  rewrite try_patterns_some. split.
  - intros (b & x & a & E & Hb & Hx). exists b, x, a. split; [exact E|].
    split; [|now apply pattern_price_yield].
    intros q v Hq Hv. eapply pattern_price_none; eauto.
  - intros (b & x & a & E & Hb & Hx). exists b, x, a. split; [exact E|].
    split; [|now apply pattern_price_yield].
    intros q Hq. destruct (before_main_pattern b x a q E Hq) as [Hg Hh].
    rewrite (pattern_price_grouped q s Hg Hh).
    destruct (reads q s) as [v|] eqn:Ev; [|reflexivity].
    now rewrite (Hb q v Hq Ev).
Qed.

(** Among patterns of which one reads a valid price there is a first. *)
Lemma first_yield_exists (patterns : list RegExp) (s : string) :
  (exists v, yields patterns s v) <-> (exists p, first_yield patterns s p).
Proof.
  split.
  - induction patterns as [|q l IH]; intros (v & x & Hx & Hr & Hv); [destruct Hx|].
    destruct (reads q s) as [w|] eqn:Ew.
    + destruct (in_range w) eqn:Er.
      * exists w, [], q, l. repeat split; auto. intros ? ? [].
      * destruct Hx as [<-|Hx]; [congruence|].
        destruct IH as (p & b & y & a & -> & Hb & Hy); [exists v, x; auto|].
        exists p, (q :: b), y, a. split; [reflexivity|]. split; [|exact Hy].
        intros q' v' [<-|Hin] Hq'; [congruence | eauto].
    + destruct Hx as [<-|Hx]; [congruence|].
      destruct IH as (p & b & y & a & -> & Hb & Hy); [exists v, x; auto|].
      exists p, (q :: b), y, a. split; [reflexivity|]. split; [|exact Hy].
      intros q' v' [<-|Hin] Hq'; [congruence | eauto].
  - intros (p & b & x & a & -> & _ & Hr & Hv). exists p, x.
    split; [apply in_elt | auto].
Qed.

(** The loop ends without a price or throws. *)
Lemma try_patterns_result (s : string) :
  (exists p, try_patterns mainPricePatterns s = Ok (Some p))
  \/ (try_patterns mainPricePatterns s = Ok None /\ ~ lone_dollar_match s)
  \/ (try_patterns mainPricePatterns s = Throw TypeError /\ lone_dollar_match s).
Proof.
  destruct mainPricePatterns_shape as (E & Hten). rewrite E. clear E.
  unfold lone_dollar_match. revert Hten. generalize (removelast mainPricePatterns).
  intro ten. induction ten as [|t l IH]; intro Hten; cbn [app try_patterns].
  - rewrite pattern_price_spec.
    destruct (js_match s (re_g dollar_price)) as [m|].
    + destruct (nth_error m 1) as [g|] eqn:En.
      * destruct (match reads (re_g dollar_price) s with
                  | Some v => if in_range v then Some v else None
                  | None => None
                  end) as [p|]; [left; eauto|].
        right. left. split; [reflexivity|]. intros (m' & [= <-] & H). congruence.
      * right. right. split; [reflexivity|]. eauto.
    + right. left. split; [reflexivity|]. intros (m' & H & _). discriminate.
  - destruct (Hten t (or_introl eq_refl)) as [Hg Hh].
    rewrite (pattern_price_grouped t s Hg Hh).
    destruct (match reads t s with
              | Some v => if in_range v then Some v else None
              | None => None
              end) as [p|]; [left; eauto|].
    apply IH. intros q Hq. apply Hten. now right.
Qed.

(** The loop fails to return a price exactly when no pattern reads a valid
    one. *)
Lemma try_patterns_fails_iff (s : string) :
  (forall p, try_patterns mainPricePatterns s <> Ok (Some p)) <-> no_pattern_yields s.
Proof.
  unfold no_pattern_yields. split.
  - intros H v Hy.
    destruct (proj1 (first_yield_exists mainPricePatterns s)) as (p & Hp); [eauto|].
    apply try_patterns_first in Hp. now apply (H p).
  - intros H p Hp. apply try_patterns_first in Hp.
    destruct (proj2 (first_yield_exists mainPricePatterns s)) as (v & Hv); [eauto|].
    now apply (H v).
Qed.

(** ** Sorting and the middle element *)

Lemma insert_sorted_perm (x : number) (l : list number) :
  Permutation (Chain.insert_sorted x l) (x :: l).
Proof.
  induction l as [|y l IH]; cbn [Chain.insert_sorted]; [reflexivity|].
  destruct (num_lt x y); [reflexivity|].
  rewrite IH. apply perm_swap.
Qed.

Lemma insert_sorted_head (x y : number) (l : list number) :
  num_le y x = true -> HdRel (fun a b => num_le a b = true) y l ->
  HdRel (fun a b => num_le a b = true) y (Chain.insert_sorted x l).
Proof.
  intros Hyx Hd. destruct l as [|z l]; cbn [Chain.insert_sorted].
  - now constructor.
  - destruct (num_lt x z); constructor; [exact Hyx | now inversion Hd].
Qed.

Lemma num_lt_false (a b : number) :
  isNaN a = false -> isNaN b = false -> num_lt a b = false -> num_le b a = true.
Proof.
  intros Ha Hb H. rewrite num_lt_spec in H.
  destruct (num_le_total a b Ha Hb) as [L|L]; [|exact L].
  rewrite L in H. cbn [andb] in H. now apply negb_false_iff in H.
Qed.

Lemma insert_sorted_ascending (x : number) (l : list number) :
  isNaN x = false -> numbers l -> ascending l -> ascending (Chain.insert_sorted x l).
Proof.
  unfold ascending, numbers. intro Hx.
  induction l as [|y l IH]; intros Hl Hs; cbn [Chain.insert_sorted].
  - repeat constructor.
  - apply Forall_cons_iff in Hl as [Hy Hl].
    destruct (num_lt x y) eqn:E.
    + constructor; [exact Hs|]. constructor. now apply num_lt_le.
    + apply Sorted_inv in Hs as [Hs Hd]. constructor; [now apply IH|].
      apply insert_sorted_head; [|exact Hd]. now apply num_lt_false.
Qed.

Lemma sort_from (l acc : list number) :
  numbers l -> numbers acc -> ascending acc ->
  ascending (fold_left (fun a x => Chain.insert_sorted x a) l acc)
  /\ Permutation (fold_left (fun a x => Chain.insert_sorted x a) l acc) (acc ++ l).
Proof.
  revert acc. induction l as [|x l IH]; intros acc Hl Hn Ha; cbn [fold_left].
  - split; [exact Ha | now rewrite app_nil_r].
  - apply Forall_cons_iff in Hl as [Hx Hl].
    assert (Hn' : numbers (Chain.insert_sorted x acc)).
    { unfold numbers. rewrite (insert_sorted_perm x acc). now constructor. }
    destruct (IH (Chain.insert_sorted x acc) Hl Hn'
                 (insert_sorted_ascending x acc Hx Hn Ha)) as [H1 H2].
    split; [exact H1|]. rewrite H2, insert_sorted_perm.
    cbn [app]. apply Permutation_middle.
Qed.

Lemma sort_perm_from (l acc : list number) :
  Permutation (fold_left (fun a x => Chain.insert_sorted x a) l acc) (acc ++ l).
Proof.
  revert acc. induction l as [|x l IH]; intros acc; cbn [fold_left].
  - now rewrite app_nil_r.
  - rewrite IH, insert_sorted_perm. cbn [app]. apply Permutation_middle.
Qed.

Lemma sort_numbers_ascending (l : list number) :
  numbers l -> ascending (Chain.sort_numbers l).
Proof. intro H. apply sort_from; [exact H | constructor | constructor]. Qed.

Lemma sort_numbers_perm (l : list number) : Permutation (Chain.sort_numbers l) l.
Proof. apply (sort_perm_from l []). Qed.


Lemma middle_nonempty (l : list number) : l <> [] -> exists p, Chain.middle l = Some p.
Proof.
  intro H. unfold Chain.middle.
  destruct (nth_error l (Nat.div2 (List.length l))) as [p|] eqn:E; [eauto|].
  apply nth_error_None in E. destruct l as [|x l]; [congruence|].
  exfalso. pose proof (Nat.lt_div2 (List.length (x :: l))) as Hlt.
  cbn [List.length] in *. lia.
Qed.

(** ** Prices the multi-strategy extractor returns *)

Lemma plausible_bounds (p : number) :
  plausible p = true <->
  num_gt p (of_Z 0) = true /\ num_lt p (of_Z 1000000) = true.
Proof. unfold plausible. apply andb_true_iff. Qed.






(** *** The line scan *)

Lemma line_prices_values (l : string) :
  Chain.line_prices Chain.linePricePatterns l = Ok (line_values l).
Proof.
  unfold line_values, Chain.linePricePatterns. cbn [Chain.line_prices flat_map].
  rewrite !pattern_price_grouped by reflexivity.
  destruct (reads (re_i (lit "US " ++ dollar_price)) l) as [v|];
    destruct (reads (re_i dollar_price) l) as [w|];
    try destruct (in_range v); try destruct (in_range w); reflexivity.
Qed.

Lemma section_open_snoc (pre : list string) (l : string) :
  section_open (pre ++ [l])
  = if names Chain.similarMarkers l then true
    else if names Chain.mainMarkers l then false
    else section_open pre.
Proof. unfold section_open. now rewrite fold_left_app. Qed.

(** The loop over the lines collects the candidates. *)
Lemma scan_lines_from (rest pre : list string) (acc : list number) :
  Chain.scan_lines rest (section_open pre) acc = Ok (acc ++ candidates_from pre rest).
Proof.
  revert pre acc. induction rest as [|l rest IH]; intros pre acc;
    cbn [Chain.scan_lines candidates_from]; [now rewrite app_nil_r|].
  cbv zeta.
  change (existsb (includes (toLowerCase l)) Chain.similarMarkers)
    with (names Chain.similarMarkers l).
  change (existsb (includes (toLowerCase l)) Chain.mainMarkers)
    with (names Chain.mainMarkers l).
  pose proof (section_open_snoc pre l) as Hs. unfold skipped.
  destruct (names Chain.similarMarkers l); cbn [orb].
  - rewrite <- Hs. apply IH.
  - destruct (names Chain.mainMarkers l); cbn [negb].
    + rewrite andb_false_r, line_prices_values, <- Hs, IH. now rewrite app_assoc.
    + rewrite andb_true_r. destruct (section_open pre) eqn:Eo.
      * rewrite <- Hs. apply IH.
      * rewrite line_prices_values, <- Hs, IH. now rewrite app_assoc.
Qed.

Lemma scan_lines_candidates (lines : list string) :
  Chain.scan_lines lines false [] = Ok (candidates lines).
Proof. apply (scan_lines_from lines [] []). Qed.

Lemma line_values_iff (l : string) (c : number) :
  In c (line_values l)
  <-> exists q, In q Chain.linePricePatterns /\ reads q l = Some c /\ in_range c = true.
Proof.
  unfold line_values. rewrite in_flat_map. split.
  - intros (q & Hq & Hc). exists q. split; [exact Hq|].
    destruct (reads q l) as [v|]; [|destruct Hc].
    destruct (in_range v) eqn:E; [|destruct Hc]. destruct Hc as [<-|[]]. auto.
  - intros (q & Hq & Hr & Hv). exists q. split; [exact Hq|].
    rewrite Hr, Hv. now left.
Qed.

(** A candidate is a valid price read on a line that is not skipped. *)
Lemma candidates_from_iff (rest pre : list string) (c : number) :
  In c (candidates_from pre rest)
  <-> exists mid l post q,
        rest = mid ++ l :: post /\ skipped (pre ++ mid) l = false
        /\ In q Chain.linePricePatterns /\ reads q l = Some c /\ in_range c = true.
Proof.
  revert pre. induction rest as [|l rest IH]; intro pre; cbn [candidates_from].
  - split; [intros [] | intros (mid & ? & ? & ? & E & _); now destruct mid].
  - rewrite in_app_iff, IH. split.
    + intros [H|(mid & l' & post & q & -> & Hs & H)].
      * destruct (skipped pre l) eqn:Es; [destruct H|].
        apply line_values_iff in H as (q & H).
        exists [], l, rest, q. rewrite app_nil_r. auto.
      * exists (l :: mid), l', post, q. split; [reflexivity|].
        rewrite <- app_assoc in Hs. auto.
    + intros ([|l0 mid] & l' & post & q & E & Hs & H).
      * injection E as <- <-. rewrite app_nil_r in Hs. left. rewrite Hs.
        apply line_values_iff. eauto.
      * injection E as <- ->. right. exists mid, l', post, q.
        split; [reflexivity|]. rewrite <- app_assoc. auto.
Qed.

Lemma candidates_numbers (lines : list string) : numbers (candidates lines).
Proof.
  apply Forall_forall. intros c Hc.
  apply candidates_from_iff in Hc as (_ & _ & _ & _ & _ & _ & _ & _ & H).
  now apply in_range_number.
Qed.

(** *** The last resort *)





(** The multi-strategy extractor, by what each source gives. *)
Lemma Chain_extractCurrentBid_spec (md : string) (ex : option Extract) :
  Chain.extractCurrentBid md ex
  = match Chain.fromJsonLd ex with
    | Some price => Ok price
    | None =>
        match try_patterns mainPricePatterns md with
        | Ok (Some price) => Ok price
        | Throw e => Throw e
        | Ok None =>
            match Chain.middle (Chain.sort_numbers (candidates (split_lines md))) with
            | Some medianPrice => Ok medianPrice
            | None =>
                match Chain.last_resort md with
                | Some price => Ok price
                | None => Throw (Error "Unable to extract current bid/price from auction.")
                end
            end
        end
    end.
Proof. unfold Chain.extractCurrentBid. now rewrite scan_lines_candidates. Qed.





(** ** First match wins, then the median *)

(** The last main pattern carries the [g] flag, so its array holds whole
    matches: with one match there is no entry at index 1 and the read throws
    before the line scan, which would have found the price, is reached. *)
Example global_pattern_single_match :
  js_match "$5" (re_g dollar_price) = Some ["$5"]
  /\ Chain.extractCurrentBid "$5" None = Throw TypeError
  /\ Simple.extractCurrentBid "$5" None = Throw TypeError
  /\ Chain.scan_lines (split_lines "$5") false [] = Ok [of_Z 5].
Proof. repeat split; vm_compute; reflexivity. Qed.

(** C3, as amended.  In both revisions the patterns are tried in their listed
    order and the result is the value read by the first pattern that reads a
    valid price ([0 < p < 1000000]), except that the multi-strategy revision
    returns an accepted JSON-LD price before it tries any pattern.  When
    JSON-LD gives no price, no pattern reads a valid price and the read of the
    last pattern does not throw, the multi-strategy revision scans the lines:
    its candidates are the valid prices read on the lines outside the
    similar-items sections, a section running from a line that names a
    similar marker up to the next line that names a main marker only; and,
    when there are candidates, it returns the element at index
    [floor (n / 2)] of the candidates in ascending order.  The single-scrape
    revision has no fallback: it throws when no pattern reads a valid
    price. *)
Theorem first_match_wins_then_median (md : string) (ex : option Extract) :
  (forall p, Chain.fromJsonLd ex = Some p -> Chain.extractCurrentBid md ex = Ok p)
  /\ (forall p,
        (exists before pattern after,
            mainPricePatterns = before ++ pattern :: after
            /\ (forall q v, In q before -> reads q md = Some v ->
                            ~ (num_gt v (of_Z 0) = true /\ num_lt v (of_Z 1000000) = true))
            /\ reads pattern md = Some p
            /\ num_gt p (of_Z 0) = true /\ num_lt p (of_Z 1000000) = true)
        <-> Simple.extractCurrentBid md ex = Ok p)
  /\ (forall p, Simple.extractCurrentBid md ex = Ok p -> Chain.fromJsonLd ex = None ->
                Chain.extractCurrentBid md ex = Ok p)
  /\ (Chain.fromJsonLd ex = None -> no_pattern_yields md -> ~ lone_dollar_match md ->
      Chain.scan_lines (split_lines md) false [] = Ok (candidates (split_lines md))
      /\ (candidates (split_lines md) <> [] ->
          exists sorted p,
            ascending sorted /\ Permutation sorted (candidates (split_lines md))
            /\ nth_error sorted (Nat.div2 (List.length sorted)) = Some p
            /\ Chain.extractCurrentBid md ex = Ok p))
  /\ (forall c, In c (candidates (split_lines md))
                <-> exists pre l post q,
                      split_lines md = pre ++ l :: post
                      /\ names Chain.similarMarkers l = false
                      /\ (section_open pre = false \/ names Chain.mainMarkers l = true)
                      /\ In q Chain.linePricePatterns /\ reads q l = Some c
                      /\ num_gt c (of_Z 0) = true /\ num_lt c (of_Z 1000000) = true)
  /\ (no_pattern_yields md -> exists e, Simple.extractCurrentBid md ex = Throw e).
Proof.
  assert (Hsimple : forall p, Simple.extractCurrentBid md ex = Ok p
                              <-> first_yield mainPricePatterns md p).
  { intro p. rewrite <- try_patterns_first. unfold Simple.extractCurrentBid.
    destruct (try_patterns mainPricePatterns md) as [[price|]|e]; split;
      try discriminate; now intros [= ->]. }
  split; [|split; [|split; [|split; [|split]]]].
  - intros p H. unfold Chain.extractCurrentBid. now rewrite H.
  - intro p. rewrite Hsimple. unfold first_yield. split.
    + intros (b & x & a & E & Hb & Hr & H0 & H1). exists b, x, a.
      split; [exact E|]. split; [|split; [exact Hr | now apply in_range_bounds]].
      intros q v Hq Hv. destruct (in_range v) eqn:Ev; [|reflexivity].
      exfalso. apply (Hb q v Hq Hv). now apply in_range_bounds.
    + intros (b & x & a & E & Hb & Hr & Hp). exists b, x, a.
      apply in_range_bounds in Hp as [H0 H1].
      split; [exact E|]. split; [|auto].
      intros q v Hq Hv Hin. apply in_range_bounds in Hin.
      rewrite (Hb q v Hq Hv) in Hin. discriminate.
  - intros p H Hj. apply Hsimple, try_patterns_first in H.
    unfold Chain.extractCurrentBid. now rewrite Hj, H.
  - intros Hj Hp Hl. split; [apply scan_lines_candidates|]. intro Hne.
    assert (Hne' : Chain.sort_numbers (candidates (split_lines md)) <> []).
    { intro E. apply Hne. apply Permutation_nil.
      rewrite <- E. apply sort_numbers_perm. }
    destruct (middle_nonempty _ Hne') as (p & Hm).
    exists (Chain.sort_numbers (candidates (split_lines md))), p.
    split; [apply sort_numbers_ascending, candidates_numbers|].
    split; [apply sort_numbers_perm|].
    split; [exact Hm|].
    rewrite Chain_extractCurrentBid_spec, Hj, Hm.
    destruct (try_patterns_result md) as [(q & Hq)|[(-> & _)|(_ & Hy)]];
      [|reflexivity|contradiction].
    now destruct (proj2 (try_patterns_fails_iff md) Hp q).
  - intro c. unfold candidates. rewrite candidates_from_iff. cbn [app].
    split.
    + intros (mid & l & post & q & E & Hs & Hq & Hr & Hv).
      exists mid, l, post, q. unfold skipped in Hs.
      apply orb_false_iff in Hs as [Hsim Hsec].
      apply in_range_bounds in Hv as [H0 H1].
      repeat split; auto.
      destruct (section_open mid); [right | now left].
      cbn [andb] in Hsec. now apply negb_false_iff in Hsec.
    + intros (pre & l & post & q & E & Hsim & Hsec & Hq & Hr & H0 & H1).
      exists pre, l, post, q. split; [exact E|].
      split; [|split; [exact Hq | split; [exact Hr | now apply in_range_bounds]]].
      unfold skipped. rewrite Hsim. cbn [orb].
      destruct Hsec as [->| ->]; [reflexivity | apply andb_false_r].
  - intro H. pose proof (proj2 (try_patterns_fails_iff md) H) as H'.
    unfold Simple.extractCurrentBid.
    destruct (try_patterns mainPricePatterns md) as [[p|]|e]; eauto.
    now destruct (H' p).
Qed.

(** The first pattern with a valid price reads 3, yet the result is the
    JSON-LD price 45: the first valid pattern does not always decide the
    result.  And the single-scrape revision throws on a text whose lines hold
    the candidates 7, 9 and 8: it does not always fall back to the line
    scan. *)
Lemma first_match_wins_then_median_counterexample :
  (try_patterns mainPricePatterns "Price: $3" = Ok (Some (of_Z 3))
   /\ Chain.extractCurrentBid "Price: $3" jsonLd_forty_five = Ok (of_Z 45))
  /\ (try_patterns mainPricePatterns four_prices = Ok None
      /\ Chain.scan_lines (split_lines four_prices) false [] = Ok [of_Z 7; of_Z 9; of_Z 8]
      /\ Simple.extractCurrentBid four_prices None
         = Throw (Error "Unable to extract current bid/price from auction"))
  /\ ~ (forall md ex p, try_patterns mainPricePatterns md = Ok (Some p) ->
                        Chain.extractCurrentBid md ex = Ok p)
  /\ ~ (forall md ex found,
          try_patterns mainPricePatterns md = Ok None ->
          Chain.scan_lines (split_lines md) false [] = Ok found -> found <> [] ->
          exists p, Simple.extractCurrentBid md ex = Ok p).
Proof.
  assert (E1 : try_patterns mainPricePatterns "Price: $3" = Ok (Some (of_Z 3)))
    by (vm_compute; reflexivity).
  assert (E2 : Chain.extractCurrentBid "Price: $3" jsonLd_forty_five = Ok (of_Z 45))
    by (vm_compute; reflexivity).
  assert (E3 : try_patterns mainPricePatterns four_prices = Ok None)
    by (vm_compute; reflexivity).
  assert (E4 : Chain.scan_lines (split_lines four_prices) false []
               = Ok [of_Z 7; of_Z 9; of_Z 8]) by (vm_compute; reflexivity).
  assert (E5 : Simple.extractCurrentBid four_prices None
               = Throw (Error "Unable to extract current bid/price from auction"))
    by (vm_compute; reflexivity).
  split; [auto|]. split; [auto|]. split.
  - intro H. specialize (H _ jsonLd_forty_five _ E1). rewrite E2 in H. discriminate.
  - intro H. destruct (H _ None _ E3 E4) as (p & Hp); [discriminate|].
    rewrite E5 in Hp. discriminate.
Qed.

(** Of the candidates 7, 9 and 8 the one at index 1 of the sorted list, 8, is
    returned; a price on a line after a similar-items marker is no
    candidate. *)
Lemma first_match_wins_then_median_witness :
  (exists sorted,
      ascending sorted /\ Permutation sorted [of_Z 7; of_Z 9; of_Z 8]
      /\ nth_error sorted 1 = Some (of_Z 8)
      /\ Chain.extractCurrentBid four_prices None = Ok (of_Z 8))
  /\ candidates (split_lines similar_then_price) = [].
Proof.
  split.
  - destruct (proj1 (proj2 (proj2 (proj2 (first_match_wins_then_median four_prices None)))))
      as (_ & H); [reflexivity | | |].
    + intros v (q & Hq & Hr & Hv). unfold mainPricePatterns in Hq. cbn [In] in Hq.
      repeat (destruct Hq as [<-|Hq]; [vm_compute in Hr; discriminate|]). destruct Hq.
    + intros (m & Hm & Hn). vm_compute in Hm. injection Hm as <-. discriminate.
    + assert (Ec : candidates (split_lines four_prices) = [of_Z 7; of_Z 9; of_Z 8])
        by (vm_compute; reflexivity).
      rewrite Ec in H. destruct H as (sorted & p & Ha & Hp & Hn & He); [discriminate|].
      exists sorted. split; [exact Ha|]. split; [exact Hp|].
      assert (E : Chain.extractCurrentBid four_prices None = Ok (of_Z 8))
        by (vm_compute; reflexivity).
      rewrite E in He. injection He as <-.
      rewrite (Permutation_length Hp) in Hn. auto.
  - vm_compute. reflexivity.
Defined.

(** ** The fallback chain *)

Section FallbackChain.

Variable extractEndTime : Z -> string -> Date.
Variable extractDetails : PageData -> Details.
Variable world : Chain.World.
Variable now : Z.






End FallbackChain.

Section ChainTheorem.

Variable extractEndTime : Z -> string -> Date.
Variable extractDetails : PageData -> Details.
Variable world : Chain.World.
Variable now : Z.




End ChainTheorem.

(** *** A run of the chain *)



(** The API record is returned although its current bid is 0. *)
Example api_record_returned_without_price :
  exists d log,
    Chain.extractAuctionData two_hours no_details priceless_world 0 listing_url = (Ok d, log)
    /\ log = [Chain.ApiLookup "123456789012"]
    /\ num_gt (currentBid d) (of_Z 0) = false.
Proof. eexists. eexists. repeat split; vm_compute; reflexivity. Qed.

(** * Further properties *)

(** ** The life of a tracked auction *)

Section Lifecycle.

Variable number_toString : number -> string.

Lemma same_standing_refl (a : Auction.t) : same_standing a a.
Proof. repeat split. Qed.

Lemma refreshed_same_standing (now : Z) (d : EbayAuctionData) (a : Auction.t) :
  same_standing (refreshed now d a) a.
Proof. repeat split. Qed.

Lemma lifecycle_same_standing (x y : Auction.t) :
  same_standing x y -> lifecycle y -> lifecycle x.
Proof.
  intros (Hid & _ & _ & Ha & Hs & Hl & Hb & _). unfold lifecycle.
  rewrite Hs, Ha, Hl, Hb, Hid. auto.
Qed.

Lemma snipe_id (now : Z) (a : Auction.t) :
  Auction.id (fst (snipe number_toString now a)) = Auction.id a.
Proof. apply (snipe_same_key number_toString). Qed.

Lemma NoDup_map_injective (l : list Auction.t) (x y : Auction.t) :
  NoDup (map Auction.id l) -> In x l -> In y l -> Auction.id x = Auction.id y -> x = y.
Proof.
  induction l as [|a l IH]; intros Hn Hx Hy E; [destruct Hx|].
  cbn [map] in Hn. apply NoDup_cons_iff in Hn as [Hnot Hn].
  destruct Hx as [<-|Hx], Hy as [<-|Hy]; auto.
  - exfalso. apply Hnot. rewrite E. now apply in_map.
  - exfalso. apply Hnot. rewrite <- E. now apply in_map.
Qed.

Lemma NoDup_map_filter (f : Auction.t -> bool) (l : list Auction.t) :
  NoDup (map Auction.id l) -> NoDup (map Auction.id (filter f l)).
Proof.
  induction l as [|a l IH]; intro Hn; cbn [filter map]; [constructor|].
  cbn [map] in Hn. apply NoDup_cons_iff in Hn as [Hnot Hn].
  destruct (f a); [|now apply IH].
  cbn [map]. constructor; [|now apply IH].
  intro Hin. apply Hnot. apply in_map_iff in Hin as (b & Eb & Hb).
  apply filter_In in Hb as [Hb _]. rewrite <- Eb. now apply in_map.
Qed.

Lemma orderly_interval (s : System) (now : Z) :
  orderly s -> orderly (handle number_toString s (Interval now)).
Proof.
  intros (Hn & Ht & Hl & Hq). cbn [handle].
  destruct (autoSnipeEnabled (ui s)); [|exact (conj Hn (conj Ht (conj Hl Hq)))].
  destruct (autoSnipeTick number_toString now (ui s)) as [st' effects] eqn:E.
  apply (tick_fst number_toString) in E as (_ & E2 & E3 & _).
  set (queued := fun a => in_window now a && bid_passes a) in *.
  assert (Hqueued : forall a, queued a = true ->
                      in_window now a = true /\ bid_passes a = true
                      /\ Auction.status a = Status.monitoring).
  { intros a H. apply andb_true_iff in H as [Hw Hp]. repeat split; auto.
    now apply in_window_iff in Hw. }
  assert (Hids : map Auction.id (auctions st') = map Auction.id (auctions (ui s))).
  { rewrite E2, map_map. apply map_ext. intro a. apply snipe_id. }
  assert (Hts : timeout_ids (mkSystem st' (timeouts s ++ scheduled effects))
                = timeout_ids s ++ map Auction.id (filter queued (auctions (ui s)))).
  { unfold timeout_ids. cbn [timeouts]. rewrite map_app, E3, map_map. reflexivity. }
  unfold orderly. rewrite Hts. cbn [ui].
  split; [now rewrite Hids|]. split; [|split].
  - apply NoDup_app; [exact Ht | now apply NoDup_map_filter |].
    intros i Hi Hin. apply in_map_iff in Hin as (a & <- & Ha).
    apply filter_In in Ha as [Ha Hw]. apply Hqueued in Hw as (_ & _ & Hs).
    apply (Hq a Ha) in Hi. congruence.
  - rewrite E2. apply Forall_map. rewrite Forall_forall in Hl |- *.
    intros a Ha. specialize (Hl a Ha).
    destruct (snipe_outcomes number_toString now a)
      as [(Hw & _ & ->)|[(Hw & _ & ->)|[(_ & He & ->)|(_ & -> & _)]]];
      [| | |exact Hl]; cbn [fst].
    + apply in_window_iff in Hw as (_ & Hs & _).
      unfold lifecycle in *. rewrite Hs in Hl. cbn. exact Hl.
    + apply in_window_iff in Hw as (_ & Hs & _).
      unfold lifecycle in *. rewrite Hs in Hl. destruct Hl as (_ & Hb & Hlast).
      cbn. rewrite Hb. split; [reflexivity|]. eexists. split; [reflexivity|].
      repeat split; auto. apply failedBid_too_low_not_placed.
    + apply eligible_iff in He as [_ Hs].
      unfold lifecycle in *. rewrite Hs in Hl. cbn. destruct Hl as (_ & Hb & Hlast).
      split; [reflexivity|]. left. auto.
  - intros a' Ha'. rewrite E2 in Ha'. apply in_map_iff in Ha' as (a & <- & Ha).
    rewrite snipe_id, in_app_iff.
    assert (Hnew : In (Auction.id a) (map Auction.id (filter queued (auctions (ui s))))
                   -> queued a = true).
    { intro Hi. apply in_map_iff in Hi as (b & Eb & Hb). apply filter_In in Hb as [Hb Hwb].
      assert (b = a) by (eapply NoDup_map_injective; eauto). now subst b. }
    destruct (snipe_outcomes number_toString now a)
      as [(Hw & Hp & ->)|[(Hw & Hp & ->)|[(Hw & He & ->)|(Hw & -> & _)]]]; cbn [fst].
    + split; [|reflexivity]. intros _. right. apply in_map. apply filter_In.
      split; [exact Ha|]. unfold queued. now rewrite Hw, Hp.
    + apply in_window_iff in Hw as (_ & Hs & _).
      split; [discriminate|]. intros [Hi|Hi].
      * apply (Hq a Ha) in Hi. congruence.
      * apply Hnew in Hi. unfold queued in Hi. rewrite Hp in Hi.
        now rewrite andb_false_r in Hi.
    + apply eligible_iff in He as [_ Hs].
      split; [discriminate|]. intros [Hi|Hi].
      * apply (Hq a Ha) in Hi. congruence.
      * apply Hnew in Hi. unfold queued in Hi. now rewrite Hw in Hi.
    + rewrite (Hq a Ha). split; [auto|]. intros [Hi|Hi]; [exact Hi|].
      apply Hnew in Hi. unfold queued in Hi. now rewrite Hw in Hi.
Qed.

Lemma orderly_timeout (s : System) (now : Z) (random : Q) :
  orderly s -> orderly (handle number_toString s (Timeout now random)).
Proof.
  intros (Hn & Ht & Hl & Hq). cbn [handle].
  destruct (timeouts s) as [|[x bid] rest] eqn:Eq;
    [exact (conj Hn (conj Ht (conj Hl Hq)))|].
  unfold timeout_ids in Ht, Hq. rewrite Eq in Ht, Hq. cbn [map fst] in Ht, Hq.
  apply NoDup_cons_iff in Ht as [Hnot Ht].
  rewrite attemptBid_never_rejects. cbv zeta.
  set (safe := Math_min bid (Auction.maxBid x)).
  set (success := num_gt (Fin random) (Fin (3 # 10))).
  set (rec := bidRecord_placed now x safe success).
  set (g := fun a => if Auction.id a =? Auction.id x then settled safe rec success a else a).
  assert (Hgid : forall a, Auction.id (g a) = Auction.id a).
  { intro a. unfold g. destruct (Auction.id a =? Auction.id x); reflexivity. }
  unfold orderly, timeout_ids. cbn [ui timeouts auctions setAuctions setBidHistory].
  split; [|split; [exact Ht|split]].
  - rewrite map_map. erewrite map_ext; [exact Hn|]. exact Hgid.
  - apply Forall_map. rewrite Forall_forall in Hl |- *.
    intros a Ha. specialize (Hl a Ha). unfold g.
    destruct (Auction.id a =? Auction.id x) eqn:E; [|exact Hl].
    apply Z.eqb_eq in E.
    assert (Hb : Auction.status a = Status.bidding).
    { apply (Hq a Ha). left. now symmetry. }
    unfold lifecycle in Hl. rewrite Hb in Hl. destruct Hl as (_ & Hh & _).
    unfold lifecycle, settled, with_bids.
    cbn [Auction.status Auction.isActive Auction.bidHistory Auction.lastBidAmount
         Auction.id].
    rewrite Hh. cbn [app].
    destruct success eqn:Es.
    + split; [reflexivity|]. exists rec. unfold rec, bidRecord_placed.
      cbn [BidRecord.success BidRecord.amount BidRecord.auctionId]. auto.
    + split; [reflexivity|]. right. exists rec. unfold rec, bidRecord_placed.
      cbn [BidRecord.success BidRecord.amount BidRecord.auctionId]. auto.
  - intros a' Ha'. apply in_map_iff in Ha' as (a & <- & Ha). rewrite Hgid.
    unfold g. destruct (Auction.id a =? Auction.id x) eqn:E.
    + apply Z.eqb_eq in E. split.
      * unfold settled, with_bids. cbn [Auction.status].
        destruct success; discriminate.
      * intro Hi. exfalso. apply Hnot. now rewrite <- E.
    + apply Z.eqb_neq in E. rewrite (Hq a Ha). cbn [In]. split; [|auto].
      intros [Hi|Hi]; [congruence | exact Hi].
Qed.

Lemma orderly_add (s : System) (demo : string -> EbayAuctionData)
  (service : string -> Result EbayAuctionData) (now : Z) :
  fresh_clock s (ClickAdd demo service now) ->
  orderly s -> orderly (handle number_toString s (ClickAdd demo service now)).
Proof.
  intros Hf (Hn & Ht & Hl & Hq). cbn [handle fresh_clock] in *.
  assert (Hfresh : ~ In now (map Auction.id (auctions (ui s))) /\ ~ In now (timeout_ids s)).
  { unfold known in Hf. rewrite map_app, map_map, in_app_iff in Hf.
    unfold timeout_ids. tauto. }
  destruct Hfresh as [Hf1 Hf2].
  destruct (addAuction_cases demo service now (ui s))
    as [(_ & E1 & _)|(_ & m & d & _ & _ & _ & _ & E1 & _)]; cbv zeta in E1;
    unfold orderly, timeout_ids in *; cbn [ui timeouts]; rewrite E1.
  - exact (conj Hn (conj Ht (conj Hl Hq))).
  - split; [|split; [exact Ht|split]].
    + rewrite map_app. cbn [map newAuction Auction.id].
      apply NoDup_app; [exact Hn | repeat constructor; intros [] |].
      intros i Hi [<-|[]]. now apply Hf1.
    + apply Forall_app. split; [exact Hl|]. repeat constructor.
    + intros a Ha. apply in_app_or in Ha as [Ha|[<-|[]]]; [now apply Hq|].
      cbn. split; [discriminate|]. intro Hi. exfalso. now apply Hf2.
Qed.

(** A refresh maps the list by a function that keeps each standing and
    changes at most the auctions with the given id. *)
Lemma refresh_frame (demo : string -> EbayAuctionData)
  (monitor : string -> Result EbayAuctionData) (now auctionId : Z) (st : State) :
  exists f,
    refreshAuctionData demo monitor now auctionId st = setAuctions (map f) st
    /\ (forall a, same_standing (f a) a)
    /\ (forall a, Auction.id a <> auctionId -> f a = a).
Proof.
  assert (Hid : forall st', st' = st ->
            exists f, st' = setAuctions (map f) st
                      /\ (forall a, same_standing (f a) a)
                      /\ (forall a, Auction.id a <> auctionId -> f a = a)).
  { intros st' ->. exists (fun a => a). split; [|split; auto using same_standing_refl].
    destruct st. unfold setAuctions. cbn. now rewrite map_id. }
  unfold refreshAuctionData.
  destruct (find _ (auctions st)) as [auction|]; [|now apply Hid].
  destruct (if demoMode st || includes (Auction.title auction) "(Demo Mode)"
            then Ok (demo (Auction.url auction)) else monitor (Auction.url auction))
    as [d|e]; [|now apply Hid].
  eexists. split; [reflexivity|]. split.
  - intro a. cbn beta. destruct (Auction.id a =? auctionId);
      [apply refreshed_same_standing | apply same_standing_refl].
  - intros a Hne. cbn beta. apply Z.eqb_neq in Hne. now rewrite Hne.
Qed.

Lemma orderly_refresh (s : System) (demo : string -> EbayAuctionData)
  (monitor : string -> Result EbayAuctionData) (now auctionId : Z) :
  orderly s -> orderly (handle number_toString s (Refresh demo monitor now auctionId)).
Proof.
  intros (Hn & Ht & Hl & Hq). cbn [handle].
  destruct (refresh_frame demo monitor now auctionId (ui s)) as (f & E & Hf & _).
  rewrite E. unfold orderly, timeout_ids in *. cbn [ui timeouts auctions setAuctions].
  split; [|split; [exact Ht|split]].
  - rewrite map_map. erewrite map_ext; [exact Hn|]. intro a. apply Hf.
  - apply Forall_map. eapply Forall_impl; [|exact Hl].
    intros a H. eapply lifecycle_same_standing; [apply Hf | exact H].
  - intros a' Ha'. apply in_map_iff in Ha' as (a & <- & Ha).
    destruct (Hf a) as (-> & _ & _ & _ & -> & _). now apply Hq.
Qed.

Lemma orderly_remove (s : System) (id : Z) :
  orderly s -> orderly (handle number_toString s (ClickRemove id)).
Proof.
  intros (Hn & Ht & Hl & Hq). cbn [handle].
  unfold orderly, timeout_ids in *. cbn [ui timeouts removeAuction setAuctions auctions].
  split; [|split; [exact Ht|split]].
  - now apply NoDup_map_filter.
  - rewrite Forall_forall in Hl |- *. intros a Ha. apply filter_In in Ha as [Ha _]. auto.
  - intros a Ha. apply filter_In in Ha as [Ha _]. now apply Hq.
Qed.

Lemma reachable_orderly (s : System) : reachable number_toString s -> orderly s.
Proof.
  induction 1 as [|s e Hr IH Hf].
  - unfold orderly, timeout_ids. cbn.
    repeat split; try constructor; try discriminate; try contradiction.
  - destruct e.
    + now apply orderly_interval.
    + now apply orderly_timeout.
    + now apply orderly_add.
    + now apply orderly_refresh.
    + now apply orderly_remove.
    + exact IH.
    + exact IH.
    + exact IH.
    + exact IH.
Qed.

(** *** Ids are clock readings *)

Lemma run_snoc (events : list Event) (e : Event) :
  run number_toString (events ++ [e])
  = handle number_toString (run number_toString events) e.
Proof. unfold run. now rewrite fold_left_app. Qed.

Lemma add_clocks_snoc (events : list Event) (e : Event) :
  add_clocks (events ++ [e])
  = add_clocks events ++ match e with ClickAdd _ _ now => [now] | _ => [] end.
Proof. unfold add_clocks. rewrite flat_map_app. cbn. now rewrite app_nil_r. Qed.

(** An event brings no id into the system but the clock reading of an
    addition. *)
Lemma handle_known_ids (s : System) (e : Event) (i : Z) :
  In i (map Auction.id (known (handle number_toString s e))) ->
  In i (map Auction.id (known s))
  \/ In i match e with ClickAdd _ _ now => [now] | _ => [] end.
Proof.
  unfold known. destruct e; cbn [handle ui timeouts]; auto.
  - destruct (autoSnipeEnabled (ui s)); [|auto].
    destruct (autoSnipeTick number_toString now (ui s)) as [st' effects] eqn:E.
    apply (tick_fst number_toString) in E as (_ & E2 & E3 & _).
    cbn [ui timeouts]. rewrite E2, E3, !map_app, !map_map, !in_app_iff. cbn [fst].
    intros [H|[H|H]]; left.
    + left. apply in_map_iff in H as (a & <- & Ha). rewrite snipe_id. now apply in_map.
    + now right.
    + left. apply in_map_iff in H as (a & <- & Ha). apply filter_In in Ha as [Ha _].
      now apply in_map.
  - destruct (timeouts s) as [|[x bid] rest] eqn:Eq; [rewrite Eq; auto|].
    rewrite attemptBid_never_rejects. cbv zeta.
    cbn [ui timeouts auctions setAuctions setBidHistory].
    rewrite !map_app, !map_map, !in_app_iff. cbn [map fst]. intros [H|H]; left.
    + left. apply in_map_iff in H as (a & <- & Ha).
      destruct (Auction.id a =? Auction.id x); [apply (in_map Auction.id _ a Ha)|].
      now apply in_map.
    + right. right. exact H.
  - destruct (addAuction_cases generateDemoAuctionData service now (ui s))
      as [(_ & E1 & _)|(_ & m & d & _ & _ & _ & _ & E1 & _)]; cbv zeta in E1;
      rewrite E1; [auto|].
    rewrite !map_app, !in_app_iff. cbn [map newAuction Auction.id In].
    tauto.
  - destruct (refresh_frame generateDemoAuctionData monitorAuction now auctionId (ui s))
      as (f & E & Hf & _).
    rewrite E. cbn [auctions setAuctions]. rewrite !map_app, !map_map, !in_app_iff.
    intros [H|H]; left; [left | now right].
    apply in_map_iff in H as (a & <- & Ha). rewrite (proj1 (Hf a)). now apply in_map.
  - cbn [removeAuction auctions setAuctions]. rewrite !map_app, !in_app_iff.
    intros [H|H]; left; [left | now right].
    apply in_map_iff in H as (a & <- & Ha). apply filter_In in Ha as [Ha _].
    now apply in_map.
Qed.

Lemma run_known_ids (events : list Event) (i : Z) :
  In i (map Auction.id (known (run number_toString events))) -> In i (add_clocks events).
Proof.
  induction events as [|e l IH] using rev_ind; [intros []|].
  rewrite run_snoc, add_clocks_snoc, in_app_iff. intro H.
  apply handle_known_ids in H as [H|H]; auto.
Qed.

(** When no two additions happen at the same clock reading, every new
    auction gets an unused id. *)
Lemma distinct_adds_reachable (events : list Event) :
  NoDup (add_clocks events) -> reachable number_toString (run number_toString events).
Proof.
  induction events as [|e l IH] using rev_ind; intro Hn; [apply reachable_init|].
  rewrite run_snoc. rewrite add_clocks_snoc in Hn.
  apply reachable_step.
  - apply IH. destruct e; rewrite ?app_nil_r in Hn; auto.
    now apply NoDup_remove_1 in Hn; rewrite app_nil_r in Hn.
  - destruct e; cbn [fresh_clock]; auto.
    intro Hin. apply run_known_ids in Hin.
    apply NoDup_remove_2 in Hn. rewrite app_nil_r in Hn. contradiction.
Qed.

(** *** The activity flag *)

Lemma handle_active_by_status (s : System) (e : Event) :
  Forall active_by_status (auctions (ui s)) ->
  Forall active_by_status (auctions (ui (handle number_toString s e))).
Proof.
  intro H. destruct e; cbn [handle ui]; auto.
  - destruct (autoSnipeEnabled (ui s)); [|exact H].
    destruct (autoSnipeTick number_toString now (ui s)) as [st' effects] eqn:E.
    apply (tick_fst number_toString) in E as (_ & E2 & _).
    cbn [ui]. rewrite E2. apply Forall_map. eapply Forall_impl; [|exact H].
    intros a Ha.
    destruct (snipe_outcomes number_toString now a)
      as [(Hw & _ & ->)|[(_ & _ & ->)|[(_ & _ & ->)|(_ & -> & _)]]];
      [|reflexivity|reflexivity|exact Ha].
    apply in_window_iff in Hw as (Hact & _). unfold active_by_status. cbn. exact Hact.
  - destruct (timeouts s) as [|[x bid] rest]; [exact H|].
    rewrite attemptBid_never_rejects. cbv zeta.
    cbn [ui auctions setAuctions setBidHistory].
    apply Forall_map. eapply Forall_impl; [|exact H].
    intros a Ha. destruct (Auction.id a =? Auction.id x); [|exact Ha].
    unfold active_by_status, settled, with_bids. cbn [Auction.isActive Auction.status].
    now destruct (num_gt (Fin random) (Fin (3 # 10))).
  - destruct (addAuction_cases generateDemoAuctionData service now (ui s))
      as [(_ & E1 & _)|(_ & m & d & _ & _ & _ & _ & E1 & _)]; cbv zeta in E1;
      rewrite E1; [exact H|].
    apply Forall_app. split; [exact H|]. now constructor.
  - destruct (refresh_frame generateDemoAuctionData monitorAuction now auctionId (ui s))
      as (f & E & Hf & _).
    rewrite E. cbn [auctions setAuctions]. apply Forall_map.
    eapply Forall_impl; [|exact H]. intros a Ha.
    destruct (Hf a) as (_ & _ & _ & Hact & Hs & _).
    unfold active_by_status in *. now rewrite Hact, Hs.
  - cbn [removeAuction auctions setAuctions].
    apply Forall_forall. intros a Ha. apply filter_In in Ha as [Ha _].
    rewrite Forall_forall in H. now apply H.
Qed.

Lemma run_active_by_status (events : list Event) :
  Forall active_by_status (auctions (ui (run number_toString events))).
Proof.
  induction events as [|e l IH] using rev_ind; [constructor|].
  rewrite run_snoc. now apply handle_active_by_status.
Qed.

End Lifecycle.

Section LifecycleTheorems.

Variable number_toString : number -> string.

(** X1.  The sniper files at most one record per auction.  In every run of
    the dashboard in which no two auctions are added at the same clock
    reading (the reading is the id the auction gets), the own history of a
    tracked auction holds at most one record, and that record carries the
    auction's id.  When the record succeeded the auction is [won]; when it
    failed, either it is a placed bid, the auction is [lost] and
    [lastBidAmount] is its amount, or it is the timer's refusal with the
    amount 0, the auction is in status [error] and no bid was placed.  An
    auction is [won] exactly when its history is one successful record. *)
Theorem at_most_one_bid (events : list Event) (a : Auction.t) :
  NoDup (add_clocks events) -> In a (auctions (ui (run number_toString events))) ->
  (List.length (Auction.bidHistory a) <= 1)%nat
  /\ (forall r, In r (Auction.bidHistory a) ->
        Auction.bidHistory a = [r]
        /\ BidRecord.auctionId r = Auction.id a
        /\ (BidRecord.success r = true ->
            Auction.status a = Status.won
            /\ Auction.lastBidAmount a = Some (BidRecord.amount r))
        /\ (BidRecord.success r = false ->
            (Auction.status a = Status.lost
             /\ Auction.lastBidAmount a = Some (BidRecord.amount r))
            \/ (Auction.status a = Status.error /\ ~ placed r
                /\ BidRecord.amount r = of_Z 0 /\ Auction.lastBidAmount a = None)))
  /\ (Auction.status a = Status.won <->
      exists r, Auction.bidHistory a = [r] /\ BidRecord.success r = true).
Proof.
  intros Hd Ha.
  pose proof (distinct_adds_reachable number_toString events Hd) as Hr.
  destruct (reachable_orderly number_toString _ Hr) as (_ & _ & Hl & _).
  rewrite Forall_forall in Hl. specialize (Hl a Ha). unfold lifecycle in Hl.
  destruct (Auction.status a) eqn:Es.
  - destruct Hl as (_ & -> & _). split; [cbn; lia|]. split; [intros r []|].
    split; [discriminate | intros (r & H & _); discriminate].
  - destruct Hl as (_ & -> & _). split; [cbn; lia|]. split; [intros r []|].
    split; [discriminate | intros (r & H & _); discriminate].
  - destruct Hl as (_ & r & Hh & Hs & Hlast & Hid). rewrite Hh.
    split; [cbn; lia|]. split.
    + intros r' [<-|[]]. repeat split; auto. congruence.
    + split; [intros _; now exists r | reflexivity].
  - destruct Hl as (_ & [(-> & _)|(r & Hh & Hs & Hlast & Hid)]).
    + split; [cbn; lia|]. split; [intros r []|].
      split; [discriminate | intros (r & H & _); discriminate].
    + rewrite Hh. split; [cbn; lia|]. split.
      * intros r' [<-|[]]. repeat split; auto; congruence.
      * split; [discriminate|]. intros (r' & [= <-] & H). congruence.
  - destruct Hl as (_ & r & Hh & Hs & Hz & Hp & Hlast & Hid). rewrite Hh.
    split; [cbn; lia|]. split.
    + intros r' [<-|[]]. repeat split; auto; congruence.
    + split; [discriminate|]. intros (r' & [= <-] & H). congruence.
Qed.

(** X2.  The activity flag follows the status.  In every run of the
    dashboard a tracked auction is active exactly when it is [monitoring] or
    [bidding], and inactive exactly when it is [won], [lost] or in status
    [error]. *)
Theorem activity_follows_status (events : list Event) (a : Auction.t) :
  In a (auctions (ui (run number_toString events))) ->
  (Auction.isActive a = true <->
   Auction.status a = Status.monitoring \/ Auction.status a = Status.bidding)
  /\ (Auction.isActive a = false <->
      Auction.status a = Status.won \/ Auction.status a = Status.lost
      \/ Auction.status a = Status.error).
Proof.
  intro Ha. pose proof (run_active_by_status number_toString events) as H.
  rewrite Forall_forall in H. specialize (H a Ha). unfold active_by_status in H.
  rewrite H. destruct (Auction.status a); split; split; auto; try discriminate;
    intros [E|E]; try discriminate; destruct E; discriminate.
Qed.

(** X3.  No auction is stuck in [bidding] and no bid is queued twice.  In
    every run of the dashboard in which no two auctions are added at the
    same clock reading, the queued bids are for distinct ids, and a tracked
    auction is in status [bidding] exactly when a bid for its id is in the
    queue. *)
Theorem bidding_iff_queued (events : list Event) :
  NoDup (add_clocks events) ->
  NoDup (timeout_ids (run number_toString events))
  /\ (forall a, In a (auctions (ui (run number_toString events))) ->
        (Auction.status a = Status.bidding
         <-> In (Auction.id a) (timeout_ids (run number_toString events)))).
Proof.
  intro Hd. pose proof (distinct_adds_reachable number_toString events Hd) as Hr.
  destruct (reachable_orderly number_toString _ Hr) as (_ & H2 & _ & H4).
  auto.
Qed.

End LifecycleTheorems.

Lemma sample_adds_distinct : NoDup (add_clocks sample_events).
Proof. vm_compute. repeat constructor. intros []. Qed.

(** The auction won in the sample session has exactly its winning record. *)
Lemma at_most_one_bid_witness :
  exists a, In a (auctions (ui sample_final))
            /\ Auction.bidHistory a = [sample_record]
            /\ Auction.status a = Status.won.
Proof.
  exists (settled (of_Z 101) sample_record true sample_auction).
  assert (Hin : In (settled (of_Z 101) sample_record true sample_auction)
                   (auctions (ui sample_final))) by (vm_compute; left; reflexivity).
  destruct (at_most_one_bid sample_toString sample_events _ sample_adds_distinct Hin)
    as (_ & H & _).
  destruct (H sample_record) as (Hh & _ & Hw & _); [vm_compute; left; reflexivity|].
  split; [exact Hin|]. split; [exact Hh | apply Hw; reflexivity].
Defined.

(** After the timer fired, the sample auction is active and [bidding]. *)
Lemma activity_follows_status_witness :
  Auction.isActive (set_bidding sample_auction) = true.
Proof.
  assert (Hin : In (set_bidding sample_auction)
                   (auctions (ui (run sample_toString (firstn 5 sample_events)))))
    by (vm_compute; left; reflexivity).
  destruct (activity_follows_status sample_toString (firstn 5 sample_events) _ Hin)
    as (H & _).
  apply H. right. reflexivity.
Defined.

(** After the timer fired, the bid of the sample auction is in the queue. *)
Lemma bidding_iff_queued_witness : In 1000 (timeout_ids sample_queued).
Proof.
  assert (Hin : In (set_bidding sample_auction) (auctions (ui sample_queued)))
    by (vm_compute; left; reflexivity).
  assert (Hd : NoDup (add_clocks (firstn 5 sample_events)))
    by (vm_compute; repeat constructor; intros []).
  destruct (bidding_iff_queued sample_toString (firstn 5 sample_events) Hd)
    as (_ & H).
  apply (proj1 (H _ Hin)). reflexivity.
Defined.

(** ** The bid history *)

Section History.

Variable number_toString : number -> string.

Lemma placedb_iff (r : BidRecord.t) : placedb r = true <-> placed r.
Proof.
  unfold placedb, placed. destruct (BidRecord.reason r) as [x|].
  - rewrite String.eqb_eq. split; [intros ->; now right|].
    intros [H|H]; [discriminate | now injection H].
  - split; auto.
Qed.

Lemma tick_refusals (now : Z) (st : State) :
  Forall (timer_refusal number_toString)
         (pushed (snd (autoSnipeTick number_toString now st)))
  /\ filter placedb (pushed (snd (autoSnipeTick number_toString now st))) = [].
Proof.
  rewrite tick_pushed. induction (auctions st) as [|a l [IH1 IH2]]; [now split|].
  cbn [filter]. destruct (in_window now a && negb (bid_passes a)) eqn:E; [|now split].
  apply andb_true_iff in E as [Hw Hp]. apply negb_true_iff in Hp.
  cbn [map filter]. split.
  - constructor; [|exact IH1]. now exists now, a.
  - destruct (placedb (failedBid_too_low number_toString now a)) eqn:Ep; [|exact IH2].
    apply placedb_iff in Ep. now apply failedBid_too_low_not_placed in Ep.
Qed.

Lemma handle_bidHistory (s : System) (e : Event) :
  exists more,
    bidHistory (ui (handle number_toString s e)) = bidHistory (ui s) ++ more
    /\ Forall (fun r => placed r \/ timer_refusal number_toString r) more
    /\ (List.length (filter placedb more) <= if is_timeout e then 1 else 0)%nat.
Proof.
  assert (Hid : forall s', bidHistory (ui s') = bidHistory (ui s) ->
                exists more,
                  bidHistory (ui s') = bidHistory (ui s) ++ more
                  /\ Forall (fun r => placed r \/ timer_refusal number_toString r) more
                  /\ (List.length (filter placedb more)
                      <= if is_timeout e then 1 else 0)%nat).
  { intros s' ->. exists []. rewrite app_nil_r. repeat split; [constructor|cbn; lia]. }
  destruct e; cbn [handle]; try (apply Hid; reflexivity).
  - destruct (autoSnipeEnabled (ui s)); [|apply Hid; reflexivity].
    destruct (tick_refusals now (ui s)) as [H1 H2].
    pose proof (tick_bidHistory number_toString now (ui s)) as H.
    destruct (autoSnipeTick number_toString now (ui s)) as [st' effects].
    cbn [fst snd] in *. exists (pushed effects). cbn [ui]. split; [exact H|].
    split; [|rewrite H2; cbn; lia].
    eapply Forall_impl; [|exact H1]. now right.
  - destruct (timeouts s) as [|[auction bidAmount] rest]; [apply Hid; reflexivity|].
    rewrite attemptBid_never_rejects. cbv zeta. eexists. split; [reflexivity|].
    split; [constructor; [left; apply bidRecord_placed_placed | constructor]|].
    cbn [filter]. destruct (placedb _); cbn; lia.
  - apply Hid.
    destruct (addAuction_cases generateDemoAuctionData service now (ui s))
      as [(_ & _ & E)|(_ & m & d & _ & _ & _ & _ & _ & E)]; exact E.
  - apply Hid.
    apply (refresh_auctions generateDemoAuctionData monitorAuction now auctionId (ui s)).
Qed.

(** X4.  The global bid history only grows: after any sequence of events
    from any state, the history is the earlier history followed by new
    records.  Each new record is either the record of a simulated placement,
    or the refusal the timer files for an auction in its window whose bid
    fails the test against the maximum; the refusal of [attemptBid] is never
    recorded.  There is at most one new placement per firing of a queued
    bid. *)
Theorem bidHistory_append_only (events : list Event) (s : System) :
  exists more,
    bidHistory (ui (fold_left (handle number_toString) events s))
    = bidHistory (ui s) ++ more
    /\ Forall (fun r => placed r \/ timer_refusal number_toString r) more
    /\ (List.length (filter placedb more) <= fired events)%nat.
Proof.
  revert s. induction events as [|e l IH]; intro s.
  - exists []. rewrite app_nil_r. repeat split; [constructor | cbn; lia].
  - cbn [fold_left].
    destruct (IH (handle number_toString s e)) as (m2 & E2 & P2 & L2).
    destruct (handle_bidHistory s e) as (m1 & E1 & P1 & L1).
    exists (m1 ++ m2). rewrite E2, E1, app_assoc. split; [reflexivity|].
    split; [apply Forall_app; auto|].
    rewrite filter_app, length_app. unfold fired in *. cbn [filter].
    destruct (is_timeout e); cbn [List.length]; lia.
Qed.

Lemma handle_filed (s : System) (e : Event) :
  filed number_toString s -> filed number_toString (handle number_toString s e).
Proof.
  intros [Hp Hf]. split.
  - destruct (handle_bidHistory s e) as (more & -> & P & _).
    apply Forall_app. auto.
  - destruct e; cbn [handle]; try exact Hf.
    + (* Interval *)
      destruct (autoSnipeEnabled (ui s)); [|exact Hf].
      destruct (autoSnipeTick number_toString now (ui s)) as [st' effects] eqn:E.
      apply tick_fst in E as (E1 & E2 & _ & E4). cbn [ui]. rewrite E1, E2, E4.
      intros a r Ha Hr. apply in_map_iff in Ha as (a0 & <- & Ha0).
      rewrite (proj1 (snipe_same_key number_toString now a0)). rewrite snipe_history in Hr.
      rewrite in_app_iff in Hr |- *. destruct Hr as [Hr|Hr].
      * destruct (Hf a0 r Ha0 Hr). auto.
      * rewrite (proj2 (snipe_scheduled number_toString now a0)) in Hr.
        destruct (in_window now a0 && negb (bid_passes a0)) eqn:Ew; [|destruct Hr].
        destruct Hr as [<-|[]]. split; [|reflexivity].
        right. apply in_map. apply filter_In. auto.
    + (* Timeout *)
      destruct (timeouts s) as [|[auction bidAmount] rest]; [exact Hf|].
      rewrite attemptBid_never_rejects. cbv zeta.
      cbn [ui bidHistory auctions setAuctions setBidHistory].
      intros a r Ha Hr. apply in_map_iff in Ha as (a0 & <- & Ha0).
      destruct (Auction.id a0 =? Auction.id auction) eqn:Ei.
      * unfold settled, with_bids in Hr |- *.
        cbn [Auction.bidHistory Auction.id] in Hr |- *.
        apply in_app_iff in Hr as [Hr|[<-|[]]].
        -- destruct (Hf a0 r Ha0 Hr). split; [apply in_or_app; now left | assumption].
        -- split; [apply in_or_app; right; now left|].
           cbn. symmetry. now apply Z.eqb_eq.
      * destruct (Hf a0 r Ha0 Hr). split; [apply in_or_app; now left | assumption].
    + (* ClickAdd *)
      destruct (addAuction_cases generateDemoAuctionData service now (ui s))
        as [(_ & E1 & E2)|(_ & m & d & _ & _ & _ & _ & E1 & E2)];
        cbv zeta in E1, E2; cbn [ui]; rewrite E1, E2; [exact Hf|].
      intros a r Ha Hr. apply in_app_iff in Ha as [Ha|[<-|[]]]; [now apply Hf|].
      destruct Hr.
    + (* Refresh *)
      destruct (refresh_auctions generateDemoAuctionData monitorAuction now auctionId (ui s))
        as (E1 & f & E2 & Hsb).
      cbn [ui]. rewrite E1, E2.
      intros a r Ha Hr. apply in_map_iff in Ha as (a0 & <- & Ha0).
      destruct (Hsb a0) as (Hi & _ & Hh). rewrite Hh in Hr. rewrite Hi. now apply Hf.
    + (* ClickRemove *)
      cbn [ui removeAuction setAuctions bidHistory auctions].
      intros a r Ha Hr. apply filter_In in Ha as [Ha _]. now apply Hf.
Qed.

(** X5.  An auction's own history agrees with the global one.  After any
    sequence of events from the initial state, every record in the history of
    a tracked auction is also in the global bid history and carries that
    auction's id.  It is either the record of a simulated placement, whose
    reason is absent or is the outbid message, or the refusal the timer
    files for an auction in its window whose bid fails the test against the
    maximum; the refusal of [attemptBid] is never recorded. *)
Theorem own_history_in_global (events : list Event) (a : Auction.t) (r : BidRecord.t) :
  In a (auctions (ui (run number_toString events))) ->
  In r (Auction.bidHistory a) ->
  In r (bidHistory (ui (run number_toString events)))
  /\ BidRecord.auctionId r = Auction.id a
  /\ (placed r \/ timer_refusal number_toString r).
Proof.
  assert (H : forall l s, filed number_toString s ->
                          filed number_toString (fold_left (handle number_toString) l s)).
  { induction l as [|e l IH]; intros s Hs; [exact Hs|].
    cbn [fold_left]. apply IH, handle_filed, Hs. }
  intros Ha Hr.
  destruct (H events (mkSystem initial [])) as [Hp Hf].
  { split; [constructor | intros ? ? []]. }
  destruct (Hf a r Ha Hr) as [Hin Hid]. repeat split; auto.
  rewrite Forall_forall in Hp. now apply Hp.
Qed.

(** X6.  Removing an auction does not cancel its queued bid.  [removeAuction]
    drops every auction with the given id, keeps the others in order, and
    leaves the bid history and the timer queue alone; when the queued bid of
    the removed auction then fires, the tracked auctions are unchanged and a
    record with the removed auction's id is still appended to the global
    history. *)
Theorem remove_keeps_queued_bid (s : System) (id : Z) :
  let s1 := handle number_toString s (ClickRemove id) in
  auctions (ui s1) = filter (fun a => negb (Auction.id a =? id)) (auctions (ui s))
  /\ (forall a, In a (auctions (ui s1)) <-> In a (auctions (ui s)) /\ Auction.id a <> id)
  /\ bidHistory (ui s1) = bidHistory (ui s)
  /\ timeouts s1 = timeouts s
  /\ forall now random auction bidAmount rest,
       timeouts s = (auction, bidAmount) :: rest -> Auction.id auction = id ->
       let s2 := handle number_toString s1 (Timeout now random) in
       auctions (ui s2) = auctions (ui s1)
       /\ timeouts s2 = rest
       /\ exists r, bidHistory (ui s2) = bidHistory (ui s) ++ [r]
                    /\ BidRecord.auctionId r = id
                    /\ BidRecord.amount r = Math_min bidAmount (Auction.maxBid auction).
Proof.
  cbv zeta. cbn [handle ui timeouts removeAuction setAuctions auctions bidHistory].
  split; [reflexivity|]. split.
  { intro a. rewrite filter_In. rewrite negb_true_iff, Z.eqb_neq. reflexivity. }
  split; [reflexivity|]. split; [reflexivity|].
  intros now random auction bidAmount rest -> Hid.
  rewrite attemptBid_never_rejects. cbv zeta.
  cbn [ui timeouts setAuctions setBidHistory auctions bidHistory].
  split; [|split; [reflexivity|]].
  - rewrite Hid. unfold removeAuction. cbn [setAuctions auctions].
    induction (auctions (ui s)) as [|a l IH]; [reflexivity|].
    cbn [filter]. destruct (Auction.id a =? id) eqn:E; cbn [negb]; [exact IH|].
    cbn [map]. rewrite E. f_equal. exact IH.
  - eexists. split; [reflexivity|]. split; [exact Hid | reflexivity].
Qed.

End History.

Lemma own_history_in_global_witness :
  In sample_record (bidHistory (ui sample_final))
  /\ BidRecord.auctionId sample_record = 1000
  /\ (placed sample_record \/ timer_refusal sample_toString sample_record).
Proof.
  apply (own_history_in_global sample_toString sample_events
           (settled (of_Z 101) sample_record true sample_auction) sample_record).
  - vm_compute. left. reflexivity.
  - vm_compute. left. reflexivity.
Defined.

(** The sample auction is removed while its bid is queued; the bid still
    lands in the global history. *)
Lemma remove_keeps_queued_bid_witness :
  let s1 := handle sample_toString sample_queued (ClickRemove 1000) in
  let s2 := handle sample_toString s1 (Timeout 3001 (1 # 2)) in
  auctions (ui s2) = []
  /\ exists r, bidHistory (ui s2) = [r] /\ BidRecord.auctionId r = 1000.
Proof.
  cbv zeta.
  destruct (remove_keeps_queued_bid sample_toString sample_queued 1000)
    as (_ & _ & _ & _ & H).
  destruct (H 3001 (1 # 2) sample_auction (of_Z 101) []) as (Ha & _ & r & Hr & Hid & _).
  - reflexivity.
  - reflexivity.
  - split; [rewrite Ha; reflexivity|]. exists r. split; [exact Hr | exact Hid].
Defined.

(** ** Refreshing, and bidding on an auction already out of reach *)

Section RefreshAndReach.

Variable number_toString : number -> string.

Lemma Forall2_map_l {A : Type} (R : A -> A -> Prop) (f : A -> A) (l : list A) :
  (forall a, R (f a) a) -> Forall2 R (map f l) l.
Proof. intro H. induction l; cbn; constructor; auto. Qed.

(** X7.  A refresh only touches the listing data of the auction asked for.
    The tracked auctions keep their number and order; each keeps its id, URL,
    maximum, activity flag, status, last bid, history and item id, and an
    auction with another id is left as it is; the bid history and the inputs
    are untouched.  With no auction of that id, or when the data source
    throws, the state is unchanged.  In demo mode the service is not
    consulted. *)
Theorem refresh_keeps_standing (demo : string -> EbayAuctionData)
  (monitor : string -> Result EbayAuctionData) (now auctionId : Z) (st : State) :
  let st' := refreshAuctionData demo monitor now auctionId st in
  Forall2 (fun a' a => same_standing a' a /\ (Auction.id a <> auctionId -> a' = a))
          (auctions st') (auctions st)
  /\ bidHistory st' = bidHistory st
  /\ newAuctionUrl st' = newAuctionUrl st /\ newMaxBid st' = newMaxBid st
  /\ demoMode st' = demoMode st /\ autoSnipeEnabled st' = autoSnipeEnabled st
  /\ ((forall a, In a (auctions st) -> Auction.id a <> auctionId) -> st' = st)
  /\ (demoMode st = false ->
      (forall a, In a (auctions st) -> includes (Auction.title a) "(Demo Mode)" = false) ->
      (forall url, exists e, monitor url = Throw e) -> st' = st)
  /\ (demoMode st = true ->
      forall monitor', refreshAuctionData demo monitor' now auctionId st = st').
Proof.
  cbv zeta.
  destruct (refresh_frame demo monitor now auctionId st) as (f & E & Hs & Hn).
  split; [|split; [|split; [|split; [|split; [|split; [|split; [|split]]]]]]];
    try (rewrite E; destruct st; reflexivity).
  - rewrite E. destruct st. cbn [auctions setAuctions].
    apply Forall2_map_l. intro a. split; [apply Hs | apply Hn].
  - intro H. unfold refreshAuctionData.
    destruct (find _ (auctions st)) as [a|] eqn:F; [|reflexivity].
    apply find_some in F as [Hin Hid]. apply Z.eqb_eq in Hid.
    now destruct (H a Hin).
  - intros Hd Ht Hm. unfold refreshAuctionData.
    destruct (find _ (auctions st)) as [a|] eqn:F; [|reflexivity].
    apply find_some in F as [Hin _]. rewrite Hd, (Ht a Hin). cbn [orb].
    destruct (Hm (Auction.url a)) as [e ->]. reflexivity.
  - intros Hd monitor'. unfold refreshAuctionData. rewrite Hd. reflexivity.
Qed.

Lemma outpriced_optimalBid (a : Auction.t) :
  num_le (Auction.maxBid a) (Auction.currentBid a) = true ->
  optimalBid a = Auction.maxBid a /\ isNaN (Auction.maxBid a) = false
  /\ bid_passes a = true.
Proof.
  unfold bid_passes, optimalBid, Math_min.
  destruct (Auction.maxBid a) as [| |m|], (Auction.currentBid a) as [| |c|];
    cbn; try discriminate; try (repeat split; reflexivity);
    try (intros _; repeat split; apply Qle_bool_iff, Qle_refl).
  intro H. pose proof H as H'. apply Qle_bool_iff in H.
  destruct (Qle_bool (c + 1) m) eqn:E.
  - apply Qle_bool_iff in E. exfalso.
    apply (Qlt_irrefl c). apply Qlt_le_trans with (c + 1)%Q.
    + rewrite <- (Qplus_0_r c) at 1. apply Qplus_lt_r. reflexivity.
    + now apply Qle_trans with m.
  - repeat split. apply Qle_bool_iff, Qle_refl.
Qed.

(** X8.  A listing that has outrun the maximum is still bid on.  The refusal
    for a maximum lower than the current bid is not issued for it: when the
    last three seconds begin on a monitored auction whose current bid has
    reached or passed its maximum, the timer queues a bid of exactly the
    maximum, and when that bid fires the auction takes it as its last bid and
    is marked won whenever the random draw exceeds 0.3. *)
Theorem outpriced_auction_still_bid (now : Z) (a : Auction.t) :
  in_window now a = true ->
  num_le (Auction.maxBid a) (Auction.currentBid a) = true ->
  snipe number_toString now a
  = (set_bidding a, [SetTimeout_attemptBid a (Auction.maxBid a)])
  /\ forall now' random st a',
       In a' (auctions (attemptBid number_toString now' random a (Auction.maxBid a) st)) ->
       Auction.id a' = Auction.id a ->
       Auction.lastBidAmount a' = Some (Auction.maxBid a)
       /\ (num_gt (Fin random) (Fin (3 # 10)) = true -> Auction.status a' = Status.won)
       /\ (num_gt (Fin random) (Fin (3 # 10)) = false -> Auction.status a' = Status.lost).
Proof.
  intros Hw Hp. destruct (outpriced_optimalBid a Hp) as (Ho & Hn & Hb). split.
  - rewrite (snipe_in_window number_toString now a Hw), Hb, Ho. reflexivity.
  - intros now' random st a' Hin Hid.
    rewrite attemptBid_never_rejects in Hin. cbv zeta in Hin.
    cbn [auctions setAuctions setBidHistory] in Hin.
    apply in_map_iff in Hin as (a0 & <- & _).
    destruct (Auction.id a0 =? Auction.id a) eqn:E.
    + unfold settled, with_bids. cbn [Auction.lastBidAmount Auction.status].
      rewrite (Math_min_cases _ _ Hn Hn), (num_le_refl _ Hn).
      split; [reflexivity|]. split; intros ->; reflexivity.
    + apply Z.eqb_neq in E. contradiction.
Qed.

End RefreshAndReach.

(** A refresh for an id nobody has leaves the sample state as it is. *)
Lemma refresh_keeps_standing_witness :
  refreshAuctionData sample_demo sample_service 4000 5 (ui sample_final) = ui sample_final.
Proof.
  destruct (refresh_keeps_standing sample_demo sample_service 4000 5 (ui sample_final))
    as (_ & _ & _ & _ & _ & _ & H & _).
  apply H. intros a [<-|[]]. vm_compute. discriminate.
Defined.

(** A camera at 200 with a maximum of 150 is bid at 150 and can be won. *)
Lemma outpriced_auction_still_bid_witness :
  snipe sample_toString 4000 sample_outpriced
  = (set_bidding sample_outpriced, [SetTimeout_attemptBid sample_outpriced (of_Z 150)]).
Proof.
  apply (outpriced_auction_still_bid sample_toString 4000 sample_outpriced);
    reflexivity.
Defined.

(** ** Capture groups *)

Lemma all_ascii_complete (c : ascii) : In c all_ascii.
Proof.
  unfold all_ascii. rewrite <- (ascii_nat_embedding c).
  apply in_map, in_seq. pose proof (nat_ascii_bounded c). lia.
Qed.

Lemma class_within_spec (ic : bool) (P : ascii -> bool) (k : CharClass) (c : ascii) :
  class_within ic P k = true -> class_matches ic k c = true -> P c = true.
Proof.
  unfold class_within. rewrite forallb_forall. intros H Hc.
  specialize (H c (all_ascii_complete c)). now rewrite Hc in H.
Qed.

Section Groups.

Variable ic : bool.
Variable P : ascii -> bool.

Let good (st : Cursor) : Prop := Forall (fun c => P c = true) (group1 st).

Lemma good_consume (k : CharClass) (c : ascii) (st : Cursor) :
  (if inGroup st then class_within ic P k else true) = true ->
  class_matches ic k c = true -> good st -> good (consume c st).
Proof.
  unfold good, consume. intros Hk Hc Hg. cbn [group1].
  destruct (inGroup st); [|exact Hg].
  constructor; [|exact Hg]. eapply class_within_spec; eauto.
Qed.

Lemma match_here_group_within (re : list Item) :
  forall s st st',
    group_within ic P (inGroup st) re = true -> good st ->
    match_here ic re s st = Some st' -> good st'.
Proof.
  induction re as [|i re IH]; intros s st st' Hw Hg Hm.
  - cbn in Hm. now injection Hm as <-.
  - destruct i as [k q| | | |]; cbn [group_within] in Hw.
    + apply andb_true_iff in Hw as [Hk Hw].
      destruct q; cbn [match_here] in Hm.
      * (* Once *)
        destruct s as [|c s]; [discriminate|].
        destruct (class_matches ic k c) eqn:Ec; [|discriminate].
        eapply IH; [|eapply good_consume; eauto|exact Hm]. exact Hw.
      * (* Opt *)
        destruct s as [|c s]; [eapply IH; eauto|].
        destruct (class_matches ic k c) eqn:Ec; [|eapply IH; eauto].
        destruct (match_here ic re s (consume c st)) as [r|] eqn:Er.
        -- injection Hm as <-.
           eapply IH; [|eapply good_consume; eauto|exact Er]. exact Hw.
        -- eapply IH; eauto.
      * (* Star *)
        revert st Hk Hw Hg Hm. induction s as [|c s IHs]; intros st Hk Hw Hg Hm.
        -- eapply IH; eauto.
        -- destruct (class_matches ic k c) eqn:Ec; [|eapply IH; eauto].
           match type of Hm with
           | match ?x with _ => _ end = _ => destruct x as [r|] eqn:Er
           end.
           ++ injection Hm as <-.
              eapply (IHs (consume c st)); [| |eapply good_consume; eauto|exact Er];
                assumption.
           ++ eapply IH; eauto.
      * (* LazyStar *)
        revert st Hk Hw Hg Hm. induction s as [|c s IHs]; intros st Hk Hw Hg Hm.
        -- destruct (match_here ic re [] st) as [r|] eqn:Er; [|discriminate].
           injection Hm as <-. eapply IH; eauto.
        -- destruct (match_here ic re (c :: s) st) as [r|] eqn:Er.
           ++ injection Hm as <-. eapply IH; eauto.
           ++ destruct (class_matches ic k c) eqn:Ec; [|discriminate].
              eapply (IHs (consume c st)); [| |eapply good_consume; eauto|exact Hm];
                assumption.
    + cbn [match_here] in Hm. eapply IH; [| |exact Hm]; [exact Hw | constructor].
    + cbn [match_here] in Hm. eapply IH; [| |exact Hm]; [exact Hw | exact Hg].
    + cbn [match_here] in Hm. destruct (at_line_start st); [|discriminate].
      eapply IH; eauto.
    + cbn [match_here] in Hm. destruct (at_line_end s); [|discriminate].
      eapply IH; eauto.
Qed.

Lemma match_here_group_filled (re : list Item) :
  forall s st st' filled,
    (filled = true -> group1 st <> []) ->
    group_filled filled (inGroup st) re = true ->
    match_here ic re s st = Some st' -> group1 st' <> [].
Proof.
  assert (Hc : forall c st filled,
             (filled = true -> group1 st <> []) ->
             (filled = true -> group1 (consume c st) <> [])).
  { intros c st filled H F. specialize (H F). unfold consume. cbn.
    destruct (inGroup st); [discriminate | exact H]. }
  induction re as [|i re IH]; intros s st st' filled Hf Hw Hm.
  - cbn in Hm, Hw. injection Hm as <-. now apply Hf.
  - destruct i as [k q| | | |]; cbn [group_filled] in Hw.
    + destruct q; cbn [match_here] in Hm.
      * (* Once *)
        destruct s as [|c s]; [discriminate|].
        destruct (class_matches ic k c) eqn:Ec; [|discriminate].
        eapply (IH s (consume c st) st' (filled || inGroup st)); [|exact Hw|exact Hm].
        intro F. unfold consume. cbn. destruct (inGroup st); [discriminate|].
        rewrite orb_false_r in F. now apply Hf.
      * (* Opt *)
        destruct s as [|c s]; [eapply IH; eauto|].
        destruct (class_matches ic k c) eqn:Ec; [|eapply IH; eauto].
        destruct (match_here ic re s (consume c st)) as [r|] eqn:Er.
        -- injection Hm as <-.
           eapply (IH s (consume c st) r filled); [apply Hc, Hf|exact Hw|exact Er].
        -- eapply IH; eauto.
      * (* Star *)
        revert st Hf Hw Hm. induction s as [|c s IHs]; intros st Hf Hw Hm.
        -- eapply IH; eauto.
        -- destruct (class_matches ic k c) eqn:Ec; [|eapply IH; eauto].
           match type of Hm with
           | match ?x with _ => _ end = _ => destruct x as [r|] eqn:Er
           end.
           ++ injection Hm as <-.
              eapply (IHs (consume c st)); [apply Hc, Hf|exact Hw|exact Er].
           ++ eapply IH; eauto.
      * (* LazyStar *)
        revert st Hf Hw Hm. induction s as [|c s IHs]; intros st Hf Hw Hm.
        -- destruct (match_here ic re [] st) as [r|] eqn:Er; [|discriminate].
           injection Hm as <-. eapply IH; eauto.
        -- destruct (match_here ic re (c :: s) st) as [r|] eqn:Er.
           ++ injection Hm as <-. eapply IH; eauto.
           ++ destruct (class_matches ic k c) eqn:Ec; [|discriminate].
              eapply (IHs (consume c st)); [apply Hc, Hf|exact Hw|exact Hm].
    + cbn [match_here] in Hm.
      eapply (IH s (open_group st) st' false); [discriminate|exact Hw|exact Hm].
    + cbn [match_here] in Hm.
      eapply (IH s (close_group st) st' filled); [exact Hf|exact Hw|exact Hm].
    + cbn [match_here] in Hm. destruct (at_line_start st); [|discriminate].
      eapply IH; eauto.
    + cbn [match_here] in Hm. destruct (at_line_end s); [|discriminate].
      eapply IH; eauto.
Qed.

Lemma search_group (re : list Item) (s : list ascii) (prev : option ascii) (st : Cursor) :
  group_within ic P false re = true ->
  search ic re prev s = Some st ->
  Forall (fun c => P c = true) (group1 st)
  /\ (group_filled false false re = true -> group1 st <> []).
Proof.
  intros Hw. revert prev. induction s as [|c s IH]; intros prev Hs; cbn [search] in Hs.
  - destruct (match_here ic re [] (start_at prev)) as [r|] eqn:Er; [|discriminate].
    injection Hs as <-. split.
    + eapply match_here_group_within; [| |exact Er]; [exact Hw | constructor].
    + intro Hf.
      eapply (match_here_group_filled re _ (start_at prev) _ false);
        [discriminate|exact Hf|exact Er].
  - destruct (match_here ic re (c :: s) (start_at prev)) as [r|] eqn:Er.
    + injection Hs as <-. split.
      * eapply match_here_group_within; [| |exact Er]; [exact Hw | constructor].
      * intro Hf.
      eapply (match_here_group_filled re _ (start_at prev) _ false);
        [discriminate|exact Hf|exact Er].
    + eapply IH; eauto.
Qed.

End Groups.

Lemma chars_text (l : list ascii) : chars (text l) = l.
Proof. apply list_ascii_of_string_of_list_ascii. Qed.

Lemma text_chars (s : string) : text (chars s) = s.
Proof. apply string_of_list_ascii_of_string. Qed.

Lemma chars_app (a b : string) : chars (a ++ b) = chars a ++ chars b.
Proof.
  unfold chars. induction a as [|c a IH]; cbn; [reflexivity | now f_equal].
Qed.

Lemma first_group_ok (P : ascii -> bool) (patterns : list RegExp) (s g : string) :
  forallb (pattern_ok P) patterns = true ->
  first_group patterns s = Some g ->
  g <> "" /\ forallb P (chars g) = true.
Proof.
  induction patterns as [|r rest IH]; intros Hok Hg; [discriminate|].
  cbn [forallb] in Hok. apply andb_true_iff in Hok as [Hr Hrest].
  cbn [first_group] in Hg.
  destruct (js_match s r) as [m|] eqn:Em; [|now apply IH].
  injection Hg as <-.
  unfold pattern_ok in Hr. rewrite !andb_true_iff, negb_true_iff in Hr.
  destruct Hr as [[[Hgl Hhas] Hw] Hf].
  unfold js_match in Em. rewrite Hgl, Hhas in Em.
  destruct (search (ignoreCase r) (source r) None (chars s)) as [st|] eqn:Es;
    [|discriminate].
  injection Em as <-. cbn [nth].
  destruct (search_group _ P _ _ _ _ Hw Es) as [HP Hne]. specialize (Hne Hf).
  split.
  - intro E. apply (f_equal chars) in E. rewrite chars_text in E. cbn in E.
    apply (f_equal (@rev ascii)) in E. rewrite rev_involutive in E. now apply Hne.
  - rewrite chars_text. apply forallb_forall. intros c Hc.
    apply in_rev in Hc. rewrite Forall_forall in HP. now apply HP.
Qed.

Lemma extractItemId_wellformed (url : string) :
  extractItemId url <> "" /\ forallb id_char (chars (extractItemId url)) = true.
Proof.
  unfold extractItemId.
  destruct (first_group itemIdPatterns url) as [g|] eqn:E.
  - apply (first_group_ok id_char itemIdPatterns url g); [vm_compute; reflexivity | exact E].
  - split; [discriminate | reflexivity].
Qed.

Lemma capture_rest (ic : bool) (k : CharClass) (s : list ascii) (st : Cursor) :
  forallb (class_matches ic k) s = true ->
  match_here ic [Atom k Star; GroupClose] s st
  = Some (close_group (fold_left (fun st c => consume c st) s st)).
Proof.
  revert st. induction s as [|c s IH]; intros st Hall; [reflexivity|].
  cbn [forallb] in Hall. apply andb_true_iff in Hall as [Hc Hs].
  specialize (IH (consume c st) Hs).
  cbn [match_here fold_left] in IH |- *. now rewrite Hc, IH.
Qed.

Lemma group1_consumed (s : list ascii) (st : Cursor) :
  inGroup st = true ->
  group1 (fold_left (fun st c => consume c st) s st) = rev s ++ group1 st.
Proof.
  revert st. induction s as [|c s IH]; intros st Hin; [reflexivity|].
  cbn [fold_left rev]. rewrite IH by exact Hin.
  rewrite <- app_assoc. f_equal. unfold consume. cbn [group1]. now rewrite Hin.
Qed.

Lemma search_miss (ic : bool) (re : list Item) (prev : option ascii) (c : ascii)
  (s : list ascii) :
  match_here ic re (c :: s) (start_at prev) = None ->
  search ic re prev (c :: s) = search ic re (Some c) s.
Proof. intro H. cbn [search]. now rewrite H. Qed.

Lemma search_hit (ic : bool) (re : list Item) (prev : option ascii) (s : list ascii)
  (st : Cursor) :
  match_here ic re s (start_at prev) = Some st -> search ic re prev s = Some st.
Proof. intro H. destruct s; cbn [search]; now rewrite H. Qed.

Lemma match_here_once (ic : bool) (k : CharClass) (re : list Item) (c : ascii)
  (s : list ascii) (st : Cursor) :
  class_matches ic k c = true ->
  match_here ic (Atom k Once :: re) (c :: s) st = match_here ic re s (consume c st).
Proof. intro H. cbn [match_here]. now rewrite H. Qed.

Lemma first_group_hit (r : RegExp) (rest : list RegExp) (s : string) (m : list string) :
  js_match s r = Some m -> first_group (r :: rest) s = Some (nth 1 m "").
Proof. intro H. cbn [first_group]. now rewrite H. Qed.

Lemma js_match_plain (re : list Item) (s : string) (st : Cursor) :
  has_group re = true ->
  search false re None (chars s) = Some st ->
  js_match s (re_plain re) = Some [text (rev (whole st)); text (rev (group1 st))].
Proof.
  intros Hg Hs. unfold js_match. cbn [global re_plain source ignoreCase].
  now rewrite Hs, Hg.
Qed.

(** ** Item ids and rebuilt URLs *)

Lemma isValidEbayUrl_intro (url domain : string) :
  In domain ebayDomains -> includes url domain = true -> includes url "/itm/" = true ->
  isValidEbayUrl url = true.
Proof.
  intros Hd Hi Hp. unfold isValidEbayUrl. apply andb_true_iff. split.
  - apply existsb_exists. now exists domain.
  - now rewrite Hp.
Qed.

Ltac valid_by domain :=
  apply (isValidEbayUrl_intro _ domain); [cbn; tauto | reflexivity | reflexivity].

Ltac itm_round_trip p Ec Hc Hs :=
  unfold extractItemId, itemIdPatterns;
  erewrite first_group_hit;
  [ | apply js_match_plain; [reflexivity|];
      rewrite chars_app, Ec;
      (let x := eval vm_compute in (chars p) in change (chars p) with x);
      (let x := eval vm_compute in
                (lit "/itm/" ++ [GroupOpen] ++ plus NotSlashQuestion ++ [GroupClose]) in
       change (lit "/itm/" ++ [GroupOpen] ++ plus NotSlashQuestion ++ [GroupClose]) with x);
      cbn [app];
      repeat (rewrite search_miss by reflexivity);
      apply search_hit;
      repeat (rewrite match_here_once by reflexivity);
      change (match_here false (GroupOpen :: ?re) ?s ?st)
        with (match_here false re s (open_group st));
      rewrite match_here_once by exact Hc;
      apply capture_rest; exact Hs ];
  unfold close_group; cbn [nth group1];
  rewrite group1_consumed by reflexivity;
  cbn [consume open_group group1 inGroup];
  rewrite rev_app_distr, rev_involutive; cbn [rev app];
  rewrite <- Ec; apply text_chars.

Lemma simplifyEbayUrl_cases (url itemId : string) :
  exists domain,
    In domain ["www.ebay.co.uk"; "www.ebay.de"; "www.ebay.fr"; "www.ebay.it";
               "www.ebay.es"; "www.ebay.ca"; "www.ebay.com.au"; "www.ebay.com"]
    /\ simplifyEbayUrl url itemId = ("https://" ++ domain ++ "/itm/" ++ itemId)%string.
Proof.
  unfold simplifyEbayUrl.
  repeat match goal with
         | |- context [if ?b then _ else _] =>
             destruct b; [eexists; split; [|reflexivity]; cbn; tauto|]
         end.
  eexists; split; [|reflexivity]; cbn; tauto.
Qed.

Lemma rebuilt_url_round_trip (p id : string) :
  In p ["https://www.ebay.co.uk/itm/"; "https://www.ebay.de/itm/";
        "https://www.ebay.fr/itm/"; "https://www.ebay.it/itm/";
        "https://www.ebay.es/itm/"; "https://www.ebay.ca/itm/";
        "https://www.ebay.com.au/itm/"; "https://www.ebay.com/itm/";
        "https://m.ebay.com/itm/"] ->
  id <> "" -> forallb id_char (chars id) = true ->
  isValidEbayUrl (p ++ id) = true /\ extractItemId (p ++ id) = id.
Proof.
  intros Hp Hne Hid.
  destruct (chars id) as [|c s] eqn:Ec.
  { apply (f_equal text) in Ec. rewrite text_chars in Ec. now destruct Hne. }
  cbn [forallb] in Hid. apply andb_true_iff in Hid as [Hc Hs].
  cbn [In] in Hp.
  destruct Hp as [<-|[<-|[<-|[<-|[<-|[<-|[<-|[<-|[<-|[]]]]]]]]]]; split.
  - valid_by "ebay.co.uk".
  - itm_round_trip "https://www.ebay.co.uk/itm/" Ec Hc Hs.
  - valid_by "ebay.de".
  - itm_round_trip "https://www.ebay.de/itm/" Ec Hc Hs.
  - valid_by "ebay.fr".
  - itm_round_trip "https://www.ebay.fr/itm/" Ec Hc Hs.
  - valid_by "ebay.it".
  - itm_round_trip "https://www.ebay.it/itm/" Ec Hc Hs.
  - valid_by "ebay.es".
  - itm_round_trip "https://www.ebay.es/itm/" Ec Hc Hs.
  - valid_by "ebay.ca".
  - itm_round_trip "https://www.ebay.ca/itm/" Ec Hc Hs.
  - valid_by "ebay.com".
  - itm_round_trip "https://www.ebay.com.au/itm/" Ec Hc Hs.
  - valid_by "ebay.com".
  - itm_round_trip "https://www.ebay.com/itm/" Ec Hc Hs.
  - valid_by "ebay.com".
  - itm_round_trip "https://m.ebay.com/itm/" Ec Hc Hs.
Qed.

(** X9.  An extracted item id survives the rebuilding of the URL.  Whatever
    the URL, the id [extractItemId] gives is not empty and holds no slash and
    no question mark; and each of the three alternative URLs the
    multi-strategy service builds from that id (the simplified one, the
    direct one and the mobile one) passes [isValidEbayUrl] and gives the same
    id back under [extractItemId]. *)
Theorem item_id_survives_rebuilding (url processedUrl : string) :
  let itemId := extractItemId url in
  itemId <> ""
  /\ forallb id_char (chars itemId) = true
  /\ Forall (fun altUrl => isValidEbayUrl altUrl = true /\ extractItemId altUrl = itemId)
            (tl (Chain.alternativeUrls processedUrl itemId)).
Proof.
  cbv zeta. destruct (extractItemId_wellformed url) as [Hne Hid].
  split; [exact Hne|]. split; [exact Hid|].
  unfold Chain.alternativeUrls. cbn [tl].
  constructor; [|constructor; [|constructor; [|constructor]]].
  - destruct (simplifyEbayUrl_cases processedUrl (extractItemId url)) as (d & Hd & ->).
    cbn [In] in Hd.
    destruct Hd as [<-|[<-|[<-|[<-|[<-|[<-|[<-|[<-|[]]]]]]]]];
      match goal with
      | |- context [("https://" ++ ?d ++ "/itm/" ++ _)%string] =>
          let p := eval vm_compute in ("https://" ++ d ++ "/itm/")%string in
          apply (rebuilt_url_round_trip p (extractItemId url)); auto; cbn; tauto
      end.
  - apply (rebuilt_url_round_trip "https://www.ebay.com/itm/" (extractItemId url));
      auto; cbn; tauto.
  - apply (rebuilt_url_round_trip "https://m.ebay.com/itm/" (extractItemId url));
      auto; cbn; tauto.
Qed.

(** ** Cleaning a URL *)

Lemma starts_with_split (p s : list ascii) :
  starts_with p s = true -> s = p ++ skipn (List.length p) s.
Proof.
  revert s. induction p as [|a p IH]; intros s H; [reflexivity|].
  destruct s as [|b s]; [discriminate|]. cbn in H.
  apply andb_true_iff in H as [Hab Hp]. apply Ascii.eqb_eq in Hab. subst b.
  cbn. f_equal. now apply IH.
Qed.

Lemma before_question_clean (s : list ascii) :
  forallb no_question (before_question s) = true.
Proof.
  induction s as [|c s IH]; [reflexivity|]. cbn [before_question].
  destruct (ascii_eqb c "?") eqn:E; [reflexivity|].
  cbn [forallb]. unfold no_question at 1. now rewrite E, IH.
Qed.

Lemma before_question_fixed (s : list ascii) :
  forallb no_question s = true -> before_question s = s.
Proof.
  induction s as [|c s IH]; [reflexivity|]. cbn [forallb before_question].
  intro H. apply andb_true_iff in H as [Hc Hs]. unfold no_question in Hc.
  apply negb_true_iff in Hc. rewrite Hc. now rewrite IH.
Qed.

Lemma forallb_skipn {A : Type} (f : A -> bool) (n : nat) (l : list A) :
  forallb f l = true -> forallb f (skipn n l) = true.
Proof.
  revert l. induction n as [|n IH]; intros l H; [exact H|].
  destruct l as [|a l]; [reflexivity|]. cbn in H |- *.
  apply andb_true_iff in H as [_ H]. now apply IH.
Qed.

Lemma replace_first_clean (f : ascii -> bool) (s p r : list ascii) :
  forallb f s = true -> forallb f r = true ->
  forallb f (replace_first_chars s p r) = true.
Proof.
  intros Hs Hr. induction s as [|c s IH]; cbn [replace_first_chars].
  - destruct (starts_with p []); [|reflexivity].
    rewrite forallb_app, Hr. now rewrite forallb_skipn.
  - destruct (starts_with p (c :: s)).
    + rewrite forallb_app, Hr. now rewrite forallb_skipn.
    + cbn [forallb] in Hs |- *. apply andb_true_iff in Hs as [Hc Hs'].
      now rewrite Hc, IH.
Qed.

Lemma replace_first_at_head (s p r : list ascii) :
  starts_with p s = true ->
  replace_first_chars s p r = r ++ skipn (List.length p) s.
Proof. intro H. destruct s; cbn [replace_first_chars]; now rewrite H. Qed.

(** Inserting in front of the first occurrence of a pattern cannot complete
    a prefix that has no [w] in it. *)
Lemma replace_first_keeps_miss (q s p : list ascii) (tail : list ascii) :
  forallb not_w q = true -> starts_with q s = false ->
  starts_with q (replace_first_chars s p ("w"%char :: tail)) = false.
Proof.
  revert q. induction s as [|c s IH]; intros q Hq Hm.
  - destruct q as [|a q]; [discriminate|].
    cbn [replace_first_chars]. destruct (starts_with p []); [|reflexivity].
    cbn [app starts_with forallb] in Hq |- *. apply andb_true_iff in Hq as [Ha _].
    unfold not_w in Ha. apply negb_true_iff in Ha. now rewrite Ha.
  - destruct q as [|a q]; [discriminate|].
    cbn [forallb] in Hq. apply andb_true_iff in Hq as [Ha Hq].
    cbn [replace_first_chars]. destruct (starts_with p (c :: s)).
    + cbn [app starts_with]. unfold not_w in Ha. apply negb_true_iff in Ha.
      now rewrite Ha.
    + cbn [starts_with] in Hm |- *. destruct (ascii_eqb a c); [|reflexivity].
      cbn [andb] in Hm |- *. now apply IH.
Qed.

Lemma includes_chars_cons (c : ascii) (s p : list ascii) :
  includes_chars s p = true -> includes_chars (c :: s) p = true.
Proof. intro H. cbn [includes_chars]. rewrite H. apply orb_true_r. Qed.

Lemma replace_first_includes (s p r w : list ascii) :
  includes_chars s p = true -> starts_with w r = true -> p <> [] ->
  includes_chars (replace_first_chars s p r) w = true.
Proof.
  intros Hi Hw Hp. induction s as [|c s IH].
  - destruct p; [contradiction|discriminate].
  - cbn [replace_first_chars]. destruct (starts_with p (c :: s)) eqn:E.
    + assert (H : starts_with w (r ++ skipn (List.length p) (c :: s)) = true).
      { clear -Hw. revert r Hw. induction w as [|a w IHw]; intros r Hw; [reflexivity|].
        destruct r as [|b r]; [discriminate|]. cbn in Hw |- *.
        apply andb_true_iff in Hw as [-> Hw]. now apply IHw. }
      destruct (r ++ skipn (List.length p) (c :: s)); cbn [includes_chars];
        now rewrite H.
    + apply includes_chars_cons, IH.
      cbn [includes_chars] in Hi. now rewrite E in Hi.
Qed.

(** X10.  [preprocessEbayUrl] normalises.  Whatever the URL, the result holds
    no question mark and does not start with [http://]; a URL that starts
    with [http://] comes out starting with [https://]; a result that mentions
    [ebay.com] also holds [www.]; and cleaning a cleaned URL changes
    nothing. *)
Theorem preprocessEbayUrl_normalises (url : string) :
  let cleanUrl := preprocessEbayUrl url in
  forallb no_question (chars cleanUrl) = true
  /\ startsWith cleanUrl "http://" = false
  /\ (startsWith url "http://" = true -> startsWith cleanUrl "https://" = true)
  /\ (includes cleanUrl "ebay.com" = true -> includes cleanUrl "www." = true)
  /\ preprocessEbayUrl cleanUrl = cleanUrl.
Proof.
  cbv zeta.
  pose proof (before_question_clean (chars url)) as Hq.
  assert (Hpre : forall l : list ascii,
             forallb no_question l = true ->
             starts_with (chars "http://") l = false ->
             (includes_chars l (chars "ebay.com") = true ->
              includes_chars l (chars "www.") = true) ->
             preprocessEbayUrl (text l) = text l).
  { intros l Hl Hh Hw. unfold preprocessEbayUrl, startsWith, includes.
    rewrite !chars_text, (before_question_fixed l Hl), ?chars_text, Hh, ?chars_text.
    destruct (includes_chars l (chars "ebay.com")) eqn:E; [|reflexivity].
    now rewrite (Hw eq_refl). }
  assert (Hmain : exists l,
             preprocessEbayUrl url = text l
             /\ forallb no_question l = true
             /\ starts_with (chars "http://") l = false
             /\ (startsWith url "http://" = true ->
                 starts_with (chars "https://") l = true)
             /\ (includes_chars l (chars "ebay.com") = true ->
                 includes_chars l (chars "www.") = true)).
  { unfold preprocessEbayUrl, startsWith, includes, replace_first.
    rewrite !chars_text.
    set (c1 := before_question (chars url)) in *.
    assert (Hurl : starts_with (chars "http://") (chars url) = true ->
                   starts_with (chars "http://") c1 = true).
    { intro H. apply starts_with_split in H. unfold c1. rewrite H. reflexivity. }
    destruct (starts_with (chars "http://") c1) eqn:Eh.
    - (* the scheme is replaced *)
      rewrite !chars_text.
      assert (Hc1 : forallb no_question (skipn 7 c1) = true)
        by now apply forallb_skipn.
      rewrite (replace_first_at_head c1 _ (chars "https://") Eh).
      change (List.length (chars "http://")) with 7%nat in *.
      set (rest := skipn 7 c1) in *.
      destruct (includes_chars (chars "https://" ++ rest) (chars "ebay.com")
                && negb (includes_chars (chars "https://" ++ rest) (chars "www."))) eqn:Ec.
      + eexists. split; [reflexivity|].
        apply andb_true_iff in Ec as [Ei _].
        split; [|split; [|split]].
        * apply replace_first_clean; [|reflexivity]. rewrite forallb_app. now rewrite Hc1.
        * reflexivity.
        * intros _. reflexivity.
        * intros _. apply replace_first_includes; [exact Ei|reflexivity|discriminate].
      + eexists. split; [reflexivity|].
        split; [|split; [|split]].
        * rewrite forallb_app. now rewrite Hc1.
        * reflexivity.
        * intros _. reflexivity.
        * intro Hi. rewrite Hi in Ec. cbn [andb] in Ec.
          now apply negb_false_iff in Ec.
    - (* the scheme is kept *)
      rewrite ?chars_text.
      destruct (includes_chars c1 (chars "ebay.com")
                && negb (includes_chars c1 (chars "www."))) eqn:Ec.
      + eexists. split; [reflexivity|].
        apply andb_true_iff in Ec as [Ei _].
        split; [|split; [|split]].
        * apply replace_first_clean; [exact Hq|reflexivity].
        * apply replace_first_keeps_miss; [reflexivity|exact Eh].
        * intro H. apply Hurl in H. discriminate.
        * intros _. apply replace_first_includes; [exact Ei|reflexivity|discriminate].
      + eexists. split; [reflexivity|].
        split; [|split; [|split]].
        * exact Hq.
        * exact Eh.
        * intro H. apply Hurl in H. discriminate.
        * intro Hi. rewrite Hi in Ec. cbn [andb] in Ec.
          now apply negb_false_iff in Ec. }
  destruct Hmain as (l & -> & Hl & Hh & Hs & Hw).
  unfold startsWith, includes. rewrite !chars_text.
  repeat split; auto.
Qed.

(** An [http] link with tracking parameters comes out clean. *)
Lemma preprocessEbayUrl_normalises_witness :
  startsWith (preprocessEbayUrl "http://ebay.com/itm/1?hash=x") "https://" = true
  /\ includes (preprocessEbayUrl "http://ebay.com/itm/1?hash=x") "www." = true.
Proof.
  destruct (preprocessEbayUrl_normalises "http://ebay.com/itm/1?hash=x")
    as (_ & _ & H1 & H2 & _).
  split; [apply H1; reflexivity | apply H2; reflexivity].
Defined.

(** ** Error codes of the single-scrape service *)

Lemma pattern_price_throws (pattern : RegExp) (s : string) (e : Exn) :
  pattern_price pattern s = Throw e -> e = TypeError.
Proof.
  unfold pattern_price.
  destruct (js_match s pattern) as [m|]; [|discriminate].
  destruct (nth_error m 1) as [g|]; [|now intros [= <-]].
  destruct (parseFloat (remove_commas g)) as [price|]; [|discriminate].
  destruct (plausible price); discriminate.
Qed.

Lemma try_patterns_outcome (patterns : list RegExp) (s : string) :
  match try_patterns patterns s with
  | Ok (Some p) => plausible p = true
  | Ok None => True
  | Throw e => e = TypeError
  end.
Proof.
  induction patterns as [|q l IH]; cbn [try_patterns]; [exact I|].
  destruct (pattern_price q s) as [[p|]|e] eqn:E.
  - now apply pattern_price_plausible in E.
  - exact IH.
  - now apply pattern_price_throws in E.
Qed.

Lemma includes_chars_skip (c : ascii) (s p : list ascii) :
  starts_with p (c :: s) = false -> includes_chars (c :: s) p = includes_chars s p.
Proof. intro H. cbn [includes_chars]. now rewrite H. Qed.

Lemma includes_chars_app_r (s t p : list ascii) :
  includes_chars t p = true -> includes_chars (s ++ t) p = true.
Proof.
  intro H. induction s as [|c s IH]; [exact H|].
  cbn [app]. now apply includes_chars_cons.
Qed.

Section ErrorCodes.

Variable extractEndTime : Z -> string -> Date.
Variable extractDetails : PageData -> Details.

(** X11.  What the four error codes of the single-scrape [extractAuctionData]
    mean.  For a valid URL: a scrape that runs into the eight-second timer
    gives [SCRAPING_TIMEOUT]; a scrape that is rejected with a reason holding
    [500] gives [EBAY_BLOCKING_REQUESTS]; a page that was fetched gives either
    the auction data, with a price strictly between 0 and one million, or
    [SCRAPING_FAILED].  So [PRICE_EXTRACTION_FAILED] is never the answer to a
    fetched page without a price: it arises only when the scrape itself is
    rejected with a reason that holds the words [No valid price data]. *)
Theorem Simple_error_codes (scrape : string -> ScrapeOutcome) (now : Z) (url : string) :
  isValidEbayUrl url = true ->
  let outcome := scrape (preprocessEbayUrl url) in
  let result := Simple.extractAuctionData extractEndTime extractDetails scrape now url in
  (outcome = TimedOut -> result = Throw (Error "SCRAPING_TIMEOUT"))
  /\ (forall reason, outcome = Rejected reason -> includes reason "500" = true ->
        result = Throw (Error "EBAY_BLOCKING_REQUESTS"))
  /\ (forall page, outcome = Resolved page ->
        (exists d, result = Ok d /\ plausible (currentBid d) = true
                   /\ itemId d = extractItemId (preprocessEbayUrl url))
        \/ result = Throw (Error "SCRAPING_FAILED"))
  /\ (result = Throw (Error "PRICE_EXTRACTION_FAILED") ->
      exists reason, outcome = Rejected reason
                     /\ includes reason "No valid price data" = true).
Proof.
  intros Hv. cbv zeta. unfold Simple.extractAuctionData. rewrite Hv. cbn [negb].
  assert (Hpage : forall page,
             scrape (preprocessEbayUrl url) = Resolved page ->
             (exists d,
                 Simple.extractAuctionData extractEndTime extractDetails scrape now url
                 = Ok d /\ plausible (currentBid d) = true
                 /\ itemId d = extractItemId (preprocessEbayUrl url))
             \/ Simple.extractAuctionData extractEndTime extractDetails scrape now url
                = Throw (Error "SCRAPING_FAILED")).
  { intros page Hp. unfold Simple.extractAuctionData. rewrite Hv. cbn [negb].
    cbv zeta. rewrite Hp. cbn [performScrapingWithTimeout].
    unfold Simple.parseEbayPageData, Simple.extractCurrentBid.
    pose proof (try_patterns_outcome mainPricePatterns (markdown page)) as Ht.
    destruct (try_patterns mainPricePatterns (markdown page)) as [[p|]|e].
    - left. cbn [currentBid].
      pose proof (proj1 (plausible_bounds p) Ht) as [Hg _]. rewrite Hg.
      eexists. split; [reflexivity|]. split; [exact Ht | reflexivity].
    - right. reflexivity.
    - right. subst e. reflexivity. }
  unfold Simple.extractAuctionData in Hpage. rewrite Hv in Hpage. cbn [negb] in Hpage.
  cbv zeta in Hpage |- *.
  split; [|split; [|split]].
  - intros ->. reflexivity.
  - intros reason -> Hr. cbn [performScrapingWithTimeout].
    assert (Ht : truthy reason = true) by (destruct reason; [discriminate|reflexivity]).
    rewrite Ht. unfold Simple.classify. cbn [message].
    assert (Hi : includes ("Scraping failed: " ++ reason) "500" = true).
    { unfold includes in *. rewrite chars_app. now apply includes_chars_app_r. }
    now rewrite Hi.
  - exact Hpage.
  - destruct (scrape (preprocessEbayUrl url)) as [page|reason|] eqn:Es.
    + intro H. destruct (Hpage page eq_refl) as [(d & Hd & _)|Hf]; congruence.
    + cbn [performScrapingWithTimeout]. unfold Simple.classify. cbn [message].
      destruct (truthy reason) eqn:Ht.
      * destruct (includes _ "500"); [discriminate|].
        destruct (includes _ "timeout"); [discriminate|].
        destruct (includes _ "No valid price data") eqn:Ei; [|discriminate].
        intros _. exists reason. split; [reflexivity|].
        unfold includes in Ei |- *. rewrite chars_app in Ei.
        (let x := eval vm_compute in (chars "Scraping failed: ") in
         change (chars "Scraping failed: ") with x in Ei).
        cbn [app] in Ei.
        repeat (rewrite includes_chars_skip in Ei by reflexivity).
        exact Ei.
      * discriminate.
    + discriminate.
Qed.

End ErrorCodes.

(** The demo page holds a price, so the single scrape returns it. *)
Lemma Simple_error_codes_witness :
  exists d, Simple.extractAuctionData two_hours no_details (fun _ => Resolved demo_page) 0
              listing_url = Ok d.
Proof.
  destruct (Simple_error_codes two_hours no_details (fun _ => Resolved demo_page) 0
              listing_url eq_refl) as (_ & _ & H & _).
  destruct (H demo_page eq_refl) as [(d & Hd & _)|Hf].
  - exists d. exact Hd.
  - vm_compute in Hf. discriminate.
Defined.

(** ** The refresh request of the timer and the status of a listing *)

Section RefreshRequest.

Variable number_toString : number -> string.

(** The callback on an eligible auction with more than three seconds left. *)
Lemma snipe_far (now : Z) (a : Auction.t) (ms : Z) :
  eligible a = true -> remaining now a = Some ms -> 3000 < ms ->
  snipe number_toString now a
  = (a, if (ms <=? 5 * 60 * 1000) && (10000 <? now - Auction.lastUpdated a)
        then [Call_refreshAuctionData (Auction.id a)] else []).
Proof.
  intros He Hr G. rewrite (snipe_by_remaining number_toString now a He), Hr.
  replace (ms <=? 0) with false by (symmetry; apply Z.leb_gt; lia).
  replace (ms <=? 3000) with false by (symmetry; apply Z.leb_gt; lia).
  reflexivity.
Qed.

(** What a request for fresh data tells about the auction. *)
Lemma refresh_request (now : Z) (a : Auction.t) (auctionId : Z) :
  In (Call_refreshAuctionData auctionId) (snd (snipe number_toString now a)) ->
  eligible a = true /\ auctionId = Auction.id a
  /\ (exists ms, remaining now a = Some ms /\ 3000 < ms <= 5 * 60 * 1000)
  /\ 10000 < now - Auction.lastUpdated a
  /\ snipe number_toString now a = (a, [Call_refreshAuctionData (Auction.id a)]).
Proof.
  destruct (eligible a) eqn:He;
    [|rewrite (snipe_not_eligible number_toString now a He); intros []].
  rewrite (snipe_by_remaining number_toString now a He).
  destruct (remaining now a) as [ms|]; [|intros []].
  destruct (Z.leb_spec ms 0); [intros []|].
  destruct (Z.leb_spec ms 3000);
    [destruct (bid_passes a); intros [H'|[]]; discriminate|].
  destruct (Z.leb_spec ms (5 * 60 * 1000)); [|intros []].
  destruct (Z.ltb_spec 10000 (now - Auction.lastUpdated a)); [|intros []].
  cbn [andb snd]. intros [[= <-]|[]]. repeat split; auto.
  exists ms. split; [reflexivity | lia].
Qed.

(** X12.  When the timer asks for fresh data.  The callback requests a
    refresh of an auction exactly when the auction is active and monitored,
    its end time is a valid date with more than three seconds and at most
    five minutes remaining, and the data is more than ten seconds old; the
    request is for that auction's id, the auction itself is left as it is,
    and no bid is queued by the same call: inside the last three seconds no
    refresh is requested. *)
Theorem refresh_requested_iff (now : Z) (a : Auction.t) (auctionId : Z) :
  (In (Call_refreshAuctionData auctionId) (snd (snipe number_toString now a)) <->
   auctionId = Auction.id a
   /\ Auction.isActive a = true /\ Auction.status a = Status.monitoring
   /\ (exists ms, remaining now a = Some ms /\ 3000 < ms <= 5 * 60 * 1000)
   /\ 10000 < now - Auction.lastUpdated a)
  /\ (In (Call_refreshAuctionData auctionId) (snd (snipe number_toString now a)) ->
      snipe number_toString now a = (a, [Call_refreshAuctionData (Auction.id a)])
      /\ in_window now a = false).
Proof.
  split; [split|].
  - intro H. apply refresh_request in H as (He & Hid & Hms & Hu & _).
    apply eligible_iff in He as [Ha Hs]. auto.
  - intros (-> & Ha & Hs & (ms & Hr & Hms) & Hu).
    assert (He : eligible a = true) by (apply eligible_iff; auto).
    rewrite (snipe_far now a ms He Hr) by lia.
    replace (ms <=? 5 * 60 * 1000) with true by (symmetry; apply Z.leb_le; lia).
    replace (10000 <? now - Auction.lastUpdated a) with true
      by (symmetry; apply Z.ltb_lt; lia).
    now left.
  - intro H. apply refresh_request in H as (He & Hid & (ms & Hr & Hms) & Hu & E).
    split; [exact E|]. unfold in_window. rewrite Hr. cbn [ms_le].
    replace (ms <=? 3000) with false by (symmetry; apply Z.leb_gt; lia).
    apply andb_false_r.
Qed.

(** The status of a listing, by the time that remains. *)
Lemma getAuctionStatus_cases (now : Z) (a : Auction.t) :
  match remaining now a with
  | None =>
      getAuctionStatus now (Auction.endTime a) = active
      /\ total (calculateTimeRemaining now (Auction.endTime a)) = None
      /\ Auction.endTime a = InvalidDate
  | Some ms =>
      getAuctionStatus now (Auction.endTime a)
      = (if ms <=? 0 then ended
         else if ms <=? 5 * 60 * 1000 then ending_soon else active)
      /\ total (calculateTimeRemaining now (Auction.endTime a)) = Some (Z.max 0 ms)
      /\ Auction.endTime a <> InvalidDate
  end.
Proof.
  unfold remaining, getAuctionStatus. cbv zeta.
  destruct (Auction.endTime a) as [t|]; cbn [getTime option_map ms_le].
  - rewrite total_valid. repeat split. discriminate.
  - repeat split.
Qed.

(** X13.  [getAuctionStatus] against the dashboard's clock arithmetic.  For
    an end time that is a valid date, a listing is [ended] exactly when
    [calculateTimeRemaining] gives a total of 0, [ending_soon] when more than
    nothing and at most five minutes remain, and [active] when more than five
    minutes remain.  For the Invalid Date the two disagree: the listing is
    [active], while the total of [calculateTimeRemaining] is NaN and the
    timer leaves the auction alone.  An auction the timer bids on or asks a
    refresh for is always [ending_soon], and an eligible auction is marked
    lost by the timer exactly when its listing is [ended]. *)
Theorem getAuctionStatus_agrees (now : Z) (a : Auction.t) :
  let status := getAuctionStatus now (Auction.endTime a) in
  (status = ended <-> total (calculateTimeRemaining now (Auction.endTime a)) = Some 0)
  /\ (status = ended <-> exists ms, remaining now a = Some ms /\ ms <= 0)
  /\ (status = ending_soon <->
      exists ms, remaining now a = Some ms /\ 0 < ms <= 5 * 60 * 1000)
  /\ (status = active <->
      Auction.endTime a = InvalidDate
      \/ exists ms, remaining now a = Some ms /\ 5 * 60 * 1000 < ms)
  /\ (Auction.endTime a = InvalidDate ->
      status = active
      /\ total (calculateTimeRemaining now (Auction.endTime a)) = None
      /\ snipe number_toString now a = (a, []))
  /\ (in_window now a = true -> status = ending_soon)
  /\ (In (Call_refreshAuctionData (Auction.id a)) (snd (snipe number_toString now a)) ->
      status = ending_soon)
  /\ (eligible a = true ->
      (fst (snipe number_toString now a) = expired a <-> status = ended)).
Proof.
  cbv zeta. pose proof (getAuctionStatus_cases now a) as H.
  assert (Hx : forall x, Auction.isActive x = true -> x <> expired a).
  { intros x Hx' ->. discriminate. }
  assert (Hsn : eligible a = true ->
                snipe number_toString now a
                = match remaining now a with
                  | None => (a, [])
                  | Some ms =>
                      if ms <=? 0 then (expired a, [])
                      else if ms <=? 3000 then
                        if bid_passes a
                        then (set_bidding a, [SetTimeout_attemptBid a (optimalBid a)])
                        else (too_low (failedBid_too_low number_toString now a) a,
                              [Push_bidHistory (failedBid_too_low number_toString now a)])
                      else (a, if (ms <=? 5 * 60 * 1000)
                                  && (10000 <? now - Auction.lastUpdated a)
                               then [Call_refreshAuctionData (Auction.id a)] else [])
                  end) by apply snipe_by_remaining.
  assert (Hw : in_window now a = true ->
               exists ms, remaining now a = Some ms /\ 0 < ms <= 3000)
    by (intro Hw; now apply in_window_iff in Hw).
  assert (Hr : In (Call_refreshAuctionData (Auction.id a))
                  (snd (snipe number_toString now a)) ->
               exists ms, remaining now a = Some ms /\ 3000 < ms <= 5 * 60 * 1000)
    by (intro Hr; now apply refresh_request in Hr).
  assert (Hact : eligible a = true -> Auction.isActive a = true)
    by (intro He; now apply eligible_iff in He).
  assert (Hne : eligible a = false -> snipe number_toString now a = (a, []))
    by apply snipe_not_eligible.
  destruct (remaining now a) as [ms|]; destruct H as (Hs & Ht & He); rewrite Hs, Ht.
  - split; [|split; [|split; [|split; [|split; [|split; [|split]]]]]].
    + destruct (Z.leb_spec ms 0); [|destruct (Z.leb_spec ms (5 * 60 * 1000))];
        split; intro E; try discriminate; try reflexivity;
        try (f_equal; lia); injection E; lia.
    + destruct (Z.leb_spec ms 0); [|destruct (Z.leb_spec ms (5 * 60 * 1000))];
        split; try discriminate; try reflexivity;
        try (intros _; exists ms; split; [reflexivity | lia]);
        intros (ms' & [= <-] & ?); lia.
    + destruct (Z.leb_spec ms 0); [|destruct (Z.leb_spec ms (5 * 60 * 1000))];
        split; try discriminate; try reflexivity;
        try (intros _; exists ms; split; [reflexivity | lia]);
        intros (ms' & [= <-] & ?); lia.
    + destruct (Z.leb_spec ms 0); [|destruct (Z.leb_spec ms (5 * 60 * 1000))];
        split; try discriminate; try reflexivity;
        try (intros _; right; exists ms; split; [reflexivity | lia]);
        intros [E|(ms' & [= <-] & ?)]; try contradiction; lia.
    + intro E. contradiction.
    + intro E. apply Hw in E as (ms' & [= <-] & ?).
      destruct (Z.leb_spec ms 0); [lia|].
      destruct (Z.leb_spec ms (5 * 60 * 1000)); [reflexivity | lia].
    + intro E. apply Hr in E as (ms' & [= <-] & ?).
      destruct (Z.leb_spec ms 0); [lia|].
      destruct (Z.leb_spec ms (5 * 60 * 1000)); [reflexivity | lia].
    + intro El. rewrite (Hsn El). specialize (Hact El).
      destruct (Z.leb_spec ms 0); [cbn [fst]; tauto|].
      split; [|destruct (Z.leb_spec ms (5 * 60 * 1000)); discriminate].
      intro E. exfalso.
      destruct (Z.leb_spec ms 3000); [destruct (bid_passes a)|]; cbn [fst] in E.
      * apply (Hx (set_bidding a)); [exact Hact | exact E].
      * unfold too_low, expired in E. discriminate.
      * now apply (Hx a).
  - split; [|split; [|split; [|split; [|split; [|split; [|split]]]]]].
    + split; discriminate.
    + split; [discriminate | intros (ms & E & _); discriminate].
    + split; [discriminate | intros (ms & E & _); discriminate].
    + split; [now left | reflexivity].
    + intros _. split; [reflexivity|]. split; [reflexivity|].
      destruct (eligible a) eqn:El; [now rewrite Hsn | now apply Hne].
    + intro E. apply Hw in E as (ms & E & _). discriminate.
    + intro E. apply Hr in E as (ms & E & _). discriminate.
    + intro El. rewrite (Hsn El). cbn [fst]. specialize (Hact El).
      split; [|discriminate]. intro E. exfalso. now apply (Hx a).
Qed.

End RefreshRequest.

(** Four minutes before the end, with data a minute old, a refresh is
    requested. *)
Lemma refresh_requested_iff_witness :
  snipe sample_toString 4000
        (Auction.mk 7 "u" "Camera" (of_Z 100) (of_Z 150) (Time 244000) true
                    Status.monitoring None [] "7" sample_details (-56000))
  = (Auction.mk 7 "u" "Camera" (of_Z 100) (of_Z 150) (Time 244000) true
                Status.monitoring None [] "7" sample_details (-56000),
     [Call_refreshAuctionData 7]).
Proof.
  destruct (refresh_requested_iff sample_toString 4000
              (Auction.mk 7 "u" "Camera" (of_Z 100) (of_Z 150) (Time 244000) true
                          Status.monitoring None [] "7" sample_details (-56000)) 7)
    as [_ H].
  apply H. left. reflexivity.
Defined.

(** The outpriced camera, one second before its end, is ending soon. *)
Lemma getAuctionStatus_agrees_witness :
  getAuctionStatus 4000 (Auction.endTime sample_outpriced) = ending_soon.
Proof.
  destruct (getAuctionStatus_agrees sample_toString 4000 sample_outpriced)
    as (_ & _ & _ & _ & _ & H & _).
  apply H. reflexivity.
Defined.

(** ** The countdown text *)

Lemma decimal_Z_toString (z : Z) : decimal (Z_toString z) = Some z.
Proof.
  unfold decimal, Z_toString. rewrite NilZero.isi.
  - cbn [option_map]. now rewrite DecimalZ.of_to.
  - destruct z; cbn; try discriminate.
    intros [= H]. now apply DecimalPos.Unsigned.to_uint_nonnil in H.
  - destruct z; cbn; try discriminate.
    intros [= H]. now apply DecimalPos.Unsigned.to_uint_nonnil in H.
Qed.

Lemma Z_toString_unsigned (z : Z) :
  0 <= z ->
  exists d, Z_toString z = NilZero.string_of_uint d
            /\ NilZero.uint_of_string (Z_toString z) = Some d
            /\ Z.of_uint d = z.
Proof.
  intro Hz. unfold Z_toString.
  destruct z as [|p|p]; [| |lia].
  - exists (Decimal.D0 Decimal.Nil). repeat split.
  - exists (Pos.to_uint p). cbn [Z.to_int NilZero.string_of_int].
    split; [reflexivity|]. split.
    + apply NilZero.usu, DecimalPos.Unsigned.to_uint_nonnil.
    + unfold Z.of_uint. now rewrite DecimalPos.Unsigned.of_to.
Qed.

Lemma padStart_cases (s : string) (c : ascii) :
  (2 <= String.length s)%nat /\ padStart s 2 c = s
  \/ String.length s = 1%nat /\ padStart s 2 c = String c s
  \/ s = "" /\ padStart s 2 c = String c (String c "").
Proof.
  unfold padStart.
  destruct s as [|a [|b s]].
  - right. right. split; reflexivity.
  - right. left. split; reflexivity.
  - left. split; [cbn; lia|].
    cbn [String.length Nat.sub repeat app]. apply text_chars.
Qed.

Lemma decimal_padStart (z : Z) :
  0 <= z -> decimal (padStart (Z_toString z) 2 "0") = Some z.
Proof.
  intro Hz.
  destruct (padStart_cases (Z_toString z) "0") as [[_ ->]|[[Hl ->]|[He _]]].
  - apply decimal_Z_toString.
  - destruct (Z_toString_unsigned z Hz) as (d & _ & Hu & Hd).
    unfold decimal, NilZero.int_of_string.
    change (Ascii.eqb "0" "-") with false. cbv iota.
    unfold NilZero.uint_of_string in Hu |- *.
    destruct (Z_toString z) as [|a s] eqn:E; [discriminate|].
    cbn [NilEmpty.uint_of_string] in Hu |- *. rewrite Hu.
    change (uint_of_char "0" (Some d)) with (Some (Decimal.D0 d)).
    cbn [option_map Z.of_int]. f_equal. exact Hd.
  - pose proof (decimal_Z_toString z) as H. rewrite He in H. discriminate.
Qed.

Lemma below_sixty (P : Z -> bool) :
  forallb (fun n => P (Z.of_nat n)) (seq 0 60) = true ->
  forall z, 0 <= z < 60 -> P z = true.
Proof.
  intros H z Hz. rewrite forallb_forall in H.
  specialize (H (Z.to_nat z)). rewrite Z2Nat.id in H by lia.
  apply H, in_seq. lia.
Qed.

Lemma padStart_two_digits (z : Z) :
  0 <= z < 60 -> String.length (padStart (Z_toString z) 2 "0") = 2%nat.
Proof.
  intro Hz.
  apply Nat.eqb_eq.
  apply (below_sixty (fun z => String.length (padStart (Z_toString z) 2 "0") =? 2)%nat);
    [vm_compute; reflexivity | exact Hz].
Qed.

Lemma padStart_at_least_two (s : string) (c : ascii) :
  (2 <= String.length (padStart s 2 c))%nat.
Proof.
  destruct (padStart_cases s c) as [[H ->]|[[H ->]|[_ ->]]].
  - exact H.
  - cbn [String.length]. lia.
  - cbn [String.length]. lia.
Qed.

Lemma calculateTimeRemaining_fields (now endTime : Z) :
  exists h m s,
    calculateTimeRemaining now (Time endTime)
    = mkTime (Some h) (Some m) (Some s) (Some (Z.max 0 (endTime - now)))
    /\ 0 <= h /\ 0 <= m < 60 /\ 0 <= s < 60.
Proof.
  destruct (Z.le_gt_cases endTime now) as [L|G].
  - exists 0, 0, 0. rewrite calculateTimeRemaining_past by exact L.
    replace (Z.max 0 (endTime - now)) with 0 by lia. repeat split; lia.
  - rewrite calculateTimeRemaining_future by lia.
    replace (Z.max 0 (endTime - now)) with (endTime - now) by lia.
    do 3 eexists. split; [reflexivity|].
    rewrite !Z.rem_mod_nonneg by lia.
    split; [apply Z.div_pos; lia|].
    split.
    + pose proof (Z.mod_pos_bound (endTime - now) (1000 * 60 * 60) ltac:(lia)) as Hm.
      split; [apply Z.div_pos; lia | apply Z.div_lt_upper_bound; lia].
    + pose proof (Z.mod_pos_bound (endTime - now) (1000 * 60) ltac:(lia)) as Hm.
      split; [apply Z.div_pos; lia | apply Z.div_lt_upper_bound; lia].
Qed.

(** X14.  The countdown reads back.  For the time remaining at any clock
    reading until an end time that is a valid date, [formatTime] prints three
    decimal fields separated by colons; the minutes and the seconds have
    exactly two digits, the hours at least two, and each field, read as a
    decimal numeral, is the number it prints. *)
Theorem formatTime_reads_back (now endTime : Z) :
  let time := calculateTimeRemaining now (Time endTime) in
  exists h m s,
    formatTime time = (h ++ ":" ++ m ++ ":" ++ s)%string
    /\ (2 <= String.length h)%nat
    /\ String.length m = 2%nat /\ String.length s = 2%nat
    /\ decimal h = hours time /\ decimal h <> None
    /\ decimal m = minutes time /\ decimal m <> None
    /\ decimal s = seconds time /\ decimal s <> None.
Proof.
  cbv zeta.
  destruct (calculateTimeRemaining_fields now endTime) as (h & m & s & -> & Hh & Hm & Hs).
  unfold formatTime. cbn [hours minutes seconds whole_toString].
  exists (padStart (Z_toString h) 2 "0"), (padStart (Z_toString m) 2 "0"),
         (padStart (Z_toString s) 2 "0").
  split; [reflexivity|].
  split; [apply padStart_at_least_two|].
  split; [now apply padStart_two_digits|].
  split; [now apply padStart_two_digits|].
  rewrite !decimal_padStart by lia.
  repeat split; discriminate.
Qed.

(** ** Demo data *)

Lemma floor_times_range (r : Q) (n : Z) :
  (0 <= r)%Q -> (r < 1)%Q -> 0 < n -> 0 <= floor_times r n < n.
Proof.
  intros H0 H1 Hn. unfold floor_times.
  assert (Hpos : (inject_Z 0 < inject_Z n)%Q) by (rewrite <- Zlt_Qlt; exact Hn).
  split.
  - rewrite <- (Qfloor_Z 0). apply Qfloor_resp_le.
    apply Qmult_le_0_compat; [exact H0 | now apply Qlt_le_weak].
  - rewrite Zlt_Qlt. eapply Qle_lt_trans; [apply Qfloor_le|].
    rewrite <- (Qmult_1_l (inject_Z n)) at 2.
    now apply Qmult_lt_compat_r.
Qed.

Lemma at_index_in {A : Type} (l : list A) (i : Z) :
  0 <= i < Z.of_nat (List.length l) -> exists x, at_index l i = Some x /\ In x l.
Proof.
  intro H. unfold at_index.
  replace (i <? 0) with false by (symmetry; apply Z.ltb_ge; lia).
  destruct (nth_error l (Z.to_nat i)) as [x|] eqn:E.
  - exists x. split; [reflexivity|]. eapply nth_error_In; eauto.
  - apply nth_error_None in E. lia.
Qed.

Lemma Z_toString_nonempty (z : Z) : Z_toString z <> "".
Proof.
  intro H. pose proof (decimal_Z_toString z) as D. rewrite H in D. discriminate.
Qed.

Lemma of_Z_le (a b : Z) : num_le (of_Z a) (of_Z b) = true <-> a <= b.
Proof.
  unfold of_Z. cbn [num_le]. rewrite Qle_bool_iff, Zle_Qle. reflexivity.
Qed.

Section DemoData.

Variable random : nat -> Q.
Variable idClock now : Z.
Hypothesis draws : unit_draws random.

Lemma demo_draw (k : nat) (n : Z) : 0 < n -> 0 <= floor_times (random k) n < n.
Proof. intro Hn. destruct (draws k). now apply floor_times_range. Qed.

Lemma demo_title (url : string) :
  exists t, In t demoTitles
            /\ title (Demo.generateDemoAuctionData random idClock now url)
               = (t ++ " (Demo Mode)")%string.
Proof.
  unfold Demo.generateDemoAuctionData. cbn [title].
  destruct (at_index_in demoTitles (floor_times (random 0%nat) 10)) as (t & Et & Ht);
    [exact (demo_draw 0%nat 10 ltac:(lia))|].
  rewrite Et. now exists t.
Qed.

(** What the dashboard relies on. *)
Lemma demo_data_core (url : string) :
  let d := Demo.generateDemoAuctionData random idClock now url in
  (exists c, currentBid d = of_Z c /\ c <= 899)
  /\ (exists t, endTime d = new_Date t /\ now + 60 * 60 * 1000 <= t)
  /\ includes (title d) "(Demo Mode)" = true.
Proof.
  cbv zeta. split; [|split].
  - unfold Demo.generateDemoAuctionData. cbn [currentBid].
    pose proof (demo_draw 1%nat 800 ltac:(lia)).
    eexists. split; [reflexivity|lia].
  - unfold Demo.generateDemoAuctionData. cbv zeta. cbn [endTime].
    pose proof (demo_draw 2%nat 48 ltac:(lia)).
    pose proof (demo_draw 3%nat 60 ltac:(lia)).
    eexists. split; [reflexivity | lia].
  - destruct (demo_title url) as (t & _ & ->).
    unfold includes. rewrite chars_app. now apply includes_chars_app_r.
Qed.

(** X15.  What demo data looks like.  With every draw of [Math.random ()] in
    the unit interval, the generated current bid is a whole number from 100
    to 899 (the value 900 of the comment is never reached), the end time is
    the date of a time value between one hour and 48 hours 59 minutes after
    the clock reading (a valid date for every clock reading that leaves room
    for them in the range of dates), the title is one of the ten demo titles
    followed by the demo marker, the item id is not empty, the bid count is
    from 1 to 25, and condition, location and shipping are each one of their
    four texts. *)
Theorem demo_data_ranges (url : string) :
  let d := Demo.generateDemoAuctionData random idClock now url in
  (exists c, currentBid d = of_Z c /\ 100 <= c <= 899)
  /\ (exists t, endTime d = new_Date t
                /\ now + 60 * 60 * 1000 <= t <= now + (48 * 60 + 59) * 60 * 1000
                /\ (Z.abs now <= 8640000000000000 - (48 * 60 + 59) * 60 * 1000 ->
                    endTime d = Time t))
  /\ (exists t, In t demoTitles /\ title d = (t ++ " (Demo Mode)")%string)
  /\ itemId d <> ""
  /\ (exists n, bidCount (details d) = Some n /\ 1 <= n <= 25)
  /\ (exists x, condition (details d) = Some x /\ In x demoConditions)
  /\ (exists x, location (details d) = Some x /\ In x demoLocations)
  /\ (exists x, shipping (details d) = Some x /\ In x demoShippings).
Proof.
  cbv zeta.
  split; [|split; [|split; [exact (demo_title url)|]]];
    unfold Demo.generateDemoAuctionData; cbv zeta;
    cbn [currentBid endTime itemId details bidCount condition location shipping].
  - pose proof (demo_draw 1%nat 800 ltac:(lia)).
    eexists. split; [reflexivity|lia].
  - pose proof (demo_draw 2%nat 48 ltac:(lia)).
    pose proof (demo_draw 3%nat 60 ltac:(lia)).
    eexists. split; [reflexivity|]. split; [lia|].
    intro Hn. unfold new_Date.
    match goal with |- (if ?c then _ else _) = _ => replace c with true end;
      [reflexivity|].
    symmetry. apply Z.leb_le. lia.
  - split.
    { destruct (js_match url demoIdPattern) as [m|]; [|apply Z_toString_nonempty].
      cbv zeta.
      destruct (nth 1 m "") as [|a g]; [apply Z_toString_nonempty|discriminate]. }
    split.
    { pose proof (demo_draw 5%nat 25 ltac:(lia)).
      eexists. split; [reflexivity|lia]. }
    split; [apply at_index_in; exact (demo_draw 6%nat 4 ltac:(lia))|].
    split; apply at_index_in;
      [exact (demo_draw 7%nat 4 ltac:(lia)) | exact (demo_draw 8%nat 4 ltac:(lia))].
Qed.

Variable number_toString : number -> string.

(** X16.  A demo auction in the dashboard.  In demo mode, with a URL and a
    maximum of at least 900 typed in, [addAuction] never refuses: it appends
    the auction built from the demo data, whatever the service would say.
    Until 55 minutes have passed since the demo clock reading the timer
    leaves that auction as it is and requests nothing for it.  And because its title
    carries the demo marker, a refresh of it never consults the service, also
    after demo mode is switched off. *)
Theorem demo_auction_in_dashboard (service : string -> Result EbayAuctionData)
  (clock : Z) (st : State) (maxBidAmount : number) :
  let demo := Demo.generateDemoAuctionData random idClock now in
  let a := newAuction clock (newAuctionUrl st) maxBidAmount (demo (newAuctionUrl st)) in
  demoMode st = true ->
  is_blank (newAuctionUrl st) = false -> is_blank (newMaxBid st) = false ->
  parseFloat (newMaxBid st) = Some maxBidAmount ->
  num_le (of_Z 900) maxBidAmount = true ->
  auctions (addAuction demo service clock st) = auctions st ++ [a]
  /\ (forall t, t < now + 55 * 60 * 1000 -> snipe number_toString t a = (a, []))
  /\ (forall st' demo' monitor monitor' t,
         find (fun x => Auction.id x =? clock) (auctions st') = Some a ->
         refreshAuctionData demo' monitor t clock st'
         = refreshAuctionData demo' monitor' t clock st').
Proof.
  cbv zeta. intros Hd Hu Hm Hp Hmax.
  destruct (demo_data_core (newAuctionUrl st))
    as ((c & Ec & Hc) & (T & Hend & HT) & Hinc).
  split; [|split].
  - unfold addAuction. rewrite Hu, Hm, Hp. cbn [orb].
    assert (H0 : num_le maxBidAmount (of_Z 0) = false).
    { destruct (num_le maxBidAmount (of_Z 0)) eqn:E; [|reflexivity].
      pose proof (num_le_trans _ _ _ Hmax E) as H. apply of_Z_le in H. lia. }
    rewrite H0. unfold extractAuctionData.
    cbn [demoMode setIsAddingAuction newAuctionUrl]. rewrite Hd.
    assert (H1 : num_le maxBidAmount
                   (currentBid (Demo.generateDemoAuctionData random idClock now
                                  (newAuctionUrl st))) = false).
    { rewrite Ec. destruct (num_le maxBidAmount (of_Z c)) eqn:E; [|reflexivity].
      pose proof (num_le_trans _ _ _ Hmax E) as H. apply of_Z_le in H. lia. }
    rewrite H1. destruct st. reflexivity.
  - intros t Ht.
    set (a := newAuction clock (newAuctionUrl st) maxBidAmount
                (Demo.generateDemoAuctionData random idClock now (newAuctionUrl st))).
    assert (He : eligible a = true) by reflexivity.
    assert (Hleft : remaining t a = option_map (fun x => x - t) (getTime (new_Date T))).
    { unfold remaining, a, newAuction. cbn [Auction.endTime]. now rewrite Hend. }
    destruct (new_Date T) as [x|] eqn:Ex.
    + assert (x = T).
      { unfold new_Date in Ex. destruct (Z.abs T <=? 8640000000000000); congruence. }
      subst x. cbn [getTime option_map] in Hleft.
      rewrite (snipe_far number_toString t a (T - t) He Hleft) by lia.
      replace (T - t <=? 5 * 60 * 1000) with false
        by (symmetry; apply Z.leb_gt; lia).
      reflexivity.
    + cbn [getTime option_map] in Hleft.
      rewrite (snipe_by_remaining number_toString t a He), Hleft. reflexivity.
  - intros st' demo' monitor monitor' t Hf. unfold refreshAuctionData. rewrite Hf.
    unfold newAuction. cbn [Auction.title]. rewrite Hinc, orb_true_r. reflexivity.
Qed.

End DemoData.

Lemma sample_random_unit : unit_draws sample_random.
Proof. intro n. split; [discriminate | reflexivity]. Qed.

(** With every draw one half the demo bid is 500. *)
Lemma demo_data_ranges_witness :
  currentBid (Demo.generateDemoAuctionData sample_random 0 0 listing_url) = of_Z 500.
Proof.
  destruct (demo_data_ranges sample_random 0 0 sample_random_unit listing_url)
    as ((c & Hc & _) & _).
  rewrite Hc. vm_compute in Hc. exact (eq_sym Hc).
Defined.

(** In demo mode a maximum of 1000 is always enough to start tracking. *)
Lemma demo_auction_in_dashboard_witness :
  let st := mkState [] listing_url "1000" true [] false true in
  List.length (auctions (addAuction (Demo.generateDemoAuctionData sample_random 0 0)
                                    sample_service 1000 st)) = 1%nat.
Proof.
  cbv zeta.
  destruct (demo_auction_in_dashboard sample_random 0 0 sample_random_unit
              sample_toString sample_service 1000
              (mkState [] listing_url "1000" true [] false true) (of_Z 1000))
    as (H & _); [reflexivity..|].
  rewrite H. reflexivity.
Defined.

(** ** How often data is refreshed *)

Section Throttle.

Variable number_toString : number -> string.

(** X17.  Refreshes are throttled by the age of the data.  Once a refresh
    has stored new data at clock reading [now], the one-second timer requests
    no refresh of that auction until more than ten seconds have passed, and
    the thirty-second timer none until more than thirty seconds have passed.
    The thirty-second timer only ever asks for auctions that are active and
    monitored, so the data of an auction that is bidding, won or lost is
    never refreshed by it. *)
Theorem refresh_throttled (now : Z) (updatedData : EbayAuctionData) (a : Auction.t) :
  let a' := refreshed now updatedData a in
  (forall t auctionId, t <= now + 10000 ->
     ~ In (Call_refreshAuctionData auctionId) (snd (snipe number_toString t a')))
  /\ (forall t, t <= now + 30000 -> stale t a' = false)
  /\ (forall t st auctionId,
        In auctionId (autoRefreshTick t st) ->
        exists x, In x (auctions st) /\ Auction.id x = auctionId
                  /\ Auction.isActive x = true /\ Auction.status x = Status.monitoring
                  /\ 30000 < t - Auction.lastUpdated x).
Proof.
  cbv zeta. split; [|split].
  - intros t auctionId Ht Hin.
    set (a' := refreshed now updatedData a) in *.
    apply refresh_request in Hin as (_ & _ & _ & Hold & _).
    unfold a', refreshed in Hold. cbn [Auction.lastUpdated] in Hold. lia.
  - intros t Ht. unfold stale, refreshed. cbn [Auction.lastUpdated].
    replace (30000 <? t - now) with false by (symmetry; apply Z.ltb_ge; lia).
    apply andb_false_r.
  - intros t st auctionId Hin. unfold autoRefreshTick in Hin.
    apply in_map_iff in Hin as (x & Hid & Hx). apply filter_In in Hx as [Hx Hs].
    unfold stale in Hs. rewrite !andb_true_iff in Hs. destruct Hs as [[Hact Hst] Hold].
    exists x. repeat split; auto.
    + now apply Status_eqb_eq.
    + now apply Z.ltb_lt.
Qed.

End Throttle.

(** Five seconds after a refresh of the outpriced camera nothing asks for
    another one. *)
Lemma refresh_throttled_witness :
  stale 9000 (refreshed 4000 (sample_demo "") sample_outpriced) = false.
Proof.
  destruct (refresh_throttled sample_toString 4000 (sample_demo "") sample_outpriced)
    as (_ & H & _).
  apply H. lia.
Defined.

(** ** Repeated attempts among the alternative URLs *)

Lemma replace_first_absent (s p r : list ascii) :
  includes_chars s p = false -> replace_first_chars s p r = s.
Proof.
  induction s as [|c s IH]; cbn [includes_chars replace_first_chars]; intro H.
  - rewrite orb_false_r in H. now rewrite H.
  - apply orb_false_iff in H as [H1 H2]. rewrite H1. now rewrite IH.
Qed.

(** X18.  The alternative URLs repeat earlier attempts.  When the cleaned URL
    does not hold [www.ebay.com], the mobile URL is the cleaned URL itself, so
    the first alternative scrape repeats the direct scrape; when it names
    none of the seven regional domains, the simplified URL is the direct item
    URL, so the second and third alternatives are the same address. *)
Theorem alternatives_repeat (processedUrl itemId : string) :
  (includes processedUrl "www.ebay.com" = false ->
   nth 0 (Chain.alternativeUrls processedUrl itemId) "" = processedUrl)
  /\ (forallb (fun domain => negb (includes processedUrl domain))
              ["ebay.co.uk"; "ebay.de"; "ebay.fr"; "ebay.it"; "ebay.es"; "ebay.ca";
               "ebay.com.au"] = true ->
      nth 1 (Chain.alternativeUrls processedUrl itemId) ""
      = nth 2 (Chain.alternativeUrls processedUrl itemId) "").
Proof.
  unfold Chain.alternativeUrls. cbn [nth]. split.
  - intro H. unfold convertToMobileUrl, replace_first. unfold includes in H.
    rewrite replace_first_absent by exact H. apply text_chars.
  - intro H. cbn [forallb] in H. rewrite !andb_true_iff, !negb_true_iff in H.
    destruct H as (H1 & H2 & H3 & H4 & H5 & H6 & H7 & _).
    unfold simplifyEbayUrl. now rewrite H1, H2, H3, H4, H5, H6, H7.
Qed.

(** A German listing: the mobile URL is the listing URL again. *)
Lemma alternatives_repeat_witness :
  nth 0 (Chain.alternativeUrls "https://www.ebay.de/itm/1" "1") ""
  = "https://www.ebay.de/itm/1".
Proof.
  destruct (alternatives_repeat "https://www.ebay.de/itm/1" "1") as [H _].
  apply H. reflexivity.
Defined.

(** ** The title *)

Lemma drop_spaces_idem (s : list ascii) : drop_spaces (drop_spaces s) = drop_spaces s.
Proof.
  induction s as [|c s IH]; [reflexivity|]. cbn [drop_spaces].
  destruct (is_space c) eqn:E; [exact IH|]. cbn [drop_spaces]. now rewrite E.
Qed.

Lemma drop_spaces_head (s : list ascii) :
  drop_spaces s = [] \/ exists c t, drop_spaces s = c :: t /\ is_space c = false.
Proof.
  induction s as [|c s IH]; [now left|]. cbn [drop_spaces].
  destruct (is_space c) eqn:E; [exact IH|]. right. now exists c, s.
Qed.

Lemma drop_spaces_keeps_last (s : list ascii) (c : ascii) :
  is_space c = false -> exists t, drop_spaces (s ++ [c]) = t ++ [c].
Proof.
  intro Hc. induction s as [|a s IH]; cbn [app drop_spaces].
  - rewrite Hc. now exists [].
  - destruct (is_space a); [exact IH|]. now exists (a :: s).
Qed.

Lemma trim_idem (s : string) : trim (trim s) = trim s.
Proof.
  unfold trim. rewrite chars_text.
  set (d := drop_spaces (chars s)).
  assert (Hl : drop_spaces (rev (drop_spaces (rev d))) = rev (drop_spaces (rev d))).
  { destruct (drop_spaces_head (chars s)) as [E|(c & t & E & Hc)]; fold d in E; rewrite E.
    - reflexivity.
    - cbn [rev]. destruct (drop_spaces_keeps_last (rev t) c Hc) as (u & ->).
      rewrite rev_app_distr. cbn [rev app drop_spaces]. now rewrite Hc. }
  rewrite Hl, rev_involutive, drop_spaces_idem. reflexivity.
Qed.

(** X19.  The title comes out trimmed.  Whatever the page, the text
    [extractTitle] returns has no white space at either end, so trimming it
    again changes nothing; and a page without a usable metadata title, a
    main heading or a heading line in its text is given the fixed title. *)
Theorem extractTitle_trimmed (page : PageData) :
  trim (extractTitle page) = extractTitle page
  /\ (metadata_title page = None -> extract page = None ->
      js_match (markdown page) titlePattern = None ->
      extractTitle page = "eBay Auction Item").
Proof.
  split.
  - unfold extractTitle, clean_title.
    destruct (metadata_title page) as [t|]; [destruct (truthy t)|];
      try apply trim_idem;
      (destruct (extract page) as [ex|];
       [destruct (headings ex) as [hs|]; [destruct (find _ hs)|]|]);
      try apply trim_idem;
      (destruct (js_match (markdown page) titlePattern);
       [apply trim_idem | reflexivity]).
  - intros Hmeta Hex Hmd. unfold extractTitle. now rewrite Hmeta, Hex, Hmd.
Qed.

(** A page with nothing to go by gets the fixed title. *)
Lemma extractTitle_trimmed_witness :
  extractTitle (mkPage "no heading here" None None) = "eBay Auction Item".
Proof.
  apply (proj2 (extractTitle_trimmed (mkPage "no heading here" None None)));
    reflexivity.
Defined.

(** ** The end time *)

Section RxGroups.

Variable P : ascii -> bool.

Let all_P (g : list ascii) : Prop := Forall (fun c => P c = true) g.

Let tidy (st : Rx.Cursor) : Prop :=
  Forall all_P (Rx.closed st)
  /\ match Rx.current st with Some g => all_P g | None => True end.

Let inside (st : Rx.Cursor) : bool :=
  match Rx.current st with Some _ => true | None => false end.

Lemma tidy_consume (k : CharClass) (c : ascii) (st : Rx.Cursor) :
  (if inside st then class_within true P k else true) = true ->
  class_matches true k c = true -> tidy st -> tidy (Rx.consume c st).
Proof.
  unfold tidy, inside, Rx.consume. intros Hk Hc [H1 H2]. cbn [Rx.closed Rx.current].
  split; [exact H1|].
  destruct (Rx.current st) as [g|]; cbn [option_map]; [|exact I].
  constructor; [|exact H2]. eapply class_within_spec; eauto.
Qed.

Lemma inside_consume (c : ascii) (st : Rx.Cursor) : inside (Rx.consume c st) = inside st.
Proof. unfold inside, Rx.consume. cbn. now destruct (Rx.current st). Qed.

Lemma rx_match_here_within (re : list Rx.Item) :
  forall s st st',
    rx_within P (inside st) re = true -> tidy st ->
    Rx.match_here true re s st = Some st' -> Forall all_P (Rx.closed st').
Proof.
  induction re as [|i re IH]; intros s st st' Hw Ht Hm.
  - cbn in Hm. injection Hm as <-. exact (proj1 Ht).
  - destruct i as [k q| | |]; cbn [rx_within] in Hw.
    + apply andb_true_iff in Hw as [Hk Hw].
      assert (Hstep : forall c s' r,
                 class_matches true k c = true ->
                 Rx.match_here true re s' (Rx.consume c st) = Some r ->
                 Forall all_P (Rx.closed r)).
      { intros c s' r Hc Hr. eapply IH; [|eapply tidy_consume; eauto|exact Hr].
        now rewrite inside_consume. }
      destruct q; cbn [Rx.match_here] in Hm.
      * (* Once *)
        destruct s as [|c s]; [discriminate|].
        destruct (class_matches true k c) eqn:Ec; [|discriminate]. eauto.
      * (* Opt *)
        destruct s as [|c s]; [eapply IH; eauto|].
        destruct (class_matches true k c) eqn:Ec; [|eapply IH; eauto].
        destruct (Rx.match_here true re s (Rx.consume c st)) as [r|] eqn:Er.
        -- injection Hm as <-. eauto.
        -- eapply IH; eauto.
      * (* Star *)
        clear Hstep. revert st Hk Hw Ht Hm.
        induction s as [|c s IHs]; intros st Hk Hw Ht Hm.
        -- eapply IH; eauto.
        -- destruct (class_matches true k c) eqn:Ec; [|eapply IH; eauto].
           match type of Hm with
           | match ?x with _ => _ end = _ => destruct x as [r|] eqn:Er
           end.
           ++ injection Hm as <-.
              eapply (IHs (Rx.consume c st));
                [| |eapply tidy_consume; eauto|exact Er];
                now rewrite inside_consume.
           ++ eapply IH; eauto.
      * (* LazyStar *)
        clear Hstep. revert st Hk Hw Ht Hm.
        induction s as [|c s IHs]; intros st Hk Hw Ht Hm.
        -- destruct (Rx.match_here true re [] st) as [r|] eqn:Er; [|discriminate].
           injection Hm as <-. eapply IH; eauto.
        -- destruct (Rx.match_here true re (c :: s) st) as [r|] eqn:Er.
           ++ injection Hm as <-. eapply IH; eauto.
           ++ destruct (class_matches true k c) eqn:Ec; [|discriminate].
              eapply (IHs (Rx.consume c st));
                [| |eapply tidy_consume; eauto|exact Hm];
                now rewrite inside_consume.
    + cbn [Rx.match_here] in Hm.
      eapply (IH s (Rx.open_group st)); [exact Hw| |exact Hm].
      split; [exact (proj1 Ht) | constructor].
    + cbn [Rx.match_here] in Hm.
      eapply (IH s (Rx.close_group st)); [exact Hw| |exact Hm].
      destruct Ht as [H1 H2]. split; [|exact I].
      unfold Rx.close_group. cbn [Rx.closed].
      constructor; [|exact H1]. destruct (Rx.current st); [exact H2 | constructor].
    + apply andb_true_iff in Hw as [Hi Hw]. apply negb_true_iff in Hi.
      cbn [Rx.match_here] in Hm.
      destruct s as [|c s]; [eapply IH; eauto|].
      destruct (code c =? 10)%nat; [|discriminate].
      eapply (IH s (Rx.consume c st)); [now rewrite inside_consume| |exact Hm].
      destruct Ht as [H1 H2]. unfold inside in Hi. unfold tidy, Rx.consume.
      cbn [Rx.closed Rx.current]. split; [exact H1|].
      destruct (Rx.current st); [discriminate | exact I].
Qed.

Lemma rx_groups_within (re : list Rx.Item) (s : string) (m : list string) :
  rx_within P false re = true -> Rx.groups s re = Some m ->
  Forall (fun g => forallb P (chars g) = true) m.
Proof.
  intros Hw. unfold Rx.groups.
  destruct (Rx.search true re (chars s)) as [st|] eqn:Es; [|discriminate].
  intros [= <-].
  assert (Hc : Forall all_P (Rx.closed st)).
  { revert Es. induction (chars s) as [|c l IH]; cbn [Rx.search].
    - destruct (Rx.match_here true re [] Rx.start) as [r|] eqn:Er; [|discriminate].
      intros [= <-].
      eapply (rx_match_here_within re _ Rx.start); [exact Hw| |exact Er].
      split; [constructor | exact I].
    - destruct (Rx.match_here true re (c :: l) Rx.start) as [r|] eqn:Er; [|exact IH].
      intros [= <-].
      eapply (rx_match_here_within re _ Rx.start); [exact Hw| |exact Er].
      split; [constructor | exact I]. }
  apply Forall_map, Forall_rev. eapply Forall_impl; [|exact Hc].
  intros g Hg. rewrite chars_text. apply forallb_forall. intros c Hin.
  apply in_rev in Hin. unfold all_P in Hg. rewrite Forall_forall in Hg. now apply Hg.
Qed.

End RxGroups.

Lemma digits_value_nonneg (d : list ascii) : 0 <= digits_value d.
Proof.
  unfold digits_value.
  assert (H : forall acc, 0 <= acc ->
                0 <= fold_left (fun acc c => 10 * acc + digit_value c) d acc).
  { induction d as [|c d IH]; intros acc Ha; [exact Ha|].
    cbn [fold_left]. apply IH. unfold digit_value. lia. }
  apply H. lia.
Qed.

Lemma hex_value_nonneg (c : ascii) (v : Z) : hex_value c = Some v -> 0 <= v.
Proof.
  unfold hex_value.
  repeat match goal with |- context [if ?b then _ else _] => destruct b end;
    intros [= <-]; lia.
Qed.

Lemma hex_prefix_nonneg (s : list ascii) :
  forall acc v,
    match acc with Some a => 0 <= a | None => True end ->
    hex_prefix acc s = Some v -> 0 <= v.
Proof.
  induction s as [|c s IH]; intros acc v Ha H; cbn [hex_prefix] in H.
  - subst acc. exact Ha.
  - destruct (hex_value c) as [x|] eqn:E; [|subst acc; exact Ha].
    apply hex_value_nonneg in E. eapply IH; [|exact H].
    destruct acc as [a|]; cbn beta iota; lia.
Qed.

(** Without a minus sign in front, the integer read is not negative. *)
Lemma mathInt_nonneg (s : string) (n : Z) :
  match drop_spaces (chars s) with
  | c :: _ => ascii_eqb c "-" = false
  | [] => True
  end ->
  mathInt s = Some n -> 0 <= n.
Proof.
  unfold mathInt. intro H.
  assert (Hm : forall s2 : list ascii,
             match
               match s2 with
               | z :: x :: t =>
                   if ascii_eqb z "0" && (ascii_eqb x "x" || ascii_eqb x "X")
                   then hex_prefix None t
                   else match fst (take_digits s2) with
                        | [] => None
                        | d => Some (digits_value d)
                        end
               | _ => match fst (take_digits s2) with
                      | [] => None
                      | d => Some (digits_value d)
                      end
               end
             with
             | Some m => 0 <= m
             | None => True
             end).
  { intro s2.
    assert (Hd : match match fst (take_digits s2) with
                       | [] => None
                       | d => Some (digits_value d)
                       end with
                 | Some m => 0 <= m
                 | None => True
                 end).
    { destruct (fst (take_digits s2)); [exact I | apply digits_value_nonneg]. }
    destruct s2 as [|z [|x t]]; try exact Hd.
    destruct (ascii_eqb z "0" && (ascii_eqb x "x" || ascii_eqb x "X")); [|exact Hd].
    destruct (hex_prefix None t) as [v|] eqn:E; [|exact I].
    eapply hex_prefix_nonneg; [|exact E]. exact I. }
  destruct (drop_spaces (chars s)) as [|c t].
  - specialize (Hm []). cbn in Hm |- *. discriminate.
  - rewrite H.
    destruct (ascii_eqb c "+"); cbv beta iota zeta;
      [specialize (Hm t) | specialize (Hm (c :: t))];
      match goal with
      | H0 : match ?x with Some _ => _ | None => True end |- _ =>
          destruct x as [m|]; [intros [= <-]; exact H0 | discriminate]
      end.
Qed.

Lemma parseInt_nonneg (s : string) :
  match drop_spaces (chars s) with
  | c :: _ => ascii_eqb c "-" = false
  | [] => True
  end ->
  match parseInt s with
  | NotANumber => True
  | Exactly n => 0 <= n < 2 ^ 53
  | Beyond negative => negative = false
  end.
Proof.
  intro H. unfold parseInt. destruct (mathInt s) as [n|] eqn:E; [|exact I].
  apply (mathInt_nonneg s n H) in E.
  destruct (Z.ltb_spec (Z.abs n) (2 ^ 53)); [lia|].
  apply Z.ltb_ge. exact E.
Qed.

Lemma parseInt_or_0_nonneg (s : string) (n : Z) :
  match drop_spaces (chars s) with
  | c :: _ => ascii_eqb c "-" = false
  | [] => True
  end ->
  parseInt_or_0 s = Some n -> 0 <= n.
Proof.
  intro H. apply parseInt_nonneg in H. unfold parseInt_or_0.
  destruct (parseInt s); [intros [= <-]; lia | intros [= <-]; lia | discriminate].
Qed.

Lemma digit_plain (c : ascii) : is_digit c = true -> plain c = true.
Proof.
  intro H.
  assert (Hall : forallb (fun c => implb (is_digit c) (plain c)) all_ascii = true)
    by (vm_compute; reflexivity).
  rewrite forallb_forall in Hall. specialize (Hall c (all_ascii_complete c)).
  now rewrite H in Hall.
Qed.

Lemma digits_no_minus (s : string) :
  forallb is_digit (chars s) = true ->
  match drop_spaces (chars s) with
  | c :: _ => ascii_eqb c "-" = false
  | [] => True
  end.
Proof.
  intro H. destruct (chars s) as [|c t]; [exact I|].
  cbn [forallb] in H. apply andb_true_iff in H as [Hc _].
  apply digit_plain in Hc. unfold plain in Hc.
  rewrite !andb_true_iff, !negb_true_iff in Hc. destruct Hc as [[Hs Hm] _].
  cbn [drop_spaces]. rewrite Hs. exact Hm.
Qed.

Lemma parseInt_or_0_count (s : string) (n : Z) :
  forallb is_digit (chars s) = true -> parseInt_or_0 s = Some n -> 0 <= n.
Proof. intro H. apply parseInt_or_0_nonneg. now apply digits_no_minus. Qed.

Lemma new_Date_cases (value : Z) :
  new_Date value = InvalidDate \/ new_Date value = Time value.
Proof. unfold new_Date. destruct (Z.abs value <=? 8640000000000000); auto. Qed.

Lemma new_Date_valid (value : Z) :
  Z.abs value <= 8640000000000000 -> new_Date value = Time value.
Proof. intro H. unfold new_Date. apply Z.leb_le in H. now rewrite H. Qed.

Lemma new_Date_invalid (value : Z) :
  8640000000000000 < Z.abs value -> new_Date value = InvalidDate.
Proof. intro H. unfold new_Date. apply Z.leb_gt in H. now rewrite H. Qed.

Lemma date_after_cases (now : Z) (minutes : option Z) :
  date_after now minutes = InvalidDate
  \/ exists m, minutes = Some m /\ date_after now minutes = Time (now + m * 60 * 1000).
Proof.
  destruct minutes as [m|]; [|now left]. cbn [date_after].
  destruct (new_Date_cases (now + m * 60 * 1000)) as [E|E]; [now left|].
  right. now exists m.
Qed.

Lemma time_of_match_minutes (now : Z) (m : list string) (t : Date) :
  time_of_match now m = Some t ->
  t = InvalidDate \/ exists minutes, t = Time (now + minutes * 60 * 1000).
Proof.
  unfold time_of_match. cbv zeta.
  repeat match goal with |- context [if ?b then _ else _] => destruct b end;
    intros [= <-];
    match goal with
    | |- date_after ?n ?x = _ \/ _ =>
        destruct (date_after_cases n x) as [E|(k & _ & E)];
          [now left | right; now exists k]
    end.
Qed.

Lemma time_of_match_counts (now : Z) (m : list string) (t : Z) :
  Forall (fun g => forallb is_digit (chars g) = true) m ->
  time_of_match now m = Some (Time t) -> now <= t.
Proof.
  intros Hm.
  assert (Hn : forall i n, parseInt_or_0 (nth i m "") = Some n -> 0 <= n).
  { intros i n. apply parseInt_or_0_count.
    destruct (nth_in_or_default i m "") as [Hin | ->]; [|reflexivity].
    rewrite Forall_forall in Hm. now apply Hm. }
  pose proof (Hn 0%nat) as H0. pose proof (Hn 1%nat) as H1. pose proof (Hn 2%nat) as H2.
  unfold time_of_match. cbv zeta.
  destruct (parseInt_or_0 (nth 0 m "")) as [x|];
    destruct (parseInt_or_0 (nth 1 m "")) as [y|];
    destruct (parseInt_or_0 (nth 2 m "")) as [z|];
    try specialize (H0 _ eq_refl); try specialize (H1 _ eq_refl);
    try specialize (H2 _ eq_refl);
    repeat match goal with |- context [if ?b then _ else _] => destruct b end;
    cbn [date_after]; try discriminate;
    intros [= E];
    match type of E with
    | new_Date ?v = _ =>
        destruct (new_Date_cases v) as [E'|E']; rewrite E' in E;
          [discriminate | injection E as <-; lia]
    end.
Qed.

Lemma first_time_app (a b : list (list Rx.Item)) (now : Z) (markdown : string) :
  first_time (a ++ b) now markdown
  = match first_time a now markdown with
    | Some t => Some t
    | None => first_time b now markdown
    end.
Proof.
  induction a as [|p a IH]; [reflexivity|]. cbn [app first_time].
  destruct (Rx.groups markdown p) as [m|]; [|exact IH].
  destruct (time_of_match now m); [reflexivity | exact IH].
Qed.

Lemma first_time_minutes (patterns : list (list Rx.Item)) (now : Z) (markdown : string)
  (t : Date) :
  first_time patterns now markdown = Some t ->
  t = InvalidDate \/ exists minutes, t = Time (now + minutes * 60 * 1000).
Proof.
  induction patterns as [|p l IH]; cbn [first_time]; [discriminate|].
  destruct (Rx.groups markdown p) as [m|]; [|exact IH].
  destruct (time_of_match now m) as [t'|] eqn:E; [|exact IH].
  intros [= <-]. eapply time_of_match_minutes; eauto.
Qed.

Lemma first_time_counts (patterns : list (list Rx.Item)) (now : Z) (markdown : string)
  (t : Z) :
  forallb (rx_within is_digit false) patterns = true ->
  first_time patterns now markdown = Some (Time t) -> now <= t.
Proof.
  induction patterns as [|p l IH]; cbn [first_time forallb]; [discriminate|].
  intro H. apply andb_true_iff in H as [Hp Hl].
  destruct (Rx.groups markdown p) as [m|] eqn:Eg; [|now apply IH].
  destruct (time_of_match now m) as [t'|] eqn:E; [|now apply IH].
  intros [= ->]. eapply time_of_match_counts; [|exact E].
  eapply rx_groups_within; eauto.
Qed.

Lemma first_time_none (patterns : list (list Rx.Item)) (now : Z) (markdown : string) :
  (forall p, In p patterns -> Rx.groups markdown p = None) ->
  first_time patterns now markdown = None.
Proof.
  induction patterns as [|p l IH]; intro H; [reflexivity|]. cbn [first_time].
  rewrite (H p) by now left. apply IH. intros q Hq. apply H. now right.
Qed.

(** X20.  What [extractEndTime] can give.  The end time is the Invalid Date
    or a valid date a whole number of minutes away from the clock reading.
    A valid end time is never before the clock reading when it comes from
    one of the four patterns that count days, hours and minutes, or from the
    default of two hours, which is used when no pattern matches; a valid end
    time in the past can come only from the fifth pattern, whose text after
    the words [ends in] may be a negative number, as in [ends in -5], which
    gives five minutes ago.  The Invalid Date arises from counts that lead
    beyond the range of dates: with the clock at or after the epoch,
    [200000000d 0h 0m] gives it. *)
Theorem extractEndTime_bounds (now : Z) (markdown : string) :
  let t := extractEndTime now markdown in
  (t = InvalidDate \/ exists minutes, t = Time (now + minutes * 60 * 1000))
  /\ ((forall ms, t = Time ms -> now <= ms)
      \/ (first_time countPatterns now markdown = None
          /\ exists m, Rx.groups markdown endsInPattern = Some m
                       /\ time_of_match now m = Some t))
  /\ ((forall p, In p timePatterns -> Rx.groups markdown p = None) ->
      t = new_Date (now + 2 * 60 * 60 * 1000))
  /\ extractEndTime now "ends in -5" = new_Date (now - 5 * 60 * 1000)
  /\ (0 <= now -> extractEndTime now "200000000d 0h 0m" = InvalidDate).
Proof.
  cbv zeta.
  assert (Hsplit : timePatterns = countPatterns ++ [endsInPattern]) by reflexivity.
  assert (Hdef : forall ms, new_Date (now + 2 * 60 * 60 * 1000) = Time ms -> now <= ms).
  { intros ms E. destruct (new_Date_cases (now + 2 * 60 * 60 * 1000)) as [E'|E'];
      rewrite E' in E; [discriminate | injection E as <-; lia]. }
  split; [|split; [|split; [|split]]].
  - unfold extractEndTime.
    destruct (first_time timePatterns now markdown) as [t|] eqn:E.
    + eapply first_time_minutes; eauto.
    + destruct (new_Date_cases (now + 2 * 60 * 60 * 1000)) as [E'|E']; rewrite E';
        [now left | right; exists 120; f_equal; lia].
  - unfold extractEndTime. rewrite Hsplit, first_time_app.
    destruct (first_time countPatterns now markdown) as [t|] eqn:E.
    + left. intros ms ->. eapply first_time_counts; [|exact E]. vm_compute. reflexivity.
    + cbn [first_time].
      destruct (Rx.groups markdown endsInPattern) as [m|] eqn:Eg; [|left; exact Hdef].
      destruct (time_of_match now m) as [t|] eqn:Et; [|left; exact Hdef].
      right. split; [reflexivity|]. now exists m.
  - intro H. unfold extractEndTime. now rewrite first_time_none.
  - unfold extractEndTime. rewrite Hsplit, first_time_app.
    rewrite first_time_none.
    + cbn [first_time].
      replace (Rx.groups "ends in -5" endsInPattern) with (Some ["-5"%string])
        by (vm_compute; reflexivity).
      unfold time_of_match. cbn [nth truthy].
      replace (parseInt_or_0 "-5") with (Some (-5)) by (vm_compute; reflexivity).
      cbn [date_after]. f_equal; lia.
    + intros p Hp. unfold countPatterns, timePatterns in Hp. cbn [firstn In] in Hp.
      repeat (destruct Hp as [<-|Hp]; [vm_compute; reflexivity|]). destruct Hp.
  - intro Hnow. unfold extractEndTime, timePatterns. cbn [first_time].
    match goal with
    | |- context [Rx.groups ?s ?p] =>
        replace (Rx.groups s p) with (Some ["200000000"; "0"; "0"]%string)
          by (vm_compute; reflexivity)
    end.
    unfold time_of_match. cbn [nth truthy].
    replace (parseInt_or_0 "200000000") with (Some 200000000)
      by (vm_compute; reflexivity).
    replace (parseInt_or_0 "0") with (Some 0) by (vm_compute; reflexivity).
    cbn [date_after]. apply new_Date_invalid. lia.
Qed.

(** A page that says nothing about time ends in two hours. *)
Lemma extractEndTime_bounds_witness :
  extractEndTime 0 "Vintage camera" = Time (2 * 60 * 60 * 1000).
Proof.
  destruct (extractEndTime_bounds 0 "Vintage camera") as (_ & _ & H & _).
  apply H. intros p Hp. unfold timePatterns in Hp. cbn [In] in Hp.
  repeat (destruct Hp as [<-|Hp]; [vm_compute; reflexivity|]). destruct Hp.
Defined.

(** ** Reading a countdown *)

Lemma rx_star_run (k : CharClass) (re : list Rx.Item) (run rest : list ascii) :
  forall (st r : Rx.Cursor),
  forallb (class_matches true k) run = true ->
  match rest with c :: _ => class_matches true k c = false | [] => True end ->
  Rx.match_here true re rest (eat run st) = Some r ->
  Rx.match_here true (Rx.Atom k Star :: re) (run ++ rest) st = Some r.
Proof.
  induction run as [|a run IH]; intros st r Hrun Hrest Hm.
  - cbn [app]. unfold eat in Hm. cbn [fold_left] in Hm.
    destruct rest as [|c rest']; cbn [Rx.match_here]; [exact Hm|].
    now rewrite Hrest.
  - cbn [forallb] in Hrun. apply andb_true_iff in Hrun as [Ha Hrun].
    specialize (IH (Rx.consume a st) r Hrun Hrest Hm).
    cbn [app Rx.match_here] in IH |- *. now rewrite Ha, IH.
Qed.

Lemma rx_once (k : CharClass) (re : list Rx.Item) (c : ascii) (s : list ascii)
  (st : Rx.Cursor) :
  class_matches true k c = true ->
  Rx.match_here true (Rx.Atom k Once :: re) (c :: s) st
  = Rx.match_here true re s (Rx.consume c st).
Proof. intro H. cbn [Rx.match_here]. now rewrite H. Qed.

Lemma rx_count_run (re : list Rx.Item) (c : ascii) (run rest : list ascii)
  (st r : Rx.Cursor) :
  forallb is_digit (c :: run) = true ->
  match rest with x :: _ => is_digit x = false | [] => True end ->
  Rx.match_here true re rest (Rx.close_group (eat (c :: run) (Rx.open_group st))) = Some r ->
  Rx.match_here true (Rx.count ++ re) ((c :: run) ++ rest) st = Some r.
Proof.
  intros Hd Hrest Hm. cbn [forallb] in Hd. apply andb_true_iff in Hd as [Hc Hrun].
  change (Rx.match_here true (Rx.count ++ re) ((c :: run) ++ rest) st)
    with (Rx.match_here true (Rx.Atom Digit Once :: Rx.Atom Digit Star :: Rx.Close :: re)
            (c :: run ++ rest) (Rx.open_group st)).
  rewrite rx_once by exact Hc.
  apply rx_star_run; [exact Hrun | exact Hrest | exact Hm].
Qed.

Lemma rx_search_hit (re : list Rx.Item) (s : list ascii) (st : Rx.Cursor) :
  Rx.match_here true re s Rx.start = Some st -> Rx.search true re s = Some st.
Proof. intro H. destruct s; cbn [Rx.search]; now rewrite H. Qed.

Lemma closed_eat (run : list ascii) (st : Rx.Cursor) :
  Rx.closed (eat run st) = Rx.closed st
  /\ Rx.current (eat run st) = option_map (app (rev run)) (Rx.current st).
Proof.
  revert st. induction run as [|c run IH]; intro st.
  - unfold eat. cbn [fold_left rev]. split; [reflexivity|].
    destruct (Rx.current st); reflexivity.
  - unfold eat in *. cbn [fold_left]. destruct (IH (Rx.consume c st)) as [H1 H2].
    rewrite H1, H2. split; [reflexivity|].
    unfold Rx.consume. cbn [Rx.current]. destruct (Rx.current st); cbn [option_map rev];
      [|reflexivity].
    now rewrite <- app_assoc.
Qed.

Lemma pattern1_reads (D H M : string) :
  D <> "" -> H <> "" -> M <> "" ->
  forallb is_digit (chars D) = true -> forallb is_digit (chars H) = true ->
  forallb is_digit (chars M) = true ->
  Rx.groups (D ++ "d " ++ H ++ "h " ++ M ++ "m")%string (nth 0 timePatterns [])
  = Some [D; H; M].
Proof.
  intros nD nH nM dD dH dM.
  unfold Rx.groups.
  assert (Hne : forall s : string, s <> "" -> exists c t, chars s = c :: t).
  { intros s Hs. destruct s as [|c t]; [contradiction|]. now exists c, (chars t). }
  destruct (Hne D nD) as (cD & tD & ED). destruct (Hne H nH) as (cH & tH & EH).
  destruct (Hne M nM) as (cM & tM & EM).
  rewrite !chars_app, ED, EH, EM in *.
  change (chars "d ") with ["d"%char; " "%char].
  change (chars "h ") with ["h"%char; " "%char].
  change (chars "m") with ["m"%char].
  assert (sH : is_space cH = false).
  { cbn [forallb] in dH. apply andb_true_iff in dH as [Hc _].
    apply digit_plain in Hc. unfold plain in Hc.
    rewrite !andb_true_iff, !negb_true_iff in Hc. tauto. }
  assert (sM : is_space cM = false).
  { cbn [forallb] in dM. apply andb_true_iff in dM as [Hc _].
    apply digit_plain in Hc. unfold plain in Hc.
    rewrite !andb_true_iff, !negb_true_iff in Hc. tauto. }
  erewrite rx_search_hit.
  2:{ change (nth 0 timePatterns [])
        with (Rx.count ++ Rx.Atom (Lit "d") Once :: Rx.Atom Space Star
                :: (Rx.count ++ Rx.Atom (Lit "h") Once :: Rx.Atom Space Star
                      :: (Rx.count ++ [Rx.Atom (Lit "m") Once]))).
      apply rx_count_run; [exact dD | reflexivity |].
      cbn [app]. rewrite rx_once by reflexivity.
      apply (rx_star_run Space _ [" "%char] ((cH :: tH) ++ _)); [reflexivity | exact sH |].
      apply rx_count_run; [exact dH | reflexivity |].
      cbn [app]. rewrite rx_once by reflexivity.
      apply (rx_star_run Space _ [" "%char] ((cM :: tM) ++ _)); [reflexivity | exact sM |].
      apply rx_count_run; [exact dM | reflexivity |].
      cbn [app]. rewrite rx_once by reflexivity.
      reflexivity. }
  repeat (cbn [Rx.consume Rx.close_group Rx.closed Rx.current Rx.open_group option_map];
          rewrite ?(proj1 (closed_eat _ _)), ?(proj2 (closed_eat _ _))).
  cbn [Rx.start Rx.closed]. rewrite !app_nil_r.
  change (Some [text (rev (rev (cD :: tD))); text (rev (rev (cH :: tH)));
                text (rev (rev (cM :: tM)))] = Some [D; H; M]).
  rewrite !rev_involutive, <- ED, <- EH, <- EM, !text_chars.
  reflexivity.
Qed.

Lemma take_digits_all (l : list ascii) :
  forallb is_digit l = true -> take_digits l = (l, []).
Proof.
  induction l as [|c l IH]; [reflexivity|]. cbn [forallb take_digits]. intro H.
  apply andb_true_iff in H as [Hc Hl]. now rewrite Hc, IH.
Qed.

Lemma mathInt_count (s : string) :
  s <> "" -> forallb is_digit (chars s) = true ->
  mathInt s = Some (digits_value (chars s)).
Proof.
  intros Hs Hd. unfold mathInt.
  destruct (chars s) as [|c t] eqn:E.
  { apply (f_equal text) in E. rewrite text_chars in E. now destruct Hs. }
  pose proof Hd as Hd'. cbn [forallb] in Hd'. apply andb_true_iff in Hd' as [Hc Ht].
  pose proof (digit_plain c Hc) as Hp. unfold plain in Hp.
  rewrite !andb_true_iff, !negb_true_iff in Hp. destruct Hp as [[Hsp Hm] Hpl].
  cbn [drop_spaces]. rewrite Hsp, Hm, Hpl.
  assert (Hx : match t with
               | x :: _ => (ascii_eqb x "x" || ascii_eqb x "X") = false
               | [] => True
               end).
  { destruct t as [|x t']; [exact I|]. cbn [forallb] in Ht.
    apply andb_true_iff in Ht as [Hx _].
    assert (Hall : forallb (fun c => implb (is_digit c)
                                       (negb (ascii_eqb c "x" || ascii_eqb c "X")))
                           all_ascii = true) by (vm_compute; reflexivity).
    rewrite forallb_forall in Hall. specialize (Hall x (all_ascii_complete x)).
    rewrite Hx in Hall. now apply negb_true_iff in Hall. }
  rewrite (take_digits_all (c :: t) Hd). cbn [fst].
  destruct t as [|x t']; [reflexivity|]. rewrite Hx, andb_false_r. reflexivity.
Qed.

Lemma parseInt_count (s : string) :
  s <> "" -> forallb is_digit (chars s) = true ->
  0 <= digits_value (chars s)
  /\ parseInt s = if digits_value (chars s) <? 2 ^ 53
                  then Exactly (digits_value (chars s)) else Beyond false.
Proof.
  intros Hs Hd. pose proof (digits_value_nonneg (chars s)) as Hn.
  split; [exact Hn|]. unfold parseInt. rewrite (mathInt_count s Hs Hd).
  rewrite Z.abs_eq by exact Hn.
  destruct (digits_value (chars s) <? 2 ^ 53); [reflexivity|].
  replace (digits_value (chars s) <? 0) with false; [reflexivity|].
  symmetry. now apply Z.ltb_ge.
Qed.

Lemma uint_chars_digits (d : Decimal.uint) :
  forallb is_digit (chars (NilEmpty.string_of_uint d)) = true.
Proof. induction d; cbn; auto. Qed.

Lemma uint_chars_acc (d : Decimal.uint) :
  forall acc : positive,
    fold_left (fun acc c => 10 * acc + digit_value c)
              (chars (NilEmpty.string_of_uint d)) (Z.pos acc)
    = Z.pos (Pos.of_uint_acc d acc).
Proof.
  induction d; intro acc; cbn [NilEmpty.string_of_uint chars list_ascii_of_string
                                 fold_left Pos.of_uint_acc];
    try reflexivity; rewrite <- IHd; f_equal;
    match goal with
    | |- context [digit_value ?c] =>
        let v := eval vm_compute in (digit_value c) in change (digit_value c) with v
    end; lia.
Qed.

Lemma uint_chars_value (d : Decimal.uint) :
  digits_value (chars (NilEmpty.string_of_uint d)) = Z.of_N (Pos.of_uint d).
Proof.
  unfold digits_value.
  induction d; cbn [NilEmpty.string_of_uint chars list_ascii_of_string fold_left
                      Pos.of_uint]; try reflexivity;
    match goal with
    | |- context [10 * 0 + digit_value ?c] =>
        let v := eval vm_compute in (10 * 0 + digit_value c) in
        change (10 * 0 + digit_value c) with v
    end; [exact IHd | apply uint_chars_acc ..].
Qed.

Lemma Z_toString_count (n : Z) :
  0 <= n ->
  Z_toString n <> "" /\ forallb is_digit (chars (Z_toString n)) = true
  /\ parseInt_or_0 (Z_toString n) = if n <? 2 ^ 53 then Some n else None.
Proof.
  intro Hn.
  assert (H : forallb is_digit (chars (Z_toString n)) = true
              /\ digits_value (chars (Z_toString n)) = n).
  { unfold Z_toString. destruct n as [|p|p]; [split; reflexivity| |lia].
    cbn [Z.to_int NilZero.string_of_int]. unfold NilZero.string_of_uint.
    pose proof (DecimalPos.Unsigned.to_uint_nonnil p) as Hnil.
    destruct (Pos.to_uint p) eqn:E; [contradiction|..];
      rewrite <- E; (split; [apply uint_chars_digits|]);
      rewrite uint_chars_value, DecimalPos.Unsigned.of_to; reflexivity. }
  destruct H as [Hd Hv]. pose proof (Z_toString_nonempty n) as Hne.
  repeat split; auto.
  unfold parseInt_or_0. rewrite (proj2 (parseInt_count _ Hne Hd)), Hv.
  now destruct (n <? 2 ^ 53).
Qed.

(** X21.  A countdown in the short form is read back exactly.  For whole
    numbers of days, hours and minutes that are not negative, the text made
    of the three numbers followed by [d], [h] and [m] and separated by one
    space gives the date that many days, hours and minutes after the clock
    reading; this is a valid date whenever the clock is at or after the epoch
    and that time is within the range of dates.  A number of [2^53] or more
    gives the Invalid Date. *)
Theorem duration_text_read_back (now d h m : Z) :
  0 <= d -> 0 <= h -> 0 <= m ->
  let t := extractEndTime now (Z_toString d ++ "d " ++ Z_toString h ++ "h "
                                 ++ Z_toString m ++ "m") in
  t = (if (d <? 2 ^ 53) && (h <? 2 ^ 53) && (m <? 2 ^ 53)
       then new_Date (now + (d * 24 * 60 + h * 60 + m) * 60 * 1000)
       else InvalidDate)
  /\ (0 <= now ->
      now + (d * 24 * 60 + h * 60 + m) * 60 * 1000 <= 8640000000000000 ->
      t = Time (now + (d * 24 * 60 + h * 60 + m) * 60 * 1000)).
Proof.
  intros Hd Hh Hm. cbv zeta.
  destruct (Z_toString_count d Hd) as (nD & dD & vD).
  destruct (Z_toString_count h Hh) as (nH & dH & vH).
  destruct (Z_toString_count m Hm) as (nM & dM & vM).
  assert (E : extractEndTime now (Z_toString d ++ "d " ++ Z_toString h ++ "h "
                                    ++ Z_toString m ++ "m")
              = if (d <? 2 ^ 53) && (h <? 2 ^ 53) && (m <? 2 ^ 53)
                then new_Date (now + (d * 24 * 60 + h * 60 + m) * 60 * 1000)
                else InvalidDate).
  { unfold extractEndTime.
    change timePatterns with (nth 0 timePatterns [] :: tl timePatterns).
    cbn [first_time].
    rewrite (pattern1_reads _ _ _ nD nH nM dD dH dM).
    unfold time_of_match. cbn [nth].
    assert (Ht : truthy (Z_toString m) = true)
      by (destruct (Z_toString m); [contradiction | reflexivity]).
    rewrite Ht. cbv zeta. rewrite vD, vH, vM.
    destruct (d <? 2 ^ 53), (h <? 2 ^ 53), (m <? 2 ^ 53); reflexivity. }
  split; [exact E|].
  intros Hnow Hend. rewrite E.
  replace (d <? 2 ^ 53) with true by (symmetry; apply Z.ltb_lt; lia).
  replace (h <? 2 ^ 53) with true by (symmetry; apply Z.ltb_lt; lia).
  replace (m <? 2 ^ 53) with true by (symmetry; apply Z.ltb_lt; lia).
  cbn [andb]. apply new_Date_valid. lia.
Qed.

(** Two days, three hours and four minutes. *)
Lemma duration_text_read_back_witness :
  extractEndTime 1000 "2d 3h 4m" = Time (1000 + (2 * 24 * 60 + 3 * 60 + 4) * 60 * 1000).
Proof.
  destruct (duration_text_read_back 1000 2 3 4) as [_ H]; [lia..|].
  apply H; lia.
Defined.

(** ** The bid count *)

Section Weaken.

Variable ic : bool.
Variables A B : list Item.
Hypothesis AB : forall s st, match_here ic A s st <> None -> match_here ic B s st <> None.

Lemma match_here_weaken (pre : list Item) :
  forall s st, match_here ic (pre ++ A) s st <> None ->
               match_here ic (pre ++ B) s st <> None.
Proof.
  induction pre as [|i pre IH]; intros s st Hm; [now apply AB|].
  destruct i as [k q| | | |]; cbn [app match_here] in Hm |- *.
  - destruct q.
    + destruct s as [|c s]; [exact Hm|].
      destruct (class_matches ic k c); [now apply IH | exact Hm].
    + destruct s as [|c s]; [now apply IH|].
      destruct (class_matches ic k c); [|now apply IH].
      destruct (match_here ic (pre ++ B) s (consume c st)) eqn:EB; [discriminate|].
      apply IH.
      destruct (match_here ic (pre ++ A) s (consume c st)) eqn:EA; [|exact Hm].
      exfalso. apply (IH s (consume c st)); [now rewrite EA | exact EB].
    + revert st Hm. induction s as [|c s IHs]; intros st Hm; [now apply IH|].
      destruct (class_matches ic k c); [|now apply IH].
      match goal with
      | |- match ?x with _ => _ end <> None => destruct x eqn:EB
      end; [discriminate|].
      apply IH.
      match type of Hm with
      | match ?x with _ => _ end <> None => destruct x eqn:EA
      end; [|exact Hm].
      exfalso. apply (IHs (consume c st)); [now rewrite EA | exact EB].
    + revert st Hm. induction s as [|c s IHs]; intros st Hm.
      * destruct (match_here ic (pre ++ B) [] st) eqn:EB; [discriminate|].
        destruct (match_here ic (pre ++ A) [] st) eqn:EA; [|now destruct Hm].
        exfalso. apply (IH [] st); [now rewrite EA | exact EB].
      * destruct (match_here ic (pre ++ B) (c :: s) st) eqn:EB; [discriminate|].
        destruct (match_here ic (pre ++ A) (c :: s) st) eqn:EA.
        -- exfalso. apply (IH (c :: s) st); [now rewrite EA | exact EB].
        -- destruct (class_matches ic k c); [|now destruct Hm].
           now apply IHs.
  - now apply IH.
  - now apply IH.
  - destruct (at_line_start st); [now apply IH | exact Hm].
  - destruct (at_line_end s); [now apply IH | exact Hm].
Qed.

Lemma search_weaken (pre : list Item) (s : list ascii) :
  forall prev, search ic (pre ++ A) prev s <> None -> search ic (pre ++ B) prev s <> None.
Proof.
  induction s as [|c s IH]; intros prev Hs; cbn [search] in Hs |- *.
  - destruct (match_here ic (pre ++ B) [] (start_at prev)) eqn:EB; [discriminate|].
    destruct (match_here ic (pre ++ A) [] (start_at prev)) eqn:EA; [|now destruct Hs].
    exfalso. apply (match_here_weaken pre [] (start_at prev)); [now rewrite EA | exact EB].
  - destruct (match_here ic (pre ++ B) (c :: s) (start_at prev)) eqn:EB; [discriminate|].
    destruct (match_here ic (pre ++ A) (c :: s) (start_at prev)) eqn:EA.
    + exfalso. apply (match_here_weaken pre (c :: s) (start_at prev));
        [now rewrite EA | exact EB].
    + now apply IH.
Qed.

End Weaken.

Lemma bidder_is_bid (s : list ascii) (st : Cursor) :
  match_here true (lit "bidder" ++ opt (Lit "s")) s st <> None ->
  match_here true (lit "bid" ++ opt (Lit "s")) s st <> None.
Proof.
  change (lit "bidder" ++ opt (Lit "s"))
    with (Atom (Lit "b") Once :: Atom (Lit "i") Once :: Atom (Lit "d") Once
            :: Atom (Lit "d") Once :: Atom (Lit "e") Once :: Atom (Lit "r") Once
            :: [Atom (Lit "s") Opt]).
  change (lit "bid" ++ opt (Lit "s"))
    with (Atom (Lit "b") Once :: Atom (Lit "i") Once :: Atom (Lit "d") Once
            :: [Atom (Lit "s") Opt]).
  destruct s as [|c1 [|c2 [|c3 [|c4 s]]]]; cbn [match_here]; try tauto;
    (destruct (class_matches true (Lit "b") c1); cbn [match_here]; [|tauto]); try tauto;
    (destruct (class_matches true (Lit "i") c2); cbn [match_here]; [|tauto]); try tauto;
    (destruct (class_matches true (Lit "d") c3); cbn [match_here]; [|tauto]); try tauto.
  - destruct (class_matches true (Lit "d") c4) eqn:E4; [|tauto].
    intros _.
    assert (Hs : class_matches true (Lit "s") c4 = false).
    { assert (Hall : forallb (fun c => implb (class_matches true (Lit "d") c)
                                         (negb (class_matches true (Lit "s") c)))
                             all_ascii = true) by (vm_compute; reflexivity).
      rewrite forallb_forall in Hall. specialize (Hall c4 (all_ascii_complete c4)).
      rewrite E4 in Hall. now apply negb_true_iff in Hall. }
    rewrite Hs. discriminate.
Qed.

(** X22.  What [extractBidCount] can give.  When it gives a value at all, the
    value is never [NaN] and never negative: it is a whole number from 0 to
    below [2^53], or, for a longer run of digits, a positive double of size
    [2^53] or more (an infinity from about 309 digits on).  Its second
    pattern, for the word [bidders], never decides anything: whenever it
    matches, the first pattern, for [bid], has matched already, so the result
    is that of the first pattern alone. *)
Theorem extractBidCount_spec (markdown : string) :
  (forall r, extractBidCount markdown = Some r ->
     (exists n, r = Exactly n /\ 0 <= n < 2 ^ 53) \/ r = Beyond false)
  /\ extractBidCount markdown = bidCount_from (firstn 1 bidCountPatterns) markdown.
Proof.
  split.
  - intros r. unfold extractBidCount, bidCount_from.
    destruct (first_group bidCountPatterns markdown) as [g|] eqn:E; [|discriminate].
    intros [= <-].
    destruct (first_group_ok is_digit bidCountPatterns markdown g) as [Hne Hd];
      [vm_compute; reflexivity | exact E |].
    destruct (parseInt_count g Hne Hd) as [Hn ->].
    destruct (Z.ltb_spec (digits_value (chars g)) (2 ^ 53)); [|now right].
    left. eexists. split; [reflexivity | lia].
  - unfold extractBidCount, bidCount_from, bidCountPatterns. cbn [firstn first_group].
    destruct (js_match markdown _) as [m|] eqn:E1; [reflexivity|].
    match goal with
    | |- context [js_match markdown ?p] => destruct (js_match markdown p) eqn:E2
    end; [|reflexivity].
    exfalso. unfold js_match in E1, E2. cbn [global re_i source ignoreCase] in E1, E2.
    match type of E1 with
    | match ?x with _ => _ end = None => destruct x eqn:S1; [discriminate|]
    end.
    match type of E2 with
    | match ?x with _ => _ end = Some _ => destruct x eqn:S2; [|discriminate]
    end.
    revert S1.
    apply (search_weaken true (lit "bidder" ++ opt (Lit "s")) (lit "bid" ++ opt (Lit "s"))
             bidder_is_bid
             ([GroupOpen] ++ plus Digit ++ [GroupClose] ++ star Space)).
    change (search true
              ([GroupOpen] ++ plus Digit ++ [GroupClose] ++ star Space
                 ++ lit "bidder" ++ opt (Lit "s")) None (chars markdown) <> None).
    now rewrite S2.
Qed.

(** Twelve bids. *)
Lemma extractBidCount_spec_witness :
  exists n, extractBidCount "12 bids" = Some (Exactly n) /\ 0 <= n < 2 ^ 53.
Proof.
  destruct (proj1 (extractBidCount_spec "12 bids") (Exactly 12) eq_refl)
    as [(n & Hn & H0)|H]; [|discriminate].
  exists n. split; [now rewrite <- Hn | exact H0].
Defined.

(** ** Validation and the query string *)

Lemma before_question_app (s t : list ascii) :
  forallb no_question s = true ->
  before_question (s ++ "?"%char :: t) = before_question s.
Proof.
  induction s as [|c s IH]; cbn [forallb app before_question]; [reflexivity|].
  intro H. apply andb_true_iff in H as [Hc Hs]. unfold no_question in Hc.
  apply negb_true_iff in Hc. rewrite Hc. now rewrite IH.
Qed.

(** X23.  The validation reads what the cleaning throws away.  Any address
    without a question mark passes [isValidEbayUrl] once a query string that
    names an eBay domain and an item path is appended, and
    [preprocessEbayUrl] then removes that query string: the URL that is
    cleaned, and so the one the single-scrape service asks the scraper for,
    is that of the bare address, whatever it is. *)
Theorem validation_reads_query (address : string) (scrape : string -> ScrapeOutcome)
  (extractEndTime : Z -> string -> Date) (extractDetails : PageData -> Details) (now : Z) :
  forallb no_question (chars address) = true ->
  let url := (address ++ "?ebay.com/itm/")%string in
  isValidEbayUrl url = true
  /\ preprocessEbayUrl url = preprocessEbayUrl address
  /\ (scrape (preprocessEbayUrl address) = TimedOut ->
      Simple.extractAuctionData extractEndTime extractDetails scrape now url
      = Throw (Error "SCRAPING_TIMEOUT")).
Proof.
  intro Hq. cbv zeta.
  assert (Hv : isValidEbayUrl (address ++ "?ebay.com/itm/") = true).
  { apply (isValidEbayUrl_intro _ "ebay.com"); [cbn; tauto| |];
      unfold includes; rewrite chars_app; now apply includes_chars_app_r. }
  assert (Hp : preprocessEbayUrl (address ++ "?ebay.com/itm/") = preprocessEbayUrl address).
  { unfold preprocessEbayUrl. rewrite chars_app.
    change (chars "?ebay.com/itm/") with ("?"%char :: chars "ebay.com/itm/").
    now rewrite before_question_app. }
  split; [exact Hv|]. split; [exact Hp|].
  intro Ht. unfold Simple.extractAuctionData. rewrite Hv, Hp, Ht. reflexivity.
Qed.

(** An address that is not eBay's passes, and is cleaned to itself. *)
Lemma validation_reads_query_witness :
  isValidEbayUrl "https://example.org/?ebay.com/itm/" = true
  /\ preprocessEbayUrl "https://example.org/?ebay.com/itm/" = "https://example.org/".
Proof.
  destruct (validation_reads_query "https://example.org/" (fun _ => TimedOut)
              two_hours no_details 0 eq_refl) as (H1 & H2 & _).
  split; [exact H1 | exact H2].
Defined.
